(** * Fraud detection import: the identity-link graph and its queries

    A shallow embedding of [import_fraud_to_neo4j.py].  The script drives a
    property-graph database through Cypher statements; each statement is
    embedded as a function on an explicit graph value, following the
    statement clause by clause (MATCH as a list comprehension, WITH as a
    grouping, MERGE and SET as graph updates). *)

From Stdlib Require Import QArith Ascii String.
From stdpp Require Import gmap strings list fin_maps pretty.

Local Open Scope nat_scope.

(** ** Values *)

(** A property value: what pandas hands to the driver (integers, floats,
    text) and what the database computes from it.  A Cypher float is held
    as a rational: the only floats the script computes with are sums of
    1.0, 1.5 and 5.0, multiples of one half, which binary floating point
    adds without rounding.  [null] is the absence of a value, an
    [option value] that is [None]. *)
Inductive value :=
  | VInt (z : Z)
  | VFloat (q : Q)
  | VStr (s : string)
  | VDate (iso : string)
  | VDateTime (iso : string).

(** Cypher's [=] on two values that are not null. *)
Definition value_eqb (a b : value) : bool :=
  match a, b with
  | VInt x, VInt y => (x =? y)%Z
  | VFloat x, VFloat y => Qeq_bool x y
  | VInt x, VFloat y => Qeq_bool (inject_Z x) y
  | VFloat x, VInt y => Qeq_bool x (inject_Z y)
  | VStr x, VStr y => String.eqb x y
  | VDate x, VDate y => String.eqb x y
  | VDateTime x, VDateTime y => String.eqb x y
  | _, _ => false
  end.

(** [a = b] where either side may be null: null equals nothing. *)
Definition cy_eqb (a b : option value) : bool :=
  match a, b with
  | Some x, Some y => value_eqb x y
  | _, _ => false
  end.

(** ** The property graph *)

Inductive label :=
  Client | SSN | Phone | Email | Merchant | Bank | Transaction | Mule.

Inductive reltype :=
  HAS_SSN | HAS_PHONE | HAS_EMAIL | PERFORMED | FLAGGED_AS | SHARED_IDENTIFIERS.

#[global] Instance label_eq_dec : EqDecision label.
Proof. solve_decision. Defined.

#[global] Instance reltype_eq_dec : EqDecision reltype.
Proof. solve_decision. Defined.

(** A node carries the one label the script gives it and its properties.
    The key under which the store holds it is the internal identifier that
    Cypher's [id(n)] returns. *)
Record Node := { nlabel : label; nprops : gmap string value }.

(** A relationship: a directed, typed edge with properties.  The store
    keeps relationships in creation order; a relationship's identity is its
    position in that list. *)
Record Rel := {
  rsrc : nat;
  rtype : reltype;
  rtgt : nat;
  rprops : gmap string value
}.

Record Graph := { nodes : gmap nat Node; rels : list Rel }.

Definition empty_graph : Graph := {| nodes := ∅; rels := [] |}.

Definition label_of (g : Graph) (i : nat) : option label :=
  nlabel <$> nodes g !! i.

Definition has_label (g : Graph) (l : label) (i : nat) : bool :=
  bool_decide (label_of g i = Some l).

(** [MATCH (n:l)]: the identifiers of the nodes labelled [l]. *)
Definition nodes_labelled (g : Graph) (l : label) : list nat :=
  filter (λ i, has_label g l i) (map_to_list (nodes g)).*1.

(** [MATCH (n:l {k: v})]. *)
Definition prop_is (g : Graph) (k : string) (v : option value)
    (i : nat) : bool :=
  match nodes g !! i with
  | Some n => cy_eqb (nprops n !! k) v
  | None => false
  end.

Definition match_nodes (g : Graph) (l : label) (k : string)
    (v : option value) : list nat :=
  filter (λ i, prop_is g k v i) (nodes_labelled g l).

(** A property map written in a pattern, [{k1: v1, k2: v2}], matches a
    stored map that holds an equal value under every key of the pattern. *)
Definition props_match (pat : list (string * value))
    (m : gmap string value) : bool :=
  forallb (λ kv, cy_eqb (m !! kv.1) (Some kv.2)) pat.

Definition rel_matches (s : nat) (t : reltype) (d : nat)
    (pat : list (string * value)) (r : Rel) : bool :=
  bool_decide (rsrc r = s) && bool_decide (rtype r = t)
  && bool_decide (rtgt r = d) && props_match pat (rprops r).

(** [MERGE (s)-[:t pat]->(d)] for bound [s] and [d]: when a relationship
    from [s] to [d] of type [t] matching the pattern's properties exists,
    nothing happens; otherwise one is created with exactly the pattern's
    properties. *)
Definition merge_rel (g : Graph) (s : nat) (t : reltype) (d : nat)
    (pat : list (string * value)) : Graph :=
  if existsb (rel_matches s t d pat) (rels g) then g
  else {| nodes := nodes g;
          rels := rels g ++ [{| rsrc := s; rtype := t; rtgt := d;
                                rprops := list_to_map pat |}] |}.

(** ** The CSV tables *)

(** [DataFrame.to_dict('records')]: every row is a dictionary from column
    name to cell.  A column the row lacks reads as null. *)
Abbreviation row := (gmap string value).

Record Data := {
  banks : list row;
  clients : list row;
  ssns : list row;
  phones : list row;
  emails : list row;
  merchants : list row;
  mules : list row;
  transactions : list row;
  client_has_ssn : list row;
  client_has_phone : list row;
  client_has_email : list row
}.

(** The property map of a [CREATE]: a property whose expression is null is
    not stored. *)
Definition props_of (l : list (string * option value)) : gmap string value :=
  foldr (λ kv m, match kv.2 with Some x => <[kv.1 := x]> m | None => m end)
        ∅ l.

(** ** STEP 3: existing data *)

Definition lower_ascii (c : ascii) : ascii :=
  let n := nat_of_ascii c in
  if (65 <=? n) && (n <=? 90) then ascii_of_nat (n + 32) else c.

Fixpoint lower (s : string) : string :=
  match s with
  | EmptyString => EmptyString
  | String c s' => String (lower_ascii c) (lower s')
  end.

Definition node_count (g : Graph) : nat := size (nodes g).

(** The import goes on with the database as found when it holds no node,
    and with a cleared one when the operator answers yes; any other answer
    ends the script ([None]). *)
Definition check_existing (g : Graph) (response : string) : option Graph :=
  if node_count g =? 0 then Some g
  else if String.eqb (lower response) "yes" then Some empty_graph
  else None.

(** ** STEP 4: constraints *)

(** The labels of the script's [constraints] list; the property is [id]
    for every one of them. *)
Definition constraints : list label :=
  [Client; SSN; Phone; Email; Merchant; Bank; Transaction; Mule].

(** One [CREATE CONSTRAINT ... IF NOT EXISTS FOR (n:l) REQUIRE n.id IS
    UNIQUE] for each label of the list, each inside a [try].
    [constraint_ok l] says that the database takes the statement for [l],
    after which the constraint is in force, made now or found there.  When
    the statement raises, the script prints a warning and goes on without
    the constraint.  The result is the schema of the import: the labels
    whose [id] is under a uniqueness constraint. *)
Definition create_constraints (constraint_ok : label → bool) : list label :=
  filter (λ l, constraint_ok l) constraints.

(** ** STEPS 6 to 13: nodes *)

(** Under the uniqueness constraint a [CREATE] of a node whose [id] an
    equally labelled node already holds fails, and the script ends there;
    without the constraint the node is created all the same. *)
Definition id_taken (g : Graph) (l : label) (v : option value) : bool :=
  match match_nodes g l "id" v with [] => false | _ :: _ => true end.

Definition create_node (schema : list label) (g : Graph) (l : label)
    (props : gmap string value) : option Graph :=
  if bool_decide (l ∈ schema) && id_taken g l (props !! "id") then None
  else Some {| nodes := <[fresh (dom (nodes g)) :=
                            {| nlabel := l; nprops := props |}]> (nodes g);
               rels := rels g |}.

(** [UNWIND $rows AS r CREATE (:l {...})], [mk] computing the properties
    of a row ([None] when an expression in them raises). *)
Fixpoint unwind_create (schema : list label) (l : label)
    (mk : row → option (gmap string value))
    (rows : list row) (g : Graph) : option Graph :=
  match rows with
  | [] => Some g
  | r :: rows' =>
      p ← mk r; g' ← create_node schema g l p;
      unwind_create schema l mk rows' g'
  end.

Fixpoint replace_char (a b : ascii) (s : string) : string :=
  match s with
  | EmptyString => EmptyString
  | String c s' =>
      String (if Ascii.eqb c a then b else c) (replace_char a b s')
  end.

(** [replace(x, ' ', 'T')]: null stays null, text has its spaces replaced,
    anything else is a type error. *)
Definition cy_replace_space (x : option value) : option (option value) :=
  match x with
  | None => Some None
  | Some (VStr s) => Some (Some (VStr (replace_char " " "T" s)))
  | Some _ => None
  end.

Section Nodes.

(** The schema STEP 4 left. *)
Variable schema : list label.

(** What the database accepts as the text of a date and of a datetime, and
    how it reads a number from text, is the database's own. *)
Variable date_ok : string → bool.
Variable datetime_ok : string → bool.
Variable parse_float : string → option Q.

(** [date(x)]: the outer [None] is a raised error, the inner one null. *)
Definition cy_date (x : option value) : option (option value) :=
  match x with
  | None => Some None
  | Some (VStr s) => if date_ok s then Some (Some (VDate s)) else None
  | Some _ => None
  end.

Definition cy_datetime (x : option value) : option (option value) :=
  match x with
  | None => Some None
  | Some (VStr s) => if datetime_ok s then Some (Some (VDateTime s)) else None
  | Some _ => None
  end.

(** [toFloat(x)]: text that is no number gives null. *)
Definition cy_toFloat (x : option value) : option value :=
  match x with
  | Some (VInt z) => Some (VFloat (inject_Z z))
  | Some (VFloat q) => Some (VFloat q)
  | Some (VStr s) => VFloat <$> parse_float s
  | _ => None
  end.

Definition create_banks (banks_list : list row) (g : Graph) : option Graph :=
  unwind_create schema Bank
    (λ bank, Some (props_of [("id", bank !! "bank_id");
                             ("name", bank !! "name");
                             ("routingNumber", bank !! "routing_number")]))
    banks_list g.

Definition create_clients (clients_list : list row) (g : Graph)
    : option Graph :=
  unwind_create schema Client
    (λ client,
       d ← cy_date (client !! "registration_date");
       Some (props_of [("id", client !! "client_id");
                       ("name", client !! "name");
                       ("accountNumber", client !! "account_number");
                       ("bankId", client !! "bank_id");
                       ("registrationDate", d)]))
    clients_list g.

Definition create_ssns (ssns_list : list row) (g : Graph) : option Graph :=
  unwind_create schema SSN
    (λ ssn, Some (props_of [("id", ssn !! "ssn_id");
                            ("value", ssn !! "ssn_value")]))
    ssns_list g.

Definition create_phones (phones_list : list row) (g : Graph)
    : option Graph :=
  unwind_create schema Phone
    (λ phone, Some (props_of [("id", phone !! "phone_id");
                              ("number", phone !! "phone_number")]))
    phones_list g.

Definition create_emails (emails_list : list row) (g : Graph)
    : option Graph :=
  unwind_create schema Email
    (λ email, Some (props_of [("id", email !! "email_id");
                              ("address", email !! "email_address")]))
    emails_list g.

Definition create_merchants (merchants_list : list row) (g : Graph)
    : option Graph :=
  unwind_create schema Merchant
    (λ merchant, Some (props_of [("id", merchant !! "merchant_id");
                                 ("name", merchant !! "name");
                                 ("category", merchant !! "category")]))
    merchants_list g.

Definition create_mules (mules_list : list row) (g : Graph) : option Graph :=
  unwind_create schema Mule
    (λ mule,
       d ← cy_date (mule !! "flagged_date");
       Some (props_of [("id", mule !! "mule_id");
                       ("clientId", mule !! "client_id");
                       ("flaggedDate", d);
                       ("riskScore", cy_toFloat (mule !! "risk_score"))]))
    mules_list g.

Definition create_transactions_batch (transactions_batch : list row)
    (g : Graph) : option Graph :=
  unwind_create schema Transaction
    (λ trans,
       s ← cy_replace_space (trans !! "timestamp");
       t ← cy_datetime s;
       Some (props_of [("id", trans !! "transaction_id");
                       ("type", trans !! "type");
                       ("amount", cy_toFloat (trans !! "amount"));
                       ("timestamp", t);
                       ("clientId", trans !! "client_id");
                       ("destination", trans !! "destination");
                       ("status", trans !! "status")]))
    transactions_batch g.

Definition batch_size : nat := 500.

(** [transactions_list[i:i+batch_size]] for [i] in
    [range(0, len(transactions_list), batch_size)]; at most [fuel]
    batches. *)
Fixpoint batches (fuel : nat) (l : list row) : list (list row) :=
  match fuel, l with
  | S f, _ :: _ => take batch_size l :: batches f (drop batch_size l)
  | _, _ => []
  end.

Fixpoint import_batches (bs : list (list row)) (g : Graph) : option Graph :=
  match bs with
  | [] => Some g
  | b :: bs' => g' ← create_transactions_batch b g; import_batches bs' g'
  end.

Definition import_transactions (transactions_list : list row) (g : Graph)
    : option Graph :=
  import_batches (batches (length transactions_list) transactions_list) g.

End Nodes.

(** ** STEPS 14 to 18: direct relationships *)

(** One row of [UNWIND ... MATCH (c ...) MATCH (s ...) MERGE (c)-[:t]->(s)]:
    a merge for every pair of matched nodes, none when either match is
    empty. *)
Definition link_row (t : reltype) (g : Graph) (cs ss : list nat) : Graph :=
  foldl (λ g c, foldl (λ g s, merge_rel g c t s []) g ss) g cs.

Definition create_has_ssn (g : Graph) (rels_list : list row) : Graph :=
  foldl (λ g rel,
           link_row HAS_SSN g
             (match_nodes g Client "id" (rel !! "client_id"))
             (match_nodes g SSN "id" (rel !! "ssn_id")))
        g rels_list.

Definition create_has_phone (g : Graph) (rels_list : list row) : Graph :=
  foldl (λ g rel,
           link_row HAS_PHONE g
             (match_nodes g Client "id" (rel !! "client_id"))
             (match_nodes g Phone "id" (rel !! "phone_id")))
        g rels_list.

Definition create_has_email (g : Graph) (rels_list : list row) : Graph :=
  foldl (λ g rel,
           link_row HAS_EMAIL g
             (match_nodes g Client "id" (rel !! "client_id"))
             (match_nodes g Email "id" (rel !! "email_id")))
        g rels_list.

(** What STEP 14 prints once [create_has_ssn] has run: the number of rows
    of the table. *)
Definition report_has_ssn (rels_list : list row) : string :=
  "OK! Created " +:+ pretty (length rels_list) +:+ " HAS_SSN relationships".

Definition node_prop (g : Graph) (i : nat) (k : string) : option value :=
  n ← nodes g !! i; nprops n !! k.

(** [MATCH (t:l) MATCH (c:Client {id: t.clientId}) MERGE (c)-[:ty]->(t)]. *)
Definition link_by_client_id (ty : reltype) (l : label) (g : Graph) : Graph :=
  foldl (λ g t,
           foldl (λ g c, merge_rel g c ty t []) g
                 (match_nodes g Client "id" (node_prop g t "clientId")))
        g (nodes_labelled g l).

Definition create_performed (g : Graph) : Graph :=
  link_by_client_id PERFORMED Transaction g.

Definition create_flagged_as (g : Graph) : Graph :=
  link_by_client_id FLAGGED_AS Mule g.

(** ** STEP 20: node degrees *)

(** [COUNT { (n)-->() }] and [COUNT { (n)<--() }]. *)
Definition out_degree (g : Graph) (i : nat) : nat :=
  length (filter (λ r, rsrc r = i) (rels g)).

Definition in_degree (g : Graph) (i : nat) : nat :=
  length (filter (λ r, rtgt r = i) (rels g)).

(** [SET n.out_degree = out_degree, n.in_degree = in_degree]. *)
Definition set_degrees (g : Graph) (i : nat) (n : Node) : Node :=
  {| nlabel := nlabel n;
     nprops := <["in_degree" := VInt (Z.of_nat (in_degree g i))]>
                 (<["out_degree" := VInt (Z.of_nat (out_degree g i))]>
                    (nprops n)) |}.

Definition annotate_degrees (g : Graph) : Graph :=
  {| nodes := map_imap (λ i n, Some (set_degrees g i n)) (nodes g);
     rels := rels g |}.

Definition nodes_updated (g : Graph) : nat := node_count g.

(** ** STEP 21: the SHARED_IDENTIFIERS relationships *)

Definition is_identifier_rel (t : reltype) : bool :=
  match t with
  | HAS_EMAIL | HAS_PHONE | HAS_SSN => true
  | _ => false
  end.

(** The MATCH of STEP 21: the pairs [(r, r2)] of identifier relationships
    that end in one node [n], [r] starting at a client [c1] and [r2] at a
    client [c2] with [id(c1) < id(c2)].  Cypher matches no relationship
    twice in one pattern; here [r] and [r2] start at different nodes, so
    they are two relationships already. *)
Definition co_ownerships (g : Graph) : list (Rel * Rel) :=
  r ← rels g;
  r2 ← rels g;
  if is_identifier_rel (rtype r) && is_identifier_rel (rtype r2)
     && bool_decide (rtgt r = rtgt r2)
     && has_label g Client (rsrc r) && has_label g Client (rsrc r2)
     && bool_decide (rsrc r < rsrc r2)
  then [(r, r2)] else [].

(** The CASE of STEP 21. *)
Definition type_weight (t : reltype) : Q :=
  match t with
  | HAS_EMAIL => 1
  | HAS_PHONE => 3 # 2
  | HAS_SSN => 5
  | _ => 0
  end.

Definition Qsum (l : list Q) : Q := foldr Qplus 0%Q l.

(** The grouping of a WITH or RETURN that aggregates: one group for every
    distinct key, holding the rows of that key. *)
Definition group_by {A K : Type} `{EqDecision K} (key : A → K)
    (rows : list A) : list (K * list A) :=
  (λ k, (k, filter (λ a, key a = k) rows)) <$> remove_dups (key <$> rows).

Definition pair_key (p : Rel * Rel) : nat * nat := (rsrc p.1, rsrc p.2).

(** [WITH c1, c2, count( * ) AS cnt, SUM(CASE ...) AS weight]. *)
Record Link := { c1 : nat; c2 : nat; cnt : Z; weight : Q }.

Definition link_of_group (kr : (nat * nat) * list (Rel * Rel)) : Link :=
  {| c1 := kr.1.1; c2 := kr.1.2;
     cnt := Z.of_nat (length kr.2);
     weight := Qsum ((λ p, type_weight (rtype p.1)) <$> kr.2) |}.

Definition identity_links (g : Graph) : list Link :=
  link_of_group <$> group_by pair_key (co_ownerships g).

Definition link_props (l : Link) : list (string * value) :=
  [("count", VInt (cnt l)); ("weight", VFloat (weight l))].

(** [MERGE (c1)-[:SHARED_IDENTIFIERS {count: cnt, weight: weight}]->(c2)]. *)
Definition merge_link (g : Graph) (l : Link) : Graph :=
  merge_rel g (c1 l) SHARED_IDENTIFIERS (c2 l) (link_props l).

Definition build_identity_links (g : Graph) : Graph :=
  foldl merge_link g (identity_links g).

(** [summary.counters.relationships_created]. *)
Definition relationships_created (g : Graph) : nat :=
  length (rels (build_identity_links g)) - length (rels g).

(** ** STEP 22: the fraud queries *)

Definition max_of (l : list nat) : option nat :=
  match l with
  | [] => None
  | x :: l' => Some (foldr Nat.max x l')
  end.

(** [MATCH (s:SSN)<-[:HAS_SSN]-(c:Client)]: a row [(s, c)] for every
    HAS_SSN relationship from a client [c] to an SSN node [s]. *)
Definition ssn_holdings (g : Graph) : list (nat * nat) :=
  s ← nodes_labelled g SSN;
  r ← rels g;
  if bool_decide (rtype r = HAS_SSN) && bool_decide (rtgt r = s)
     && has_label g Client (rsrc r)
  then [(s, rsrc r)] else [].

(** [WITH s, count(c) AS client_count WHERE client_count > 1]. *)
Definition shared_ssn_counts (g : Graph) : list nat :=
  filter (λ n, 1 < n)
         ((λ kr : nat * list (nat * nat), length kr.2)
            <$> group_by fst (ssn_holdings g)).

Record SsnStats := { shared_ssns : nat; max_clients : option nat }.

(** [RETURN count(s) AS shared_ssns, max(client_count) AS max_clients];
    the maximum of no row is null. *)
Definition shared_ssn_stats (g : Graph) : SsnStats :=
  {| shared_ssns := length (shared_ssn_counts g);
     max_clients := max_of (shared_ssn_counts g) |}.

(** [MATCH ()-[r:SHARED_IDENTIFIERS]->() RETURN count(r)]. *)
Definition shared_rels (g : Graph) : list Rel :=
  filter (λ r, rtype r = SHARED_IDENTIFIERS) (rels g).

Definition fraud_connections (g : Graph) : nat := length (shared_rels g).

(** Every element of a list together with the others. *)
Fixpoint picks {A : Type} (l : list A) : list (A * list A) :=
  match l with
  | [] => []
  | x :: l' => (x, l') :: ((λ p : A * list A, (p.1, x :: p.2)) <$> picks l')
  end.

Definition touches (r : Rel) (i : nat) : bool :=
  bool_decide (rsrc r = i) || bool_decide (rtgt r = i).

Definition other_end (r : Rel) (i : nat) : nat :=
  if bool_decide (rsrc r = i) then rtgt r else rsrc r.

(** [(c)-[:SHARED_IDENTIFIERS*]-(x)]: the end nodes [x] of the paths of one
    or more relationships out of [avail], taken in either direction, that
    start at [cur] and use no relationship twice; one entry per path.
    Nodes may repeat on a path.  A path is no longer than [avail], so
    [length avail] is fuel enough. *)
Fixpoint trail_ends (fuel : nat) (avail : list Rel) (cur : nat) : list nat :=
  match fuel with
  | 0 => []
  | S f =>
      p ← picks avail;
      if touches p.1 cur
      then other_end p.1 cur :: trail_ends f p.2 (other_end p.1 cur)
      else []
  end.

(** [MATCH (c:Client)-[:SHARED_IDENTIFIERS*]-(connected:Client)]: the rows
    [(c, connected)]. *)
Definition ring_rows (g : Graph) : list (nat * nat) :=
  c ← nodes_labelled g Client;
  connected ← filter (λ x, has_label g Client x)
                (trail_ends (length (shared_rels g)) (shared_rels g) c);
  [(c, connected)].

(** [WITH c, collect(DISTINCT connected) + [c] AS fraud_ring]. *)
Definition fraud_rings (g : Graph) : list (list nat) :=
  (λ kr : nat * list (nat * nat), remove_dups kr.2.*2 ++ [kr.1])
    <$> group_by fst (ring_rows g).

(** [RETURN max(size(fraud_ring)) AS largest_ring_size]. *)
Definition largest_ring_size (g : Graph) : option nat :=
  max_of (length <$> fraud_rings g).

(** ** The whole run *)

Section Run.

Variable constraint_ok : label → bool.
Variable date_ok : string → bool.
Variable datetime_ok : string → bool.
Variable parse_float : string → option Q.

(** STEPS 3 to 21 in the script's order, on the tables STEP 5 read;
    [None] when the script ends before STEP 21 is done. *)
Definition full_import (g0 : Graph) (response : string) (data : Data)
    : option Graph :=
  g ← check_existing g0 response;
  let schema := create_constraints constraint_ok in
  g ← create_banks schema (banks data) g;
  g ← create_clients schema date_ok (clients data) g;
  g ← create_ssns schema (ssns data) g;
  g ← create_phones schema (phones data) g;
  g ← create_emails schema (emails data) g;
  g ← create_merchants schema (merchants data) g;
  g ← create_mules schema date_ok parse_float (mules data) g;
  g ← import_transactions schema datetime_ok parse_float
        (transactions data) g;
  let g := create_has_ssn g (client_has_ssn data) in
  let g := create_has_phone g (client_has_phone data) in
  let g := create_has_email g (client_has_email data) in
  let g := create_performed g in
  let g := create_flagged_as g in
  let g := annotate_degrees g in
  Some (build_identity_links g).

End Run.

(** ** The scenario of the specification *)

(** Clients 1, 2 and 3 hold SSN S1; clients 1 and 4 hold phone P1. *)
Definition scenario : Data :=
  let client (i : Z) : row :=
    {[ "client_id" := VInt i; "registration_date" := VStr "2024-01-01" ]} in
  let has (k : string) (c : Z) (i : string) : row :=
    {[ "client_id" := VInt c; k := VStr i ]} in
  {| banks := []; clients := client <$> [1; 2; 3; 4]%Z;
     ssns := [{[ "ssn_id" := VStr "S1" ]}];
     phones := [{[ "phone_id" := VStr "P1" ]}];
     emails := []; merchants := []; mules := []; transactions := [];
     client_has_ssn := (λ c, has "ssn_id" c "S1") <$> [1; 2; 3]%Z;
     client_has_phone := (λ c, has "phone_id" c "P1") <$> [1; 4]%Z;
     client_has_email := [] |}.

(** Every constraint of STEP 4 made, every date accepted. *)
Definition every_label (l : label) : bool := true.
Definition accept_all (s : string) : bool := true.
Definition no_number (s : string) : option Q := None.

Definition scenario_graph : option Graph :=
  full_import every_label accept_all accept_all no_number empty_graph ""
    scenario.

(** Two clients and nothing else: no identifier, no relationship. *)
Definition lone_clients : Data :=
  {| banks := [];
     clients := [{[ "client_id" := VInt 1 ]}; {[ "client_id" := VInt 2 ]}];
     ssns := []; phones := []; emails := []; merchants := []; mules := [];
     transactions := []; client_has_ssn := []; client_has_phone := [];
     client_has_email := [] |}.

Definition lone_clients_graph : option Graph :=
  full_import every_label accept_all accept_all no_number empty_graph ""
    lone_clients.

(** * Properties *)

(** ** Relationship merges only ever add *)

(** [g'] has the nodes of [g] and its relationships, followed by new ones
    that all satisfy [P]. *)
Definition grows_by (P : Rel → Prop) (g g' : Graph) : Prop :=
  nodes g' = nodes g ∧ ∃ new, rels g' = rels g ++ new ∧ Forall P new.

Lemma grows_by_refl P g : grows_by P g g.
Proof. split; [done|]. exists []. by rewrite app_nil_r. Qed.

Lemma grows_by_trans P g1 g2 g3 :
  grows_by P g1 g2 → grows_by P g2 g3 → grows_by P g1 g3.
Proof.
  intros [Hn1 (n1 & Hr1 & HP1)] [Hn2 (n2 & Hr2 & HP2)].
  split; [congruence|].
  exists (n1 ++ n2). split.
  - by rewrite Hr2, Hr1, app_assoc.
  - by apply Forall_app.
Qed.

Lemma grows_by_weaken (P Q : Rel → Prop) g g' :
  (∀ r, P r → Q r) → grows_by P g g' → grows_by Q g g'.
Proof.
  intros HPQ [Hn (new & Hr & HP)]. split; [done|].
  exists new. split; [done|]. eapply Forall_impl; eauto.
Qed.

Lemma merge_rel_grows g s t d pat :
  grows_by (λ r, rsrc r = s ∧ rtype r = t ∧ rtgt r = d
                 ∧ rprops r = list_to_map pat)
           g (merge_rel g s t d pat).
Proof.
  unfold merge_rel. destruct (existsb _ _).
  - apply grows_by_refl.
  - split; [done|]. eexists. split; [done|]. by repeat constructor.
Qed.

Lemma foldl_grows {A} P (f : Graph → A → Graph) (l : list A) g :
  (∀ g a, grows_by P g (f g a)) → grows_by P g (foldl f g l).
Proof.
  intros Hf. revert g. induction l as [|a l IH]; intros g; simpl.
  - apply grows_by_refl.
  - eapply grows_by_trans; [apply Hf | apply IH].
Qed.

Lemma link_row_grows t g cs ss :
  grows_by (λ r, rtype r = t) g (link_row t g cs ss).
Proof.
  unfold link_row. apply foldl_grows. intros g1 c.
  apply foldl_grows. intros g2 s.
  eapply grows_by_weaken; [|apply merge_rel_grows]. by intros r (_ & ? & _).
Qed.

Lemma link_by_client_id_grows ty l g :
  grows_by (λ r, rtype r = ty) g (link_by_client_id ty l g).
Proof.
  unfold link_by_client_id. apply foldl_grows. intros g1 t.
  apply foldl_grows. intros g2 c.
  eapply grows_by_weaken; [|apply merge_rel_grows]. by intros r (_ & ? & _).
Qed.

Lemma create_has_ssn_grows g rows :
  grows_by (λ r, rtype r = HAS_SSN) g (create_has_ssn g rows).
Proof. apply foldl_grows. intros. apply link_row_grows. Qed.

Lemma create_has_phone_grows g rows :
  grows_by (λ r, rtype r = HAS_PHONE) g (create_has_phone g rows).
Proof. apply foldl_grows. intros. apply link_row_grows. Qed.

Lemma create_has_email_grows g rows :
  grows_by (λ r, rtype r = HAS_EMAIL) g (create_has_email g rows).
Proof. apply foldl_grows. intros. apply link_row_grows. Qed.

Lemma merge_link_grows g l :
  grows_by (λ r, rsrc r = c1 l ∧ rtype r = SHARED_IDENTIFIERS
                 ∧ rtgt r = c2 l ∧ rprops r = list_to_map (link_props l))
           g (merge_link g l).
Proof. apply merge_rel_grows. Qed.

Lemma build_identity_links_grows g :
  grows_by (λ r, rtype r = SHARED_IDENTIFIERS) g (build_identity_links g).
Proof.
  unfold build_identity_links. apply foldl_grows. intros g1 l.
  eapply grows_by_weaken; [|apply merge_link_grows]. by intros r (_ & ? & _).
Qed.

(** ** Queries that read only part of the graph *)

Lemma nodes_labelled_ext g g' l :
  nodes g' = nodes g → nodes_labelled g' l = nodes_labelled g l.
Proof.
  intros H. unfold nodes_labelled, has_label, label_of. by rewrite H.
Qed.

Lemma match_nodes_ext g g' l k v :
  nodes g' = nodes g → match_nodes g' l k v = match_nodes g l k v.
Proof.
  intros H. unfold match_nodes, prop_is.
  rewrite (nodes_labelled_ext g g' l H). by rewrite H.
Qed.

Lemma has_label_ext g g' l i :
  nodes g' = nodes g → has_label g' l i = has_label g l i.
Proof. intros H. unfold has_label, label_of. by rewrite H. Qed.

Lemma bind_nil {A B} (f : A → list B) (l : list A) :
  Forall (λ x, f x = []) l → l ≫= f = [].
Proof. induction 1 as [|x l Hx _ IH]; [done|]. by rewrite bind_cons, Hx, IH. Qed.

(** STEP 21 reads the identifier relationships and the labels only: new
    relationships of another type do not change what it matches. *)
Lemma co_ownerships_grows g g' :
  grows_by (λ r, is_identifier_rel (rtype r) = false) g g' →
  co_ownerships g' = co_ownerships g.
Proof.
  intros [Hn (new & Hr & Hnew)]. unfold co_ownerships. rewrite Hr.
  rewrite bind_app, (bind_nil _ new), app_nil_r.
  2:{ eapply Forall_impl; [exact Hnew|]. intros r Hfalse. simpl in Hfalse.
      rewrite Hfalse. simpl. by apply bind_nil, Forall_true. }
  apply list_bind_ext; [|done]. intros r.
  rewrite bind_app, (bind_nil _ new), app_nil_r.
  2:{ eapply Forall_impl; [exact Hnew|]. intros r2 Hfalse. simpl in Hfalse.
      by rewrite Hfalse, andb_false_r. }
  apply list_bind_ext; [|done]. intros r2.
  by rewrite !(has_label_ext g g' _ _ Hn).
Qed.

Lemma identity_links_grows g g' :
  grows_by (λ r, is_identifier_rel (rtype r) = false) g g' →
  identity_links g' = identity_links g.
Proof.
  intros H. unfold identity_links. by rewrite (co_ownerships_grows g g' H).
Qed.

(** ** STEP 20 *)

Lemma set_degrees_lookup g i n :
  nprops (set_degrees g i n) !! "out_degree"
    = Some (VInt (Z.of_nat (out_degree g i)))
  ∧ nprops (set_degrees g i n) !! "in_degree"
    = Some (VInt (Z.of_nat (in_degree g i))).
Proof.
  unfold set_degrees; simpl. split.
  - by rewrite lookup_insert_ne, lookup_insert_eq.
  - by rewrite lookup_insert_eq.
Qed.

Lemma set_degrees_other g i n k :
  k ≠ "out_degree" → k ≠ "in_degree" →
  nprops (set_degrees g i n) !! k = nprops n !! k.
Proof.
  intros Ho Hi. unfold set_degrees; simpl.
  by rewrite !lookup_insert_ne.
Qed.

Lemma set_degrees_twice g g' i n :
  rels g' = rels g →
  set_degrees g' i (set_degrees g i n) = set_degrees g i n.
Proof.
  intros Hr. unfold set_degrees, out_degree, in_degree; simpl.
  rewrite Hr. f_equal.
  apply map_eq. intros k. rewrite !lookup_insert.
  repeat case_decide; done.
Qed.

Lemma annotate_degrees_lookup g i :
  nodes (annotate_degrees g) !! i = set_degrees g i <$> nodes g !! i.
Proof.
  unfold annotate_degrees; simpl. rewrite map_lookup_imap.
  by destruct (nodes g !! i).
Qed.

Lemma annotate_degrees_idempotent g :
  annotate_degrees (annotate_degrees g) = annotate_degrees g.
Proof.
  unfold annotate_degrees at 1 3. f_equal.
  apply map_eq. intros i.
  rewrite !map_lookup_imap, annotate_degrees_lookup.
  destruct (nodes g !! i) as [n|]; simpl; [|done].
  f_equal. by apply set_degrees_twice.
Qed.

(** C8.  The degree annotation gives every node of the graph, whatever its
    label and whatever its degree, [out_degree] = the number of
    relationships (of any type) that start at it and [in_degree] = the
    number that end at it; it keeps the node's label and other properties,
    adds and removes no node, reports every node as updated, and a second
    annotation of the annotated graph changes nothing. *)
Theorem annotate_degrees_correct (g : Graph) (i : nat) (n : Node) :
  nodes g !! i = Some n →
  (∃ n', nodes (annotate_degrees g) !! i = Some n'
         ∧ nlabel n' = nlabel n
         ∧ nprops n' !! "out_degree"
           = Some (VInt (Z.of_nat
               (length (filter (λ r, rsrc r = i) (rels g)))))
         ∧ nprops n' !! "in_degree"
           = Some (VInt (Z.of_nat
               (length (filter (λ r, rtgt r = i) (rels g)))))
         ∧ ∀ k, k ≠ "out_degree" → k ≠ "in_degree" →
                nprops n' !! k = nprops n !! k)
  ∧ dom (nodes (annotate_degrees g)) = dom (nodes g)
  ∧ nodes_updated g = size (nodes g)
  ∧ rels (annotate_degrees g) = rels g
  ∧ annotate_degrees (annotate_degrees g) = annotate_degrees g.
Proof.
  intros Hn. split_and!.
  - exists (set_degrees g i n). rewrite annotate_degrees_lookup, Hn.
    split_and!; [done|done|apply set_degrees_lookup|apply set_degrees_lookup|].
    intros k. apply set_degrees_other.
  - apply set_eq. intros j. rewrite !elem_of_dom, annotate_degrees_lookup.
    by rewrite fmap_is_Some.
  - done.
  - done.
  - apply annotate_degrees_idempotent.
Qed.

(** A node without any relationship gets both degrees, 0 and 0. *)
Lemma annotate_degrees_correct_witness :
  let g := {| nodes := {[ 7 := {| nlabel := Bank; nprops := ∅ |} ]};
              rels := [] |} in
  nodes g !! 7 = Some {| nlabel := Bank; nprops := ∅ |}
  ∧ ∃ n', nodes (annotate_degrees g) !! 7 = Some n'
          ∧ nprops n' !! "out_degree" = Some (VInt 0)
          ∧ nprops n' !! "in_degree" = Some (VInt 0).
Proof.
  intros g. split; [reflexivity|].
  destruct (annotate_degrees_correct g 7 {| nlabel := Bank; nprops := ∅ |})
    as [(n' & H1 & _ & H2 & H3 & _) _]; [reflexivity|].
  exists n'. split_and!; [exact H1|exact H2|exact H3].
Defined.

(** ** STEP 21: merging *)

Definition link_present (g : Graph) (l : Link) : bool :=
  existsb (rel_matches (c1 l) SHARED_IDENTIFIERS (c2 l) (link_props l))
          (rels g).

Lemma merge_link_unfold g l :
  merge_link g l
  = if link_present g l then g
    else {| nodes := nodes g;
            rels := rels g ++ [{| rsrc := c1 l; rtype := SHARED_IDENTIFIERS;
                                  rtgt := c2 l;
                                  rprops := list_to_map (link_props l) |}] |}.
Proof. done. Qed.

Lemma value_eqb_refl v : value_eqb v v = true.
Proof.
  destruct v; simpl.
  - apply Z.eqb_refl.
  - apply Qeq_bool_refl.
  - apply String.eqb_refl.
  - apply String.eqb_refl.
  - apply String.eqb_refl.
Qed.

(** The relationship a merge creates matches the pattern it was created
    from. *)
Lemma link_props_match l :
  props_match (link_props l) (list_to_map (link_props l)) = true.
Proof.
  unfold props_match, link_props; simpl.
  rewrite lookup_insert_eq, lookup_insert_ne, lookup_insert_eq by done.
  simpl. by rewrite Z.eqb_refl, Qeq_bool_refl.
Qed.

Lemma link_present_grows P g g' l :
  grows_by P g g' → link_present g l = true → link_present g' l = true.
Proof.
  intros [_ (new & Hr & _)]. unfold link_present. rewrite Hr, existsb_app.
  by intros ->.
Qed.

Lemma merge_link_present g l : link_present (merge_link g l) l = true.
Proof.
  rewrite merge_link_unfold. destruct (link_present g l) eqn:H; [done|].
  unfold link_present. cbn [rels]. rewrite existsb_app. cbn [existsb].
  unfold rel_matches at 2. cbn [rsrc rtype rtgt rprops].
  rewrite !bool_decide_eq_true_2 by done. rewrite link_props_match.
  by rewrite orb_true_r.
Qed.

Lemma foldl_merge_link_present ls g l :
  l ∈ ls → link_present (foldl merge_link g ls) l = true.
Proof.
  revert g. induction ls as [|a ls IH]; intros g Hl; [by inv Hl|].
  simpl. apply elem_of_cons in Hl as [->|Hl]; [|by apply IH].
  eapply link_present_grows.
  - apply (foldl_grows (λ _, True)). intros g1 l1.
    eapply grows_by_weaken; [|apply merge_link_grows]. done.
  - apply merge_link_present.
Qed.

Lemma foldl_merge_link_id ls g :
  (∀ l, l ∈ ls → link_present g l = true) → foldl merge_link g ls = g.
Proof.
  induction ls as [|a ls IH]; intros H; [done|]. simpl.
  rewrite merge_link_unfold, (H a) by apply list_elem_of_here.
  apply IH. intros l Hl. apply H. by apply list_elem_of_further.
Qed.

Lemma shared_not_identifier r :
  rtype r = SHARED_IDENTIFIERS → is_identifier_rel (rtype r) = false.
Proof. by intros ->. Qed.

(** C7.  Running the identity-link step a second time, on the graph the
    first run left, changes nothing: no relationship is created, so the
    SHARED_IDENTIFIERS relationships are the same pairs with the same
    count and weight, none duplicated and none doubled. *)
Theorem build_identity_links_idempotent (g : Graph) :
  build_identity_links (build_identity_links g) = build_identity_links g
  ∧ relationships_created (build_identity_links g) = 0.
Proof.
  assert (H : build_identity_links (build_identity_links g)
              = build_identity_links g).
  { unfold build_identity_links at 1.
    rewrite (identity_links_grows g (build_identity_links g)).
    2:{ eapply grows_by_weaken; [|apply build_identity_links_grows].
        apply shared_not_identifier. }
    apply foldl_merge_link_id. intros l Hl.
    by apply foldl_merge_link_present. }
  split; [done|]. unfold relationships_created. rewrite H. lia.
Qed.

(** ** The run up to STEP 21 *)

(** In the store every relationship joins two nodes that exist. *)
Definition store_ok (g : Graph) : Prop :=
  Forall (λ r, is_Some (nodes g !! rsrc r) ∧ is_Some (nodes g !! rtgt r))
         (rels g).

Definition is_direct (t : reltype) : bool :=
  match t with
  | HAS_SSN | HAS_PHONE | HAS_EMAIL | PERFORMED | FLAGGED_AS => true
  | SHARED_IDENTIFIERS => false
  end.

Lemma check_existing_rels g0 response g :
  store_ok g0 → check_existing g0 response = Some g → rels g = [].
Proof.
  unfold check_existing, node_count. intros Hok H.
  destruct (size (nodes g0) =? 0) eqn:Hsz.
  - inv H. apply Nat.eqb_eq, map_size_empty_iff in Hsz.
    destruct (rels g) as [|r rs] eqn:Hr; [done|].
    unfold store_ok in Hok. rewrite Hr in Hok.
    apply Forall_cons_1 in Hok as [[[n Hn] _] _].
    by rewrite Hsz, lookup_empty in Hn.
  - destruct (String.eqb _ _); by inv H.
Qed.

Lemma create_node_rels sc g l p g' :
  create_node sc g l p = Some g' → rels g' = rels g.
Proof. unfold create_node. destruct (_ && _); by inversion 1. Qed.

Lemma unwind_create_rels sc l mk rows g g' :
  unwind_create sc l mk rows g = Some g' → rels g' = rels g.
Proof.
  revert g. induction rows as [|r rows IH]; intros g; simpl.
  - by inversion 1.
  - destruct (mk r) as [p|]; simpl; [|done].
    destruct (create_node sc g l p) as [g1|] eqn:Hc; simpl; [|done].
    intros H. rewrite (IH _ H). by eapply create_node_rels.
Qed.

Lemma import_batches_rels sc dt pf bs g g' :
  import_batches sc dt pf bs g = Some g' → rels g' = rels g.
Proof.
  revert g. induction bs as [|b bs IH]; intros g; simpl.
  - by inversion 1.
  - destruct (create_transactions_batch sc dt pf b g) as [g1|] eqn:Hc;
      simpl; [|done].
    intros H. rewrite (IH _ H). by eapply unwind_create_rels.
Qed.

Lemma grows_by_direct t g g' :
  is_direct t = true →
  grows_by (λ r, rtype r = t) g g' →
  Forall (λ r, is_direct (rtype r) = true) (rels g) →
  Forall (λ r, is_direct (rtype r) = true) (rels g').
Proof.
  intros Ht [_ (new & -> & Hnew)] Hg. apply Forall_app. split; [done|].
  eapply Forall_impl; [exact Hnew|]. by intros r ->.
Qed.

(** Where STEP 20 starts, in a run from STEP 3 on, every relationship is
    one of the five direct types. *)
Definition before_degrees (ok : label → bool) (dk dtk : string → bool)
    (pf : string → option Q)
    (g0 : Graph) (response : string) (data : Data) : option Graph :=
  g ← check_existing g0 response;
  let schema := create_constraints ok in
  g ← create_banks schema (banks data) g;
  g ← create_clients schema dk (clients data) g;
  g ← create_ssns schema (ssns data) g;
  g ← create_phones schema (phones data) g;
  g ← create_emails schema (emails data) g;
  g ← create_merchants schema (merchants data) g;
  g ← create_mules schema dk pf (mules data) g;
  g ← import_transactions schema dtk pf (transactions data) g;
  Some (create_flagged_as
          (create_performed
             (create_has_email
                (create_has_phone
                   (create_has_ssn g (client_has_ssn data))
                   (client_has_phone data))
                (client_has_email data)))).

Lemma full_import_unfold ok dk dtk pf g0 response data :
  full_import ok dk dtk pf g0 response data
  = (λ g, build_identity_links (annotate_degrees g))
      <$> before_degrees ok dk dtk pf g0 response data.
Proof.
  unfold full_import, before_degrees.
  repeat (match goal with
          | |- context [mbind _ ?o] => destruct o; simpl; [|done]
          end).
  done.
Qed.

Lemma before_degrees_direct ok dk dtk pf g0 response data g :
  store_ok g0 →
  before_degrees ok dk dtk pf g0 response data = Some g →
  Forall (λ r, is_direct (rtype r) = true) (rels g).
Proof.
  unfold before_degrees. intros Hok H.
  destruct (check_existing g0 response) as [g1|] eqn:H1; simpl in H; [|done].
  destruct (create_banks _ _ g1) as [g2|] eqn:H2; simpl in H; [|done].
  destruct (create_clients _ _ _ g2) as [g3|] eqn:H3; simpl in H; [|done].
  destruct (create_ssns _ _ g3) as [g4|] eqn:H4; simpl in H; [|done].
  destruct (create_phones _ _ g4) as [g5|] eqn:H5; simpl in H; [|done].
  destruct (create_emails _ _ g5) as [g6|] eqn:H6; simpl in H; [|done].
  destruct (create_merchants _ _ g6) as [g7|] eqn:H7; simpl in H; [|done].
  destruct (create_mules _ _ _ _ g7) as [g8|] eqn:H8; simpl in H; [|done].
  destruct (import_transactions _ _ _ _ g8) as [g9|] eqn:H9; simpl in H;
    [|done].
  inv H.
  assert (Hr : rels g9 = []).
  { rewrite (import_batches_rels _ _ _ _ _ _ H9).
    rewrite (unwind_create_rels _ _ _ _ _ _ H8).
    rewrite (unwind_create_rels _ _ _ _ _ _ H7).
    rewrite (unwind_create_rels _ _ _ _ _ _ H6).
    rewrite (unwind_create_rels _ _ _ _ _ _ H5).
    rewrite (unwind_create_rels _ _ _ _ _ _ H4).
    rewrite (unwind_create_rels _ _ _ _ _ _ H3).
    rewrite (unwind_create_rels _ _ _ _ _ _ H2).
    by eapply check_existing_rels. }
  eapply (grows_by_direct FLAGGED_AS); [done|apply link_by_client_id_grows|].
  eapply (grows_by_direct PERFORMED); [done|apply link_by_client_id_grows|].
  eapply (grows_by_direct HAS_EMAIL); [done|apply create_has_email_grows|].
  eapply (grows_by_direct HAS_PHONE); [done|apply create_has_phone_grows|].
  eapply (grows_by_direct HAS_SSN); [done|apply create_has_ssn_grows|].
  rewrite Hr. constructor.
Qed.

Lemma filter_length_direct (P : Rel → Prop) `{∀ r, Decision (P r)}
    (old new : list Rel) :
  Forall (λ r, is_direct (rtype r) = true) old →
  Forall (λ r, rtype r = SHARED_IDENTIFIERS) new →
  length (filter (λ r, P r ∧ is_direct (rtype r) = true) (old ++ new))
  = length (filter P old).
Proof.
  intros Hold Hnew. rewrite filter_app, length_app.
  replace (filter _ new) with (@nil Rel).
  2:{ symmetry. induction Hnew as [|r new Hr _ IH]; [done|].
      rewrite filter_cons_False; [done|]. rewrite Hr. by intros [_ ?]. }
  simpl. rewrite Nat.add_0_r. f_equal.
  induction Hold as [|r old Hr _ IH]; [done|].
  rewrite !filter_cons. rewrite IH.
  destruct (decide (P r)) as [HP|HP];
    destruct (decide (P r ∧ _)) as [HQ|HQ]; simpl; try done.
  - exfalso. apply HQ. by split.
  - exfalso. apply HP, HQ.
Qed.

(** C10.  Creating the SHARED_IDENTIFIERS relationships leaves every node,
    and so every stored [out_degree] and [in_degree], as it was; hence in
    the graph a run from STEP 3 to STEP 21 leaves, the stored degrees of
    every node count the direct relationships (HAS_SSN, HAS_PHONE,
    HAS_EMAIL, PERFORMED, FLAGGED_AS) that start and end at it, the
    SHARED_IDENTIFIERS relationships left out. *)
Theorem degrees_exclude_shared_identifiers
    (constraint_ok : label → bool) (date_ok datetime_ok : string → bool)
    (parse_float : string → option Q)
    (g0 : Graph) (response : string) (data : Data) (g : Graph)
    (i : nat) (n : Node) :
  store_ok g0 →
  full_import constraint_ok date_ok datetime_ok parse_float g0 response data
  = Some g →
  nodes g !! i = Some n →
  (∀ g1, nodes (build_identity_links g1) = nodes g1)
  ∧ nprops n !! "out_degree"
    = Some (VInt (Z.of_nat (length
        (filter (λ r, rsrc r = i ∧ is_direct (rtype r) = true) (rels g)))))
  ∧ nprops n !! "in_degree"
    = Some (VInt (Z.of_nat (length
        (filter (λ r, rtgt r = i ∧ is_direct (rtype r) = true) (rels g))))).
Proof.
  intros Hok Hrun Hn.
  split; [intros g1; apply build_identity_links_grows|].
  rewrite full_import_unfold in Hrun.
  destruct (before_degrees _ _ _ _ _ _ _) as [g1|] eqn:Hb; [|done].
  simpl in Hrun. inv Hrun.
  pose proof (before_degrees_direct _ _ _ _ _ _ _ _ Hok Hb) as Hdirect.
  destruct (build_identity_links_grows (annotate_degrees g1))
    as [Hnodes (new & Hrels & Hnew)].
  rewrite Hnodes, annotate_degrees_lookup in Hn.
  destruct (nodes g1 !! i) as [n1|] eqn:Hn1; [|done].
  simpl in Hn. inv Hn. rewrite Hrels. cbn [annotate_degrees rels].
  rewrite !filter_length_direct by done.
  apply set_degrees_lookup.
Qed.

(** The run on the scenario: client 1 (node 0) holds one SSN and one phone,
    and its stored [out_degree] stays 2 although three SHARED_IDENTIFIERS
    relationships start at it once STEP 21 is done. *)
Lemma degrees_exclude_shared_identifiers_witness :
  let g := default empty_graph scenario_graph in
  let n := default {| nlabel := Client; nprops := ∅ |} (nodes g !! 0) in
  store_ok empty_graph
  ∧ full_import every_label accept_all accept_all no_number empty_graph ""
      scenario
    = Some g
  ∧ nodes g !! 0 = Some n
  ∧ nprops n !! "out_degree" = Some (VInt 2)
  ∧ out_degree g 0 = 5.
Proof.
  intros g n.
  assert (H1 : store_ok empty_graph) by constructor.
  assert (H2 : full_import every_label accept_all accept_all no_number
                 empty_graph "" scenario = Some g)
    by (vm_compute; reflexivity).
  assert (H3 : nodes g !! 0 = Some n) by (vm_compute; reflexivity).
  split_and!; [exact H1|exact H2|exact H3| |vm_compute; reflexivity].
  destruct (degrees_exclude_shared_identifiers _ _ _ _ _ _ _ _ _ _ H1 H2 H3)
    as (_ & Hout & _).
  rewrite Hout. vm_compute. reflexivity.
Defined.

(** ** Grouping and maxima *)

Lemma elem_of_group_by {A K} `{EqDecision K} (key : A → K) (rows : list A)
    (k : K) (rs : list A) :
  (k, rs) ∈ group_by key rows
  ↔ k ∈ key <$> rows ∧ rs = filter (λ a, key a = k) rows.
Proof.
  unfold group_by. rewrite list_elem_of_fmap. split.
  - intros (k' & Heq & Hk). simplify_eq.
    rewrite elem_of_remove_dups in Hk. by split.
  - intros [Hk ->]. exists k. split; [done|]. by rewrite elem_of_remove_dups.
Qed.

Lemma group_by_fst {A K} `{EqDecision K} (key : A → K) (rows : list A) :
  (group_by key rows).*1 = remove_dups (key <$> rows).
Proof.
  unfold group_by. induction (remove_dups (key <$> rows)) as [|k l IH];
    [done|].
  rewrite !fmap_cons. simpl. by f_equal.
Qed.

Lemma group_by_nonempty {A K} `{EqDecision K} (key : A → K) (rows : list A)
    (k : K) (rs : list A) :
  (k, rs) ∈ group_by key rows → rs ≠ [].
Proof.
  intros [Hk ->]%elem_of_group_by.
  apply list_elem_of_fmap in Hk as (a & -> & Ha).
  intros Hnil. assert (Hin : a ∈ filter (λ a0, key a0 = key a) rows)
    by by apply list_elem_of_filter.
  rewrite Hnil in Hin. by inv Hin.
Qed.

Lemma foldr_max_spec x l :
  (foldr Nat.max x l = x ∨ foldr Nat.max x l ∈ l)
  ∧ x ≤ foldr Nat.max x l
  ∧ Forall (λ y, y ≤ foldr Nat.max x l) l.
Proof.
  induction l as [|y l (IH1 & IH2 & IH3)]; simpl.
  - split_and!; [by left|done|constructor].
  - split_and!.
    + destruct (Nat.max_spec y (foldr Nat.max x l)) as [[_ ->]|[_ ->]].
      * destruct IH1 as [->|?]; [by left|right; by right].
      * right; by left.
    + lia.
    + constructor; [lia|]. eapply Forall_impl; [exact IH3|].
      intros z Hz. simpl in Hz. lia.
Qed.

(** [max_of] returns null exactly on no row, and otherwise a row that no
    other row exceeds. *)
Lemma max_of_Some l m :
  max_of l = Some m ↔ m ∈ l ∧ Forall (λ y, y ≤ m) l.
Proof.
  destruct l as [|x l]; simpl.
  - split; [done|]. intros [H _]. by inv H.
  - destruct (foldr_max_spec x l) as (H1 & H2 & H3). split.
    + intros [= <-]. split; [|by constructor].
      destruct H1 as [->|?]; [by left|by right].
    + intros [Hin Hall]. f_equal. apply Nat.le_antisymm.
      * apply Forall_cons_1 in Hall as [Hx Hl].
        destruct H1 as [->|H1]; [done|].
        by eapply Forall_forall in Hl.
      * apply elem_of_cons in Hin as [->|Hin]; [done|].
        by eapply Forall_forall in H3.
Qed.

Lemma max_of_None l : max_of l = None ↔ l = [].
Proof. by destruct l. Qed.

Lemma max_of_perm l k : l ≡ₚ k → max_of l = max_of k.
Proof.
  intros Hp. destruct (max_of l) as [m|] eqn:Hl; symmetry.
  - apply max_of_Some. apply max_of_Some in Hl as [Hin Hall].
    by rewrite <- Hp.
  - apply max_of_None in Hl. subst. apply Permutation_nil_l in Hp.
    by subst.
Qed.

(** ** The largest fraud ring *)

Lemma picks_length {A} (l : list A) (p : A * list A) :
  p ∈ picks l → S (length p.2) = length l.
Proof.
  revert p. induction l as [|x l IH]; intros p; simpl; [by inversion 1|].
  intros [->|Hp]%elem_of_cons; [done|].
  apply list_elem_of_fmap in Hp as (q & -> & Hq). simpl.
  by rewrite (IH q Hq).
Qed.

Lemma picks_elem {A} (l : list A) (p : A * list A) :
  p ∈ picks l → p.1 ∈ l.
Proof.
  revert p. induction l as [|x l IH]; intros p; simpl; [by inversion 1|].
  intros [->|Hp]%elem_of_cons; [by left|].
  apply list_elem_of_fmap in Hp as (q & -> & Hq). simpl. right.
  by apply IH.
Qed.

(** Fuel beyond the number of relationships at hand changes no result:
    [trail_ends] with [length avail] is the search run to its end. *)
Lemma trail_ends_fuel f1 f2 avail cur :
  length avail ≤ f1 → length avail ≤ f2 →
  trail_ends f1 avail cur = trail_ends f2 avail cur.
Proof.
  revert f2 avail cur.
  induction f1 as [|f1 IH]; intros f2 avail cur H1 H2.
  - destruct avail; [|simpl in H1; lia]. by destruct f2.
  - destruct f2 as [|f2].
    + destruct avail; [done|simpl in H2; lia].
    + simpl. apply Forall_bind_ext, Forall_forall. intros p Hp.
      apply picks_length in Hp. destruct (touches p.1 cur); [|done].
      f_equal. apply IH; lia.
Qed.

Lemma ring_rows_no_shared g : shared_rels g = [] → ring_rows g = [].
Proof.
  intros H. unfold ring_rows. rewrite H. simpl.
  apply bind_nil, Forall_true. done.
Qed.

Lemma fraud_ring_sizes g k :
  k ∈ length <$> fraud_rings g → 2 ≤ k.
Proof.
  unfold fraud_rings. rewrite <- list_fmap_compose.
  intros ([c rs] & -> & Hin)%list_elem_of_fmap. simpl.
  rewrite length_app. simpl.
  apply group_by_nonempty in Hin.
  destruct rs as [|r rs]; [done|].
  assert (Hr : r.2 ∈ remove_dups (r :: rs).*2).
  { apply elem_of_remove_dups. rewrite fmap_cons. by left. }
  destruct (remove_dups (r :: rs).*2); [by inv Hr|]. simpl. lia.
Qed.

(** C1, as the code has it.  On a graph without SHARED_IDENTIFIERS
    relationships the largest-ring query matches no path, so its maximum
    is taken over no row and it returns null; and on no graph does it
    return 1, a size it reports being that of a client and at least one
    client it reaches. *)
Theorem largest_ring_size_no_edges (g : Graph) :
  (shared_rels g = [] → largest_ring_size g = None)
  ∧ (∀ k, largest_ring_size g = Some k → 2 ≤ k).
Proof.
  split.
  - intros H. unfold largest_ring_size, fraud_rings.
    by rewrite (ring_rows_no_shared g H).
  - intros k [Hk _]%max_of_Some. by eapply fraud_ring_sizes.
Qed.

Lemma largest_ring_size_no_edges_witness :
  let g := default empty_graph lone_clients_graph in
  shared_rels g = [] ∧ largest_ring_size g = None.
Proof.
  intros g.
  assert (H : shared_rels g = []) by (vm_compute; reflexivity).
  split; [exact H|]. exact (proj1 (largest_ring_size_no_edges g) H).
Defined.

(** C1, as stated, fails: after the import of two clients that share
    nothing there is no SHARED_IDENTIFIERS relationship, and the query
    returns null, not 1. *)
Lemma largest_ring_size_no_edges_is_null :
  ∃ g, lone_clients_graph = Some g
       ∧ length (nodes_labelled g Client) = 2
       ∧ shared_rels g = []
       ∧ largest_ring_size g = None
       ∧ largest_ring_size g ≠ Some 1.
Proof.
  eexists. split; [vm_compute; reflexivity|].
  split_and!; [vm_compute; reflexivity..|].
  vm_compute. discriminate.
Qed.

(** C2: the code on the scenario of the specification.  The import
    creates the four expected SHARED_IDENTIFIERS relationships (clients 1
    to 4 are the nodes 0 to 3), and the query reports 5 for the ring of
    these four clients: a client on the triangle 1-2-3 is reached from
    itself by a path around the triangle, so it is among the distinct
    [connected] clients already when [+ [c]] appends it once more. *)
Theorem largest_ring_size_scenario :
  ∃ g, scenario_graph = Some g
       ∧ nodes_labelled g Client ≡ₚ [0; 1; 2; 3]
       ∧ (λ r, (rsrc r, rtgt r, rprops r !! "count", rprops r !! "weight"))
           <$> shared_rels g
         = [(0, 1, Some (VInt 1), Some (VFloat 5));
            (0, 2, Some (VInt 1), Some (VFloat 5));
            (1, 2, Some (VInt 1), Some (VFloat 5));
            (0, 3, Some (VInt 1), Some (VFloat (3 # 2)))]
       ∧ fraud_rings g = [[1; 0; 2; 3; 2]; [2; 1; 0; 3];
                          [2; 0; 1; 3; 1]; [2; 1; 0; 3; 0]]
       ∧ largest_ring_size g = Some 5.
Proof.
  eexists. split; [vm_compute; reflexivity|].
  split_and!.
  - vm_compute. apply (bool_decide_unpack _). vm_compute. exact I.
  - vm_compute. reflexivity.
  - vm_compute. reflexivity.
  - vm_compute. reflexivity.
Qed.

(** ** STEP 14: rows that refer to no node *)

(** A row of [client_has_ssn] is dangling when no client node has its
    [client_id] or no SSN node its [ssn_id]. *)
Definition dangling (g : Graph) (rel : row) : bool :=
  match match_nodes g Client "id" (rel !! "client_id"),
        match_nodes g SSN "id" (rel !! "ssn_id") with
  | _ :: _, _ :: _ => false
  | _, _ => true
  end.

Lemma link_row_no_match t g cs ss :
  cs = [] ∨ ss = [] → link_row t g cs ss = g.
Proof.
  unfold link_row. intros [->| ->]; [done|].
  induction cs as [|c cs IH]; [done|]. simpl. exact IH.
Qed.

Lemma create_has_ssn_app g l1 l2 :
  create_has_ssn g (l1 ++ l2) = create_has_ssn (create_has_ssn g l1) l2.
Proof. unfold create_has_ssn. by rewrite foldl_app. Qed.

Lemma create_has_ssn_cons g rel l :
  create_has_ssn g (rel :: l)
  = create_has_ssn
      (link_row HAS_SSN g (match_nodes g Client "id" (rel !! "client_id"))
                          (match_nodes g SSN "id" (rel !! "ssn_id"))) l.
Proof. done. Qed.

Lemma dangling_ext g g' rel :
  nodes g' = nodes g → dangling g' rel = dangling g rel.
Proof.
  intros H. unfold dangling. by rewrite !(match_nodes_ext g g' _ _ _ H).
Qed.

Lemma dangling_no_match g rel :
  dangling g rel = true →
  match_nodes g Client "id" (rel !! "client_id") = []
  ∨ match_nodes g SSN "id" (rel !! "ssn_id") = [].
Proof.
  unfold dangling.
  destruct (match_nodes g Client _ _); [by left|].
  destruct (match_nodes g SSN _ _); [by right|done].
Qed.

(** C9, as the code has it.  A row of [client_has_ssn] that refers to a
    client or to an SSN that is no node is skipped: the import of the
    table goes on and ends in the graph it would have produced without
    that row, the rows before and after it processed as they are.  No
    count of skipped rows is kept: what STEP 14 prints is the number of
    rows of the table, the skipped one included. *)
Theorem create_has_ssn_skips_dangling (g : Graph)
    (before after : list row) (rel : row) :
  dangling g rel = true →
  create_has_ssn g (before ++ rel :: after)
  = create_has_ssn g (before ++ after)
  ∧ report_has_ssn (before ++ rel :: after)
    = "OK! Created " +:+ pretty (length before + 1 + length after)
      +:+ " HAS_SSN relationships".
Proof.
  intros Hd. split.
  - rewrite !create_has_ssn_app, create_has_ssn_cons.
    destruct (create_has_ssn_grows g before) as [Hn _].
    rewrite <- (dangling_ext _ _ rel Hn) in Hd.
    by rewrite link_row_no_match by by apply dangling_no_match.
  - unfold report_has_ssn. rewrite length_app. simpl.
    do 3 f_equal. lia.
Qed.

(** One client, [id] 1, and one SSN, [id] S1. *)
Definition client_and_ssn : Graph :=
  {| nodes := {[ 0 := {| nlabel := Client;
                         nprops := {[ "id" := VInt 1 ]} |};
                 1 := {| nlabel := SSN;
                         nprops := {[ "id" := VStr "S1" ]} |} ]};
     rels := [] |}.

Definition has_ssn_row (c : Z) (s : string) : row :=
  {[ "client_id" := VInt c; "ssn_id" := VStr s ]}.

Lemma create_has_ssn_skips_dangling_witness :
  dangling client_and_ssn (has_ssn_row 9 "S1") = true
  ∧ rels (create_has_ssn client_and_ssn
            [has_ssn_row 9 "S1"; has_ssn_row 1 "S1"])
    = [{| rsrc := 0; rtype := HAS_SSN; rtgt := 1; rprops := ∅ |}]
  ∧ report_has_ssn [has_ssn_row 9 "S1"; has_ssn_row 1 "S1"]
    = "OK! Created 2 HAS_SSN relationships".
Proof.
  assert (H : dangling client_and_ssn (has_ssn_row 9 "S1") = true)
    by (vm_compute; reflexivity).
  destruct (create_has_ssn_skips_dangling client_and_ssn []
              [has_ssn_row 1 "S1"] (has_ssn_row 9 "S1") H) as [H1 H2].
  split_and!; [exact H| |].
  - simpl app in H1. rewrite H1. vm_compute. reflexivity.
  - simpl app in H2. rewrite H2. vm_compute. reflexivity.
Defined.

(** C9, as stated, fails in its last part.  A table of one dangling row
    and a table of one good row make STEP 14 print the same line, which
    says one relationship was created: the dangling row, after which no
    relationship exists, is neither counted nor told apart. *)
Lemma dangling_reference_not_reported :
  length (filter (λ rel, dangling client_and_ssn rel) [has_ssn_row 1 "S1"])
    = 0
  ∧ length (filter (λ rel, dangling client_and_ssn rel)
              [has_ssn_row 9 "S1"]) = 1
  ∧ rels (create_has_ssn client_and_ssn [has_ssn_row 9 "S1"]) = []
  ∧ report_has_ssn [has_ssn_row 9 "S1"]
    = "OK! Created 1 HAS_SSN relationships"
  ∧ report_has_ssn [has_ssn_row 9 "S1"]
    = report_has_ssn [has_ssn_row 1 "S1"]
  ∧ ¬ ∃ warnings : string → nat,
        ∀ rels_list,
          warnings (report_has_ssn rels_list)
          = length (filter (λ rel, dangling client_and_ssn rel) rels_list).
Proof.
  split_and!; try (vm_compute; reflexivity).
  intros [warnings H].
  pose proof (H [has_ssn_row 9 "S1"]) as H9.
  pose proof (H [has_ssn_row 1 "S1"]) as H1.
  vm_compute in H9, H1. congruence.
Qed.

(** ** Grouping rows that come key by key *)

Lemma filter_all {A} (P : A → Prop) `{∀ x, Decision (P x)} (l : list A) :
  Forall P l → filter P l = l.
Proof.
  induction 1 as [|x l Hx _ IH]; [done|].
  by rewrite filter_cons_True, IH.
Qed.

Lemma filter_none {A} (P : A → Prop) `{∀ x, Decision (P x)} (l : list A) :
  Forall (λ x, ¬ P x) l → filter P l = [].
Proof.
  induction 1 as [|x l Hx _ IH]; [done|].
  by rewrite filter_cons_False, IH.
Qed.

Lemma filter_fmap {A B} (f : A → B) (P : B → Prop) `{∀ y, Decision (P y)}
    (l : list A) :
  filter P (f <$> l) = f <$> filter (λ x, P (f x)) l.
Proof.
  induction l as [|x l IH]; [done|].
  rewrite fmap_cons, !filter_cons, IH. by destruct (decide (P (f x))).
Qed.

Section Segments.

Context {A K : Type} `{EqDecision K}.
Variable key : A → K.
Variable seg : K → list A.
Hypothesis seg_key : ∀ k a, a ∈ seg k → key a = k.

Lemma filter_segments_other (L : list K) (k : K) :
  k ∉ L → filter (λ a, key a = k) (L ≫= seg) = [].
Proof.
  induction L as [|x L IH]; [done|].
  intros Hk. apply not_elem_of_cons in Hk as [Hx HL].
  rewrite bind_cons, filter_app, (IH HL), app_nil_r.
  apply filter_none, Forall_forall. intros a Ha.
  rewrite (seg_key x a Ha). congruence.
Qed.

Lemma filter_segments (L : list K) (k : K) :
  NoDup L → k ∈ L → filter (λ a, key a = k) (L ≫= seg) = seg k.
Proof.
  induction 1 as [|x L Hx HL IH]; [by inversion 1|].
  intros Hk. rewrite bind_cons, filter_app.
  destruct (decide (k = x)) as [->|Hne].
  - rewrite (filter_segments_other L x Hx), app_nil_r.
    apply filter_all, Forall_forall. intros a Ha. by apply seg_key.
  - apply elem_of_cons in Hk as [?|Hk]; [done|].
    rewrite (IH Hk). rewrite filter_none; [done|].
    apply Forall_forall. intros a Ha. rewrite (seg_key x a Ha). congruence.
Qed.

Lemma segments_keys (L : list K) (k : K) :
  k ∈ key <$> (L ≫= seg) ↔ k ∈ L ∧ 0 < length (seg k).
Proof.
  rewrite list_elem_of_fmap. split.
  - intros (a & -> & Ha). apply list_elem_of_bind in Ha as (x & Ha & Hx).
    rewrite (seg_key x a Ha). split; [done|].
    destruct (seg x); [by inv Ha|simpl; lia].
  - intros [Hk Hlen]. destruct (seg k) as [|a l] eqn:Hs; [simpl in Hlen; lia|].
    assert (Ha : a ∈ seg k) by (rewrite Hs; by left).
    exists a. split; [by rewrite (seg_key k a Ha)|].
    apply list_elem_of_bind. by exists k.
Qed.

(** The sizes of the groups are the sizes of the segments that are not
    empty. *)
Lemma group_by_segments (L : list K) :
  NoDup L →
  (λ kr : K * list A, length kr.2) <$> group_by key (L ≫= seg)
  ≡ₚ filter (λ n, 0 < n) ((λ k, length (seg k)) <$> L).
Proof.
  intros HL. unfold group_by. rewrite <- list_fmap_compose.
  rewrite filter_fmap.
  rewrite (list_fmap_ext _ (λ k, length (seg k)) (remove_dups _)).
  - apply fmap_Permutation. apply NoDup_Permutation.
    + apply NoDup_remove_dups.
    + by apply NoDup_filter.
    + intros k. rewrite elem_of_remove_dups, list_elem_of_filter.
      rewrite segments_keys. tauto.
  - intros i k Hk. simpl. apply list_elem_of_lookup_2 in Hk.
    rewrite elem_of_remove_dups in Hk. apply segments_keys in Hk as [Hk _].
    by rewrite filter_segments.
Qed.

End Segments.

(** ** STEP 22: shared SSNs *)

(** The number of HAS_SSN relationships that clients have to the node
    [s]. *)
Definition ssn_holders (g : Graph) (s : nat) : nat :=
  length (filter (λ r, rtype r = HAS_SSN ∧ rtgt r = s
                       ∧ has_label g Client (rsrc r))
                 (rels g)).

(** What the specification asks of [sharedIdentifierStats]: over the
    identifier nodes of all three kinds that two or more clients hold, how
    many there are and the largest number of holders. *)
Definition is_identifier_label (l : label) : bool :=
  match l with SSN | Phone | Email => true | _ => false end.

Definition identifier_nodes (g : Graph) : list nat :=
  filter (λ i, from_option is_identifier_label false (label_of g i))
         (map_to_list (nodes g)).*1.

Definition identifier_holders (g : Graph) (n : nat) : nat :=
  length (remove_dups
            (rsrc <$> filter (λ r, is_identifier_rel (rtype r) ∧ rtgt r = n
                                   ∧ has_label g Client (rsrc r))
                             (rels g))).

Definition spec_shared_identifier_stats (g : Graph) : SsnStats :=
  let held := filter (λ n, 1 < n)
                (identifier_holders g <$> identifier_nodes g) in
  {| shared_ssns := length held; max_clients := max_of held |}.

Definition ssn_segment (g : Graph) (s : nat) : list (nat * nat) :=
  r ← rels g;
  if bool_decide (rtype r = HAS_SSN) && bool_decide (rtgt r = s)
     && has_label g Client (rsrc r)
  then [(s, rsrc r)] else [].

Lemma ssn_segment_key g s a : a ∈ ssn_segment g s → a.1 = s.
Proof.
  unfold ssn_segment. intros (r & Ha & _)%list_elem_of_bind.
  destruct (_ && _); [|by inv Ha].
  apply list_elem_of_singleton in Ha. by subst.
Qed.

Lemma ssn_segment_length g s : length (ssn_segment g s) = ssn_holders g s.
Proof.
  unfold ssn_segment, ssn_holders.
  induction (rels g) as [|r l IH]; [done|].
  rewrite bind_cons, length_app, IH, filter_cons.
  destruct (decide _) as [(H1 & H2 & H3)|Hn].
  - rewrite !bool_decide_eq_true_2 by done.
    apply Is_true_true in H3. by rewrite H3.
  - destruct (bool_decide (rtype r = HAS_SSN)) eqn:E1; [|done].
    destruct (bool_decide (rtgt r = s)) eqn:E2; [|done].
    destruct (has_label g Client (rsrc r)) eqn:E3; [|done].
    exfalso. apply Hn. apply bool_decide_eq_true in E1, E2.
    split_and!; [done|done|by apply Is_true_true].
Qed.

Lemma NoDup_nodes_labelled g l : NoDup (nodes_labelled g l).
Proof. apply NoDup_filter, NoDup_fst_map_to_list. Qed.

Lemma shared_ssn_counts_perm g :
  shared_ssn_counts g
  ≡ₚ ssn_holders g <$> filter (λ s, 1 < ssn_holders g s)
                         (nodes_labelled g SSN).
Proof.
  unfold shared_ssn_counts.
  change (ssn_holdings g) with (nodes_labelled g SSN ≫= ssn_segment g).
  rewrite (group_by_segments fst (ssn_segment g) (ssn_segment_key g))
    by apply NoDup_nodes_labelled.
  rewrite list_filter_filter_l by (intros; lia).
  rewrite (list_fmap_ext _ (ssn_holders g)) by
    (intros; apply ssn_segment_length).
  by rewrite filter_fmap.
Qed.

(** C4, as the code has it.  The statistics query looks at SSN nodes and
    HAS_SSN relationships only: it returns how many SSN nodes more than one
    client holds, and the largest number of holders among them, null when
    there is none.  Phones and emails take no part. *)
Theorem shared_ssn_stats_correct (g : Graph) :
  shared_ssns (shared_ssn_stats g)
  = length (filter (λ s, 1 < ssn_holders g s) (nodes_labelled g SSN))
  ∧ max_clients (shared_ssn_stats g)
    = max_of (ssn_holders g <$> filter (λ s, 1 < ssn_holders g s)
                                  (nodes_labelled g SSN)).
Proof.
  unfold shared_ssn_stats; simpl.
  rewrite (max_of_perm _ _ (shared_ssn_counts_perm g)).
  rewrite (Permutation_length (shared_ssn_counts_perm g)).
  by rewrite length_fmap.
Qed.

(** Clients 1 and 2 hold phone P1, and nobody shares an SSN. *)
Definition shared_phone : Data :=
  {| banks := [];
     clients := [{[ "client_id" := VInt 1 ]}; {[ "client_id" := VInt 2 ]}];
     ssns := [{[ "ssn_id" := VStr "S1" ]}];
     phones := [{[ "phone_id" := VStr "P1" ]}];
     emails := []; merchants := []; mules := []; transactions := [];
     client_has_ssn := [has_ssn_row 1 "S1"];
     client_has_phone :=
       [{[ "client_id" := VInt 1; "phone_id" := VStr "P1" ]};
        {[ "client_id" := VInt 2; "phone_id" := VStr "P1" ]}];
     client_has_email := [] |}.

Definition shared_phone_graph : option Graph :=
  full_import every_label accept_all accept_all no_number empty_graph ""
    shared_phone.

(** C4, as stated, fails: a phone that two clients hold is an identifier
    held by two clients, and the query reports no shared identifier at
    all. *)
Lemma shared_ssn_stats_ignore_phones :
  ∃ g, shared_phone_graph = Some g
       ∧ spec_shared_identifier_stats g
         = {| shared_ssns := 1; max_clients := Some 2 |}
       ∧ shared_ssn_stats g = {| shared_ssns := 0; max_clients := None |}
       ∧ shared_ssn_stats g ≠ spec_shared_identifier_stats g.
Proof.
  eexists. split; [vm_compute; reflexivity|].
  split_and!; [vm_compute; reflexivity..|].
  vm_compute. discriminate.
Qed.

(** ** STEP 21: what a run creates *)

Definition link_key (l : Link) : nat * nat := (c1 l, c2 l).

Definition rel_key (r : Rel) : nat * nat := (rsrc r, rtgt r).

(** The relationship a merge creates for a link. *)
Definition link_rel (l : Link) : Rel :=
  {| rsrc := c1 l; rtype := SHARED_IDENTIFIERS; rtgt := c2 l;
     rprops := list_to_map (link_props l) |}.

Lemma identity_links_keys g :
  link_key <$> identity_links g
  = remove_dups (pair_key <$> co_ownerships g).
Proof.
  unfold identity_links. rewrite <- group_by_fst, <- list_fmap_compose.
  apply list_fmap_ext. by intros i [[a b] rs] _.
Qed.

Lemma identity_links_NoDup g : NoDup (link_key <$> identity_links g).
Proof. rewrite identity_links_keys. apply NoDup_remove_dups. Qed.

Lemma NoDup_fmap_elem_inj {A B} (f : A → B) (l : list A) (x y : A) :
  NoDup (f <$> l) → x ∈ l → y ∈ l → f x = f y → x = y.
Proof.
  induction l as [|a l IH]; [by inversion 2|].
  rewrite fmap_cons. intros [Ha Hl]%NoDup_cons Hx Hy Hxy.
  apply elem_of_cons in Hx as [->|Hx]; apply elem_of_cons in Hy as [->|Hy].
  - done.
  - exfalso. apply Ha. rewrite Hxy. by apply list_elem_of_fmap_2.
  - exfalso. apply Ha. rewrite <- Hxy. by apply list_elem_of_fmap_2.
  - by apply IH.
Qed.

Lemma rel_matches_key s t d pat r :
  rel_matches s t d pat r = true → rtype r = t ∧ rel_key r = (s, d).
Proof.
  unfold rel_matches, rel_key.
  rewrite !andb_true_iff, !bool_decide_eq_true.
  intros [[[-> ->] ->] _]. done.
Qed.

Lemma link_present_app g l new :
  Forall (λ r, rel_key r ≠ link_key l) new →
  existsb (rel_matches (c1 l) SHARED_IDENTIFIERS (c2 l) (link_props l))
          (rels g ++ new)
  = link_present g l.
Proof.
  intros Hnew. rewrite existsb_app. unfold link_present.
  replace (existsb _ new) with false; [by rewrite orb_false_r|].
  symmetry. apply not_true_is_false. intros H.
  apply existsb_exists in H as (r & Hr & Hm).
  apply rel_matches_key in Hm as [_ Hk].
  rewrite Forall_forall in Hnew. apply (Hnew r); [|done].
  by apply list_elem_of_In.
Qed.

Lemma filter_ext_elem {A} (P Q : A → Prop) `{∀ x, Decision (P x)}
    `{∀ x, Decision (Q x)} (l : list A) :
  (∀ x, x ∈ l → P x ↔ Q x) → filter P l = filter Q l.
Proof.
  induction l as [|a l IH]; intros H1; [done|].
  rewrite !filter_cons.
  rewrite IH by (intros x Hx; apply H1; by right).
  destruct (decide (P a)) as [HP|HP]; destruct (decide (Q a)) as [HQ|HQ];
    try done.
  - exfalso. apply HQ, H1; [by left|done].
  - exfalso. apply HP, H1; [by left|done].
Qed.

(** A run appends, in the order of the grouping, the relationships of the
    links that found no match, and nothing else. *)
Lemma foldl_merge_link_rels ls g :
  NoDup (link_key <$> ls) →
  nodes (foldl merge_link g ls) = nodes g
  ∧ rels (foldl merge_link g ls)
    = rels g ++ (link_rel <$> filter (λ l, link_present g l = false) ls).
Proof.
  revert g. induction ls as [|a ls IH]; intros g Hnd.
  - simpl. by rewrite app_nil_r.
  - rewrite fmap_cons in Hnd. apply NoDup_cons in Hnd as [Ha Hls].
    simpl foldl. destruct (IH (merge_link g a) Hls) as [IHn IHr].
    rewrite IHn, IHr. clear IHn IHr IH.
    assert (Hsame : ∀ l, l ∈ ls →
              link_present (merge_link g a) l = link_present g l).
    { intros l Hl. rewrite merge_link_unfold.
      destruct (link_present g a); [done|].
      unfold link_present at 1. cbn [rels].
      apply link_present_app. constructor; [|constructor].
      intros Hk. apply Ha. unfold rel_key, link_rel in Hk. simpl in Hk.
      change (link_key a = link_key l) in Hk. rewrite Hk.
      by apply list_elem_of_fmap_2. }
    rewrite (filter_ext_elem (λ l, link_present (merge_link g a) l = false)
               (λ l, link_present g l = false) ls)
      by (intros l Hl; by rewrite Hsame).
    rewrite merge_link_unfold, filter_cons.
    destruct (link_present g a) eqn:Hp.
    + by rewrite decide_False by done.
    + rewrite decide_True by done. cbn [nodes rels].
      split; [done|]. by rewrite fmap_cons, <- app_assoc.
Qed.

Lemma build_identity_links_rels g :
  nodes (build_identity_links g) = nodes g
  ∧ rels (build_identity_links g)
    = rels g ++ (link_rel <$> filter (λ l, link_present g l = false)
                                (identity_links g)).
Proof. apply foldl_merge_link_rels, identity_links_NoDup. Qed.

Lemma filter_key_NoDup {A B} `{EqDecision B} (f : A → B) (l : list A)
    (x : A) :
  NoDup (f <$> l) → x ∈ l → filter (λ y, f y = f x) l = [x].
Proof.
  induction l as [|a l IH]; [by inversion 2|].
  rewrite fmap_cons. intros [Ha Hl]%NoDup_cons Hx.
  rewrite filter_cons.
  apply elem_of_cons in Hx as [->|Hx].
  - rewrite decide_True by done. f_equal.
    apply filter_none, Forall_forall. intros y Hy Heq.
    apply Ha. rewrite <- Heq. by apply list_elem_of_fmap_2.
  - rewrite decide_False; [by apply IH|].
    intros Heq. apply Ha. rewrite Heq. by apply list_elem_of_fmap_2.
Qed.

Lemma link_present_shared g l :
  link_present g l = true → shared_rels g ≠ [].
Proof.
  unfold link_present. intros (r & Hr & Hm)%existsb_exists.
  apply rel_matches_key in Hm as [Ht _].
  apply list_elem_of_In in Hr.
  intros Hnil.
  assert (Hin : r ∈ shared_rels g) by by apply list_elem_of_filter.
  rewrite Hnil in Hin. by inv Hin.
Qed.

Lemma elem_of_co_ownerships g p :
  p ∈ co_ownerships g
  ↔ p.1 ∈ rels g ∧ p.2 ∈ rels g
    ∧ is_identifier_rel (rtype p.1) = true
    ∧ is_identifier_rel (rtype p.2) = true
    ∧ rtgt p.1 = rtgt p.2
    ∧ has_label g Client (rsrc p.1) = true
    ∧ has_label g Client (rsrc p.2) = true
    ∧ rsrc p.1 < rsrc p.2.
Proof.
  unfold co_ownerships. rewrite list_elem_of_bind. split.
  - intros (r & Hp & Hr). apply list_elem_of_bind in Hp as (r2 & Hp & Hr2).
    destruct (_ && _) eqn:Hc; [|by inv Hp].
    apply list_elem_of_singleton in Hp. subst p. simpl.
    rewrite !andb_true_iff, !bool_decide_eq_true in Hc.
    destruct Hc as [[[[[? ?] ?] ?] ?] ?]. by split_and!.
  - destruct p as [r r2]. simpl.
    intros (Hr & Hr2 & H1 & H2 & H3 & H4 & H5 & H6).
    exists r. split; [|done]. apply list_elem_of_bind. exists r2.
    split; [|done]. rewrite H1, H2, H4, H5. simpl.
    rewrite !bool_decide_eq_true_2 by done. simpl. by left.
Qed.

Lemma elem_of_identity_links g l :
  l ∈ identity_links g
  ↔ ∃ p, p ∈ co_ownerships g
         ∧ l = link_of_group
                 (pair_key p,
                  filter (λ q, pair_key q = pair_key p) (co_ownerships g)).
Proof.
  unfold identity_links. rewrite list_elem_of_fmap. split.
  - intros ([k rs] & -> & [Hk ->]%elem_of_group_by).
    apply list_elem_of_fmap in Hk as (p & -> & Hp). by exists p.
  - intros (p & Hp & ->). eexists. split; [done|].
    apply elem_of_group_by. split; [|done]. by apply list_elem_of_fmap_2.
Qed.

Lemma type_weight_identifier t :
  is_identifier_rel t = true → (1 <= type_weight t)%Q.
Proof. destruct t; simpl; try done; intros _; by apply Qle_bool_iff. Qed.

Lemma Qsum_lower (ws : list Q) :
  Forall (λ w, (1 <= w)%Q) ws → (inject_Z (Z.of_nat (length ws)) <= Qsum ws)%Q.
Proof.
  induction 1 as [|w ws Hw _ IH]; simpl length; simpl Qsum.
  - apply Qle_refl.
  - rewrite Nat2Z.inj_succ, <- Z.add_1_l, inject_Z_plus.
    by apply Qplus_le_compat.
Qed.

(** A row of the WITH of STEP 21 pairs two distinct clients, the one with
    the lower internal identifier first, counts at least one matched
    pattern and weighs at least 1.0. *)
Lemma identity_link_sound g l :
  l ∈ identity_links g →
  c1 l < c2 l
  ∧ has_label g Client (c1 l) = true ∧ has_label g Client (c2 l) = true
  ∧ (1 ≤ cnt l)%Z ∧ (1 <= weight l)%Q.
Proof.
  intros (p & Hp & ->)%elem_of_identity_links.
  pose proof Hp as (_ & _ & Hid & _ & _ & Hl1 & Hl2 & Hlt)%elem_of_co_ownerships.
  unfold link_of_group; simpl.
  set (rs := filter (λ q, pair_key q = pair_key p) (co_ownerships g)).
  assert (Hin : p ∈ rs) by by apply list_elem_of_filter.
  assert (Hlen : 1 ≤ length rs).
  { destruct rs; [by inv Hin|simpl; lia]. }
  split_and!; try done; [lia|].
  eapply Qle_trans; [|apply Qsum_lower].
  - rewrite length_fmap. change 1%Q with (inject_Z 1).
    rewrite <- Zle_Qle. lia.
  - apply Forall_fmap, Forall_forall. intros q Hq. simpl.
    apply list_elem_of_filter in Hq as [_ Hq].
    apply elem_of_co_ownerships in Hq. apply type_weight_identifier.
    tauto.
Qed.

(** What the store holds for a well-formed SHARED_IDENTIFIERS
    relationship. *)
Definition sound_edge (g : Graph) (r : Rel) : Prop :=
  rtype r = SHARED_IDENTIFIERS
  ∧ rsrc r < rtgt r
  ∧ has_label g Client (rsrc r) = true ∧ has_label g Client (rtgt r) = true
  ∧ ∃ c w, rprops r !! "count" = Some (VInt c) ∧ (1 ≤ c)%Z
           ∧ rprops r !! "weight" = Some (VFloat w) ∧ (0 < w)%Q.

Lemma link_rel_sound g l : l ∈ identity_links g → sound_edge g (link_rel l).
Proof.
  intros (H1 & H2 & H3 & H4 & H5)%identity_link_sound.
  unfold sound_edge, link_rel; simpl. split_and!; try done.
  exists (cnt l), (weight l).
  rewrite lookup_insert_eq, lookup_insert_ne, lookup_insert_eq by done.
  split_and!; try done. eapply Qlt_le_trans; [|exact H5]. done.
Qed.

(** The relationships a run of STEP 21 adds to [g]. *)
Definition created (g : Graph) : list Rel :=
  drop (length (rels g)) (rels (build_identity_links g)).

Lemma created_links g :
  created g
  = link_rel <$> filter (λ l, link_present g l = false) (identity_links g).
Proof.
  unfold created. destruct (build_identity_links_rels g) as [_ ->].
  by rewrite drop_app_length.
Qed.

Lemma build_identity_links_fresh g :
  shared_rels g = [] →
  shared_rels (build_identity_links g) = link_rel <$> identity_links g.
Proof.
  intros Hnone. unfold shared_rels at 1.
  destruct (build_identity_links_rels g) as [_ ->].
  rewrite filter_app. fold (shared_rels g). rewrite Hnone. simpl.
  rewrite (filter_all (λ l, link_present g l = false)).
  2:{ apply Forall_forall. intros l _. apply not_true_is_false.
      intros Hp. by apply link_present_shared in Hp. }
  apply filter_all, Forall_fmap, Forall_true. done.
Qed.

Lemma filter_key_length {A B} `{EqDecision B} (f : A → B) (l : list A)
    (k : B) :
  NoDup (f <$> l) → length (filter (λ y, f y = k) l) ≤ 1.
Proof.
  intros Hnd. destruct (filter (λ y, f y = k) l) as [|x rest] eqn:Hf;
    [simpl; lia|].
  assert (Hx : x ∈ filter (λ y, f y = k) l) by (rewrite Hf; by left).
  apply list_elem_of_filter in Hx as [Hk Hx]. subst k.
  rewrite (filter_key_NoDup f l x Hnd Hx) in Hf. by inv Hf.
Qed.

(** ** Two clients that share identifiers *)

(** Clients 1 and 2 hold SSN S1 and phone P1. *)
Definition shared_ssn_and_phone : Data :=
  {| banks := [];
     clients := [{[ "client_id" := VInt 1 ]}; {[ "client_id" := VInt 2 ]}];
     ssns := [{[ "ssn_id" := VStr "S1" ]}];
     phones := [{[ "phone_id" := VStr "P1" ]}];
     emails := []; merchants := []; mules := []; transactions := [];
     client_has_ssn := [has_ssn_row 1 "S1"; has_ssn_row 2 "S1"];
     client_has_phone :=
       [{[ "client_id" := VInt 1; "phone_id" := VStr "P1" ]};
        {[ "client_id" := VInt 2; "phone_id" := VStr "P1" ]}];
     client_has_email := [] |}.

(** The graph of a run from an empty database as STEP 21 finds it. *)
Definition base_graph (data : Data) : Graph :=
  default empty_graph
    (annotate_degrees
       <$> before_degrees every_label accept_all accept_all no_number
             empty_graph "" data).

Definition edge_summary (r : Rel)
    : nat * nat * option value * option value :=
  (rsrc r, rtgt r, rprops r !! "count", rprops r !! "weight").

(** Clients 1 and 2 hold the emails E1 and E2. *)
Definition shared_emails : Data :=
  let has (c : Z) (e : string) : row :=
    {[ "client_id" := VInt c; "email_id" := VStr e ]} in
  {| banks := [];
     clients := [{[ "client_id" := VInt 1 ]}; {[ "client_id" := VInt 2 ]}];
     ssns := []; phones := [];
     emails := [{[ "email_id" := VStr "E1" ]}; {[ "email_id" := VStr "E2" ]}];
     merchants := []; mules := []; transactions := [];
     client_has_ssn := []; client_has_phone := [];
     client_has_email :=
       [has 1%Z "E1"; has 2%Z "E1"; has 1%Z "E2"; has 2%Z "E2"] |}.

(** ** STEP 21: what count and weight stand for *)

Definition identifier_rels (g : Graph) : list Rel :=
  filter (λ r, is_identifier_rel (rtype r)) (rels g).

(** No client holds one identifier node by two relationships.  STEPS 14 to
    16 leave the graph so: each of them merges on the two nodes and the
    type, and the three types end in nodes of three different labels. *)
Definition simple_holdings (g : Graph) : Prop :=
  NoDup (rel_key <$> identifier_rels g).

(** The identifier relationships from the node [c] to the node [n]. *)
Definition holdings (g : Graph) (c n : nat) : list Rel :=
  filter (λ r, rel_key r = (c, n)) (identifier_rels g).

(** The identifier nodes that [a] and [b] both hold: the physical
    co-ownerships of the pair. *)
Definition held_by_both (g : Graph) (a b : nat) : list nat :=
  filter (λ n, 0 < length (holdings g a n) ∧ 0 < length (holdings g b n))
         (remove_dups (rtgt <$> rels g)).

(** The weight the table gives the holding of [n] by [c]. *)
Definition contribution (g : Graph) (c n : nat) : Q :=
  match holdings g c n with
  | r :: _ => type_weight (rtype r)
  | [] => 0
  end.

Lemma bind_filter {A B} (P : A → Prop) `{∀ x, Decision (P x)}
    (f : A → list B) (l : list A) :
  filter P l ≫= f = l ≫= (λ x, if decide (P x) then f x else []).
Proof.
  induction l as [|x l IH]; [done|].
  rewrite filter_cons, (bind_cons _ x l).
  destruct (decide (P x)); [by rewrite bind_cons, IH|by rewrite IH].
Qed.

Lemma co_ownerships_identifier_rels g :
  co_ownerships g
  = r ← identifier_rels g;
    r2 ← identifier_rels g;
    if bool_decide (rtgt r = rtgt r2)
       && has_label g Client (rsrc r) && has_label g Client (rsrc r2)
       && bool_decide (rsrc r < rsrc r2)
    then [(r, r2)] else [].
Proof.
  unfold co_ownerships, identifier_rels. rewrite bind_filter.
  apply list_bind_ext; [|done]. intros r.
  destruct (decide (is_identifier_rel (rtype r))) as [Hr|Hr].
  - rewrite bind_filter. apply list_bind_ext; [|done]. intros r2.
    apply Is_true_true in Hr. rewrite Hr. simpl.
    destruct (decide (is_identifier_rel (rtype r2))) as [Hr2|Hr2].
    + apply Is_true_true in Hr2. by rewrite Hr2.
    + apply Is_true_false in Hr2. by rewrite Hr2.
  - apply Is_true_false in Hr. rewrite Hr. simpl.
    apply bind_nil, Forall_true. done.
Qed.

Ltac row_of H :=
  revert H;
  match goal with
  | |- context [if ?c then _ else _] => destruct c
  end;
  intros H; [apply list_elem_of_singleton in H|by inv H].

Lemma co_ownerships_NoDup g : simple_holdings g → NoDup (co_ownerships g).
Proof.
  intros Hs.
  assert (Hnd : NoDup (identifier_rels g)) by (eapply NoDup_fmap_1; exact Hs).
  rewrite co_ownerships_identifier_rels.
  apply NoDup_bind; [| |done].
  - intros r r' p _ _ Hp Hp'.
    apply list_elem_of_bind in Hp as (r2 & Hp & _).
    apply list_elem_of_bind in Hp' as (r2' & Hp' & _).
    row_of Hp. row_of Hp'. congruence.
  - intros r _. apply NoDup_bind; [| |done].
    + intros r2 r2' p _ _ Hp Hp'. row_of Hp. row_of Hp'. congruence.
    + intros r2 _. destruct (_ && _); [apply NoDup_singleton|apply NoDup_nil_2].
Qed.

Lemma elem_of_identifier_rels g r :
  r ∈ identifier_rels g ↔ r ∈ rels g ∧ is_identifier_rel (rtype r) = true.
Proof.
  unfold identifier_rels. rewrite list_elem_of_filter, Is_true_true. tauto.
Qed.

Lemma elem_of_holdings g c n r :
  r ∈ holdings g c n
  ↔ r ∈ rels g ∧ is_identifier_rel (rtype r) = true
    ∧ rsrc r = c ∧ rtgt r = n.
Proof.
  unfold holdings, rel_key.
  rewrite list_elem_of_filter, elem_of_identifier_rels.
  split.
  - intros [[= <- <-] [? ?]]. done.
  - intros (? & ? & <- & <-). done.
Qed.

Lemma holdings_nonempty g c n :
  0 < length (holdings g c n) ↔ ∃ r, r ∈ holdings g c n.
Proof.
  split.
  - destruct (holdings g c n) as [|r l]; [simpl; lia|].
    intros _. exists r. by left.
  - intros [r Hr]. destruct (holdings g c n); [by inv Hr|simpl; lia].
Qed.

Lemma holdings_single g c n r :
  simple_holdings g → r ∈ holdings g c n → holdings g c n = [r].
Proof.
  intros Hs Hr. pose proof Hr as [Hk Hi]%list_elem_of_filter.
  unfold holdings. rewrite <- Hk. by apply filter_key_NoDup.
Qed.

Lemma contribution_single g c n r :
  simple_holdings g → r ∈ holdings g c n →
  contribution g c n = type_weight (rtype r).
Proof.
  intros Hs Hr. unfold contribution. by rewrite (holdings_single g c n r).
Qed.

Lemma Qsum_perm (l k : list Q) : l ≡ₚ k → (Qsum l == Qsum k)%Q.
Proof.
  induction 1 as [|x l k _ IH|x y l|l k m _ IH1 _ IH2]; simpl.
  - reflexivity.
  - by rewrite IH.
  - ring.
  - by rewrite IH1.
Qed.

(** Under [simple_holdings] the rows STEP 21 matches for a pair are, one
    for one, the identifier nodes both clients hold. *)
Lemma pair_rows_targets g a b :
  simple_holdings g →
  has_label g Client a = true → has_label g Client b = true → a < b →
  (λ q : Rel * Rel, rtgt q.1)
    <$> filter (λ q, pair_key q = (a, b)) (co_ownerships g)
  ≡ₚ held_by_both g a b.
Proof.
  intros Hs Ha Hb Hab. apply NoDup_Permutation.
  - apply NoDup_fmap_2_strong; [|by apply NoDup_filter, co_ownerships_NoDup].
    intros [p1 p2] [q1 q2] [Hkp Hp]%list_elem_of_filter
           [Hkq Hq]%list_elem_of_filter Heq.
    apply elem_of_co_ownerships in Hp as (Hp1 & Hp2 & Hp3 & Hp4 & Hp5 & _).
    apply elem_of_co_ownerships in Hq as (Hq1 & Hq2 & Hq3 & Hq4 & Hq5 & _).
    unfold pair_key in Hkp, Hkq. simpl in *.
    injection Hkp as Hp1a Hp2b. injection Hkq as Hq1a Hq2b.
    f_equal.
    + apply (NoDup_fmap_elem_inj rel_key (identifier_rels g)); [done| | |].
      * by apply elem_of_identifier_rels.
      * by apply elem_of_identifier_rels.
      * unfold rel_key. congruence.
    + apply (NoDup_fmap_elem_inj rel_key (identifier_rels g)); [done| | |].
      * by apply elem_of_identifier_rels.
      * by apply elem_of_identifier_rels.
      * unfold rel_key. congruence.
  - apply NoDup_filter, NoDup_remove_dups.
  - intros n. unfold held_by_both.
    rewrite list_elem_of_fmap, list_elem_of_filter, elem_of_remove_dups.
    rewrite !holdings_nonempty. split.
    + intros ([q1 q2] & -> & [Hk Hq]%list_elem_of_filter).
      apply elem_of_co_ownerships in Hq as (H1 & H2 & H3 & H4 & H5 & _).
      unfold pair_key in Hk. simpl in *. injection Hk as Hk1 Hk2.
      split_and!.
      * exists q1. by apply elem_of_holdings.
      * exists q2. by apply elem_of_holdings.
      * by apply list_elem_of_fmap_2.
    + intros [[[r Hr] [r2 Hr2]] _].
      apply elem_of_holdings in Hr as (Hr1 & Hr3 & <- & <-).
      apply elem_of_holdings in Hr2 as (Hr21 & Hr23 & <- & Ht).
      exists (r, r2). split; [done|].
      apply list_elem_of_filter. split; [done|].
      apply elem_of_co_ownerships. simpl. by split_and!.
Qed.

(** In a graph where no client holds one identifier node by two
    relationships, every two clients that hold a common identifier node get
    from STEP 21 exactly one row, and so a relationship, whose count is the
    number of identifier nodes both hold (two shared SSNs count twice) and
    whose weight is the sum, over these nodes, of the table's weight for
    the type of the holding: 1.0 for HAS_EMAIL, 1.5 for HAS_PHONE, 5.0 for
    HAS_SSN. *)
Theorem shared_edge_count_weight (g : Graph) (a b : nat) :
  simple_holdings g →
  has_label g Client a = true → has_label g Client b = true → a < b →
  0 < length (held_by_both g a b) →
  ∃ l, l ∈ identity_links g
       ∧ (∀ l', l' ∈ identity_links g → link_key l' = (a, b) → l' = l)
       ∧ c1 l = a ∧ c2 l = b
       ∧ cnt l = Z.of_nat (length (held_by_both g a b))
       ∧ (weight l == Qsum (contribution g a <$> held_by_both g a b))%Q
       ∧ link_present (build_identity_links g) l = true
       ∧ type_weight HAS_EMAIL = 1%Q ∧ type_weight HAS_PHONE = (3 # 2)%Q
       ∧ type_weight HAS_SSN = 5%Q.
Proof.
  intros Hs Ha Hb Hab Hsome.
  pose proof (pair_rows_targets g a b Hs Ha Hb Hab) as Hperm.
  set (rs := filter (λ q, pair_key q = (a, b)) (co_ownerships g)) in *.
  assert (Hp : ∃ p, p ∈ rs).
  { destruct rs as [|p rs'] eqn:E.
    - apply Permutation_length in Hperm. simpl in Hperm. lia.
    - exists p. by left. }
  destruct Hp as [p Hp]. pose proof Hp as [Hk Hpc]%list_elem_of_filter.
  set (l := link_of_group ((a, b), rs)).
  assert (Hl : l ∈ identity_links g).
  { apply elem_of_identity_links. exists p. split; [done|].
    unfold l, rs. by rewrite Hk. }
  exists l. split_and!; try done.
  - intros l' Hl' Hk'.
    apply (NoDup_fmap_elem_inj link_key (identity_links g));
      [apply identity_links_NoDup|done|done|].
    by rewrite Hk'.
  - unfold l, link_of_group. cbn [cnt snd].
    f_equal. rewrite <- (Permutation_length Hperm). by rewrite length_fmap.
  - unfold l, link_of_group. cbn [weight snd].
    rewrite <- (Qsum_perm _ _ (fmap_Permutation (contribution g a) _ _ Hperm)).
    rewrite <- list_fmap_compose.
    rewrite (list_fmap_ext (λ q : Rel * Rel, type_weight (rtype q.1))
               (contribution g a ∘ (λ q : Rel * Rel, rtgt q.1)) rs);
      [reflexivity|].
    intros i q Hq%list_elem_of_lookup_2. simpl.
    apply list_elem_of_filter in Hq as [Hkq Hq].
    apply elem_of_co_ownerships in Hq as (H1 & _ & H3 & _).
    unfold pair_key in Hkq. injection Hkq as Hq1 _.
    symmetry. apply contribution_single; [done|].
    by apply elem_of_holdings.
  - by apply foldl_merge_link_present.
Qed.

(** Two clients that share exactly one SSN and one phone: count 2 and
    weight 5.0 + 1.5 = 6.5. *)
Lemma shared_edge_count_weight_witness :
  let g := base_graph shared_ssn_and_phone in
  simple_holdings g
  ∧ has_label g Client 0 = true ∧ has_label g Client 1 = true ∧ 0 < 1
  ∧ held_by_both g 0 1 = [2; 3]
  ∧ ∃ l, l ∈ identity_links g ∧ c1 l = 0 ∧ c2 l = 1
         ∧ cnt l = 2%Z ∧ (weight l == 13 # 2)%Q
         ∧ edge_summary <$> shared_rels (build_identity_links g)
           = [(0, 1, Some (VInt 2), Some (VFloat (13 # 2)))].
Proof.
  intros g.
  assert (Hs : simple_holdings g).
  { unfold simple_holdings. apply (bool_decide_unpack _).
    vm_compute. exact I. }
  assert (Ha : has_label g Client 0 = true) by (vm_compute; reflexivity).
  assert (Hb : has_label g Client 1 = true) by (vm_compute; reflexivity).
  assert (Hab : 0 < 1) by (apply Nat.lt_0_1).
  assert (Hheld : held_by_both g 0 1 = [2; 3]) by (vm_compute; reflexivity).
  assert (Hsome : 0 < length (held_by_both g 0 1)).
  { rewrite Hheld. apply Nat.lt_0_succ. }
  destruct (shared_edge_count_weight g 0 1 Hs Ha Hb Hab Hsome)
    as (l & Hl & _ & H1 & H2 & Hc & Hw & _).
  split; [exact Hs|]. split; [exact Ha|]. split; [exact Hb|].
  split; [exact Hab|]. split; [exact Hheld|].
  exists l. split; [exact Hl|]. split; [exact H1|]. split; [exact H2|].
  split; [|split].
  - rewrite Hc, Hheld. reflexivity.
  - eapply Qeq_trans; [exact Hw|]. rewrite Hheld. vm_compute. reflexivity.
  - vm_compute. reflexivity.
Defined.

(** * Further properties of the import *)

From stdpp Require Import sorting.

(** ** STEP 13: the batches of transactions *)

(** [range(0, n, step)], at most [fuel] values from [i] on. *)
Fixpoint py_range (fuel i n step : nat) : list nat :=
  match fuel with
  | 0 => []
  | S f => if i <? n then i :: py_range f (i + step) n step else []
  end.

(** The loop of STEP 13 as it is written: for every [i] of
    [range(0, len(transactions_list), batch_size)] the slice
    [transactions_list[i:i+batch_size]]. *)
Definition batch_slices (l : list row) : list (list row) :=
  (λ i, take batch_size (drop i l))
    <$> py_range (length l) 0 (length l) batch_size.

(** [num_batches = (len(transactions_list) + batch_size - 1) // batch_size]. *)
Definition num_batches (l : list row) : nat :=
  (length l + batch_size - 1) / batch_size.

(** [completed = min(i + batch_size, len(transactions_list))] and
    [batch_num = (i // batch_size) + 1], as printed after each batch. *)
Definition progress (l : list row) : list (nat * nat) :=
  (λ i, (Nat.min (i + batch_size) (length l), i / batch_size + 1))
    <$> py_range (length l) 0 (length l) batch_size.

Lemma batch_size_eq : batch_size = 500.
Proof. reflexivity. Qed.

Lemma batches_nil fuel : batches fuel [] = [].
Proof. by destruct fuel. Qed.

Lemma py_range_S fuel i n step :
  py_range (S fuel) i n step
  = if i <? n then i :: py_range fuel (i + step) n step else [].
Proof. reflexivity. Qed.

Lemma batches_slices_from fuel (l : list row) i :
  length l - i ≤ fuel → i ≤ length l →
  (λ j, take batch_size (drop j l)) <$> py_range fuel i (length l) batch_size
  = batches fuel (drop i l).
Proof.
  revert i.
  induction fuel as [|fuel IH]; intros i Hfuel Hi; [done|].
  rewrite py_range_S. destruct (i <? length l) eqn:Hlt.
  - apply Nat.ltb_lt in Hlt.
    destruct (drop i l) as [|x rest] eqn:Hd.
    { apply (f_equal length) in Hd. rewrite length_drop in Hd.
      simpl in Hd. lia. }
    rewrite fmap_cons, Hd.
    change (batches (S fuel) (x :: rest))
      with (take batch_size (x :: rest)
              :: batches fuel (drop batch_size (x :: rest))).
    f_equal. rewrite <- Hd, drop_drop.
    pose proof batch_size_eq as Hb.
    destruct (decide (i + batch_size ≤ length l)) as [Hle|Hgt].
    + rewrite <- IH by lia. done.
    + rewrite (drop_ge l (i + batch_size)) by lia. rewrite batches_nil.
      destruct fuel; [done|]. rewrite py_range_S.
      by rewrite (proj2 (Nat.ltb_ge _ _)) by lia.
  - apply Nat.ltb_ge in Hlt. rewrite drop_ge by lia. by rewrite batches_nil.
Qed.

Lemma batches_props fuel (l : list row) :
  length l ≤ fuel →
  concat (batches fuel l) = l
  ∧ Forall (λ b, 0 < length b ≤ batch_size) (batches fuel l)
  ∧ length (batches fuel l) = (length l + batch_size - 1) / batch_size.
Proof.
  pose proof batch_size_eq as Hb.
  revert l. induction fuel as [|fuel IH]; intros l Hl.
  - destruct l; [|simpl in Hl; lia]. rewrite Hb. by split_and!.
  - destruct l as [|x l]; [rewrite Hb; by split_and!|].
    change (batches (S fuel) (x :: l))
      with (take batch_size (x :: l)
              :: batches fuel (drop batch_size (x :: l))).
    destruct (IH (drop batch_size (x :: l))) as (IH1 & IH2 & IH3).
    { rewrite length_drop. simpl in *. lia. }
    split_and!.
    + rewrite concat_cons, IH1. apply take_drop.
    + constructor; [|done]. rewrite length_take. simpl length. lia.
    + change (length (take batch_size (x :: l)
                        :: batches fuel (drop batch_size (x :: l))))
        with (S (length (batches fuel (drop batch_size (x :: l))))).
      rewrite IH3, length_drop.
      change (length (x :: l)) with (S (length l)).
      rewrite Hb.
      destruct (decide (500 ≤ S (length l))) as [Hge|Hlt].
      * replace (S (length l) + 500 - 1) with (S (length l) - 500 + 500 - 1 + 1 * 500) by lia.
        rewrite Nat.div_add by lia. lia.
      * replace (S (length l) - 500) with 0 by lia.
        rewrite (Nat.div_small (0 + 500 - 1)) by lia.
        apply (Nat.div_unique _ _ _ (length l)); lia.
Qed.

Lemma py_range_last fuel i n step j :
  0 < step → n - i ≤ fuel →
  last (py_range fuel i n step) = Some j →
  j < n ∧ n ≤ j + step ∧ ∃ k, j = i + k * step.
Proof.
  intros Hstep. revert i.
  induction fuel as [|fuel IH]; intros i Hfuel; [done|].
  rewrite py_range_S. destruct (i <? n) eqn:Hlt; [|done].
  apply Nat.ltb_lt in Hlt.
  destruct (py_range fuel (i + step) n step) as [|i' rest] eqn:Hrest.
  - intros [= <-]. split_and!; [done| |by exists 0].
    destruct fuel as [|fuel]; [lia|].
    rewrite py_range_S in Hrest.
    destruct (i + step <? n) eqn:Hlt2; [done|].
    apply Nat.ltb_ge in Hlt2. lia.
  - rewrite last_cons_cons, <- Hrest. intros Hlast.
    destruct (IH (i + step)) as (H1 & H2 & k & Hk); [lia|done|].
    split_and!; [done|done|]. exists (S k). lia.
Qed.

Lemma py_range_nonempty fuel n step :
  0 < n → 0 < fuel → py_range fuel 0 n step ≠ [].
Proof.
  intros Hn Hf. destruct fuel; [lia|]. rewrite py_range_S.
  by rewrite (proj2 (Nat.ltb_lt 0 n)).
Qed.

(** The loop of STEP 13 cuts the table into its batches: the slices are
    the consecutive chunks of the table, each of 1 to 500 rows, they put
    back together give the table (no row left out, none sent twice), there
    are [num_batches] of them, and the last progress line reports all rows
    and the last batch. *)
Theorem batch_slices_partition (l : list row) :
  batch_slices l = batches (length l) l
  ∧ concat (batch_slices l) = l
  ∧ Forall (λ b, 0 < length b ≤ batch_size) (batch_slices l)
  ∧ length (batch_slices l) = num_batches l
  ∧ last (progress l)
    = match l with
      | [] => None
      | _ :: _ => Some (length l, num_batches l)
      end.
Proof.
  assert (Hs : batch_slices l = batches (length l) l).
  { unfold batch_slices.
    rewrite (batches_slices_from (length l) l 0) by lia. done. }
  destruct (batches_props (length l) l) as (H1 & H2 & H3); [done|].
  rewrite Hs. split_and!; try done.
  unfold progress. rewrite fmap_last.
  destruct l as [|x l]; [done|].
  pose proof batch_size_eq as Hb.
  destruct (last (py_range _ _ _ _)) as [j|] eqn:Hlast.
  - apply py_range_last in Hlast as (Hj1 & Hj2 & k & Hk); [|lia|lia].
    change (Some (Nat.min (j + batch_size) (length (x :: l)),
                  j / batch_size + 1)
            = Some (length (x :: l), num_batches (x :: l))).
    unfold num_batches. rewrite Hb in *. rewrite Nat.add_0_l in Hk. subst j.
    f_equal. f_equal; [lia|].
    rewrite Nat.div_mul by lia.
    apply (Nat.div_unique _ _ _ (length (x :: l) + 500 - 1 - 500 * (k + 1)));
      lia.
  - apply last_None in Hlast.
    by apply py_range_nonempty in Hlast; [|simpl; lia|simpl; lia].
Qed.

Lemma unwind_create_app sc lb mk (l1 l2 : list row) g :
  unwind_create sc lb mk (l1 ++ l2) g
  = unwind_create sc lb mk l1 g ≫= unwind_create sc lb mk l2.
Proof.
  revert g. induction l1 as [|r l1 IH]; intros g; [done|]. simpl.
  destruct (mk r) as [p|]; simpl; [|done].
  destruct (create_node sc g lb p) as [g1|]; simpl; [|done].
  apply IH.
Qed.

Lemma import_batches_concat sc dt pf bs g :
  import_batches sc dt pf bs g
  = create_transactions_batch sc dt pf (concat bs) g.
Proof.
  revert g. induction bs as [|b bs IH]; intros g; [done|].
  simpl. unfold create_transactions_batch at 2.
  rewrite unwind_create_app.
  fold (create_transactions_batch sc dt pf b g).
  destruct (create_transactions_batch sc dt pf b g) as [g1|]; simpl; [|done].
  apply IH.
Qed.

(** Sending the transactions in batches of 500 ends in the graph that one
    statement over the whole table would have produced, and fails when that
    would have failed. *)
Theorem import_transactions_unbatched (schema : list label)
    (datetime_ok : string → bool) (parse_float : string → option Q)
    (transactions_list : list row) (g : Graph) :
  import_transactions schema datetime_ok parse_float transactions_list g
  = create_transactions_batch schema datetime_ok parse_float
      transactions_list g.
Proof.
  unfold import_transactions. rewrite import_batches_concat.
  by destruct (batches_props (length transactions_list) transactions_list)
    as (-> & _); [done|].
Qed.

(** ** STEP 3: the import starts from nothing *)

Lemma lower_ascii_idemp c : lower_ascii (lower_ascii c) = lower_ascii c.
Proof.
  destruct c as [[] [] [] [] [] [] [] []]; vm_compute; reflexivity.
Qed.

Lemma lower_idemp s : lower (lower s) = lower s.
Proof.
  induction s as [|c s IH]; [done|]. simpl.
  by rewrite lower_ascii_idemp, IH.
Qed.

Lemma graph_eta (g : Graph) : g = {| nodes := nodes g; rels := rels g |}.
Proof. by destruct g. Qed.

Lemma check_existing_empty g response g' :
  store_ok g → check_existing g response = Some g' → g' = empty_graph.
Proof.
  intros Hok Hg'.
  pose proof (check_existing_rels g response g' Hok Hg') as Hr.
  unfold check_existing, node_count in Hg'.
  destruct (size (nodes g) =? 0) eqn:Hsz.
  - inv Hg'. apply Nat.eqb_eq, map_size_empty_iff in Hsz.
    rewrite (graph_eta g'), Hsz, Hr. done.
  - destruct (String.eqb _ _); by inv Hg'.
Qed.

(** Whatever the database holds and whatever the operator answers, the
    import either stops or goes on with an empty graph; it stops exactly
    when there are nodes and the answer, upper or lower case, is not
    "yes". *)
Theorem check_existing_starts_empty (g : Graph) (response : string) :
  store_ok g →
  (∀ g', check_existing g response = Some g' → g' = empty_graph)
  ∧ (check_existing g response = None
     ↔ nodes g ≠ ∅ ∧ lower response ≠ "yes")
  ∧ check_existing g (lower response) = check_existing g response.
Proof.
  intros Hok. split_and!.
  - intros g' Hg'. by eapply check_existing_empty.
  - unfold check_existing, node_count.
    destruct (size (nodes g) =? 0) eqn:Hsz.
    + apply Nat.eqb_eq, map_size_empty_iff in Hsz. split; [done|].
      by intros [? _].
    + apply Nat.eqb_neq in Hsz.
      assert (Hne : nodes g ≠ ∅) by (by rewrite <- map_size_empty_iff).
      destruct (String.eqb (lower response) "yes") eqn:Hy.
      * apply String.eqb_eq in Hy. split; [done|]. by intros [_ ?].
      * apply String.eqb_neq in Hy. done.
  - unfold check_existing. by rewrite lower_idemp.
Qed.

Lemma check_existing_starts_empty_witness :
  let g := {| nodes := {[ 3 := {| nlabel := Bank; nprops := ∅ |} ]};
              rels := [] |} in
  store_ok g
  ∧ check_existing g "YES" = Some empty_graph
  ∧ check_existing g "y" = None.
Proof.
  intros g. assert (Hok : store_ok g) by constructor.
  destruct (check_existing_starts_empty g "YES" Hok) as (H1 & _ & _).
  destruct (check_existing_starts_empty g "y" Hok) as (_ & H2 & _).
  split; [exact Hok|]. split.
  - destruct (check_existing g "YES") as [g'|] eqn:E.
    + by rewrite (H1 g' eq_refl).
    + vm_compute in E. discriminate.
  - apply H2. split; vm_compute; discriminate.
Defined.

(** ** STEPS 6 to 13: what a table of nodes adds *)

Lemma fresh_node_absent g : nodes g !! fresh (dom (nodes g)) = None.
Proof. apply not_elem_of_dom, is_fresh. Qed.

Lemma create_node_nodes sc g l p g' :
  create_node sc g l p = Some g' →
  nodes g' = <[fresh (dom (nodes g)) := {| nlabel := l; nprops := p |}]>
               (nodes g)
  ∧ (l ∈ sc → id_taken g l (p !! "id") = false).
Proof.
  unfold create_node.
  destruct (bool_decide (l ∈ sc) && id_taken g l (p !! "id")) eqn:E; [done|].
  intros [= <-]. split; [done|]. intros Hl.
  by rewrite bool_decide_eq_true_2 in E.
Qed.

Lemma unwind_create_adds sc lb mk rows g g' :
  unwind_create sc lb mk rows g = Some g' →
  node_count g' = node_count g + length rows
  ∧ rels g' = rels g
  ∧ (∀ i n, nodes g !! i = Some n → nodes g' !! i = Some n)
  ∧ (∀ i n, nodes g' !! i = Some n →
            nodes g !! i = Some n
            ∨ (nodes g !! i = None ∧ nlabel n = lb
               ∧ ∃ r, r ∈ rows ∧ mk r = Some (nprops n))).
Proof.
  revert g. induction rows as [|r rows IH]; intros g; simpl.
  - intros [= <-]. split_and!; [lia|done|done|]. intros i n Hn. by left.
  - destruct (mk r) as [p|] eqn:Hmk; simpl; [|done].
    destruct (create_node sc g lb p) as [g1|] eqn:Hc; simpl; [|done].
    intros Hrun. destruct (IH g1 Hrun) as (H1 & H2 & H3 & H4).
    pose proof (create_node_rels _ _ _ _ _ Hc) as Hr.
    apply create_node_nodes in Hc as [Hn _].
    pose proof (fresh_node_absent g) as Hfresh.
    split_and!.
    + rewrite H1. unfold node_count. rewrite Hn.
      rewrite map_size_insert_None by done. lia.
    + congruence.
    + intros i n Hi. apply H3. rewrite Hn.
      rewrite lookup_insert_ne; [done|]. intros <-. congruence.
    + intros i n Hi. apply H4 in Hi as [Hi|(Hi & Hl & r' & Hr' & Hmk')].
      * rewrite Hn in Hi.
        destruct (decide (fresh (dom (nodes g)) = i)) as [<-|Hne].
        -- rewrite lookup_insert_eq in Hi. inv Hi. right.
           split_and!; [done|done|]. exists r. split; [by left|done].
        -- rewrite lookup_insert_ne in Hi by done. by left.
      * right. rewrite Hn in Hi.
        apply lookup_insert_None in Hi as [Hi _].
        split_and!; [done|done|]. exists r'. split; [by right|done].
Qed.

Lemma props_of_head k v (l : list (string * option value)) :
  k ∉ l.*1 → props_of ((k, v) :: l) !! k = v.
Proof.
  intros Hk. unfold props_of. simpl. fold (props_of l).
  assert (Hnone : props_of l !! k = None).
  { clear v. induction l as [|[k' v'] l IH]; [done|].
    rewrite fmap_cons in Hk. apply not_elem_of_cons in Hk as [Hne Hk].
    unfold props_of. simpl. fold (props_of l). simpl in Hne.
    destruct v'; [rewrite lookup_insert_ne by done|]; by apply IH. }
  destruct v; [by rewrite lookup_insert_eq|done].
Qed.

(** A table of clients that the database accepts adds exactly one Client
    node for every row, whose [id] is the row's [client_id] (absent when
    that is null); it keeps every node and every relationship that was
    there.  STEPS 6 and 8 to 13 create their nodes by the same statement
    form. *)
Theorem create_clients_adds (schema : list label) (date_ok : string → bool)
    (clients_list : list row) (g g' : Graph) :
  create_clients schema date_ok clients_list g = Some g' →
  node_count g' = node_count g + length clients_list
  ∧ rels g' = rels g
  ∧ (∀ i n, nodes g !! i = Some n → nodes g' !! i = Some n)
  ∧ (∀ i n, nodes g' !! i = Some n →
            nodes g !! i = Some n
            ∨ (nodes g !! i = None ∧ nlabel n = Client
               ∧ ∃ client, client ∈ clients_list
                           ∧ nprops n !! "id" = client !! "client_id")).
Proof.
  unfold create_clients. intros Hrun.
  destruct (unwind_create_adds _ _ _ _ _ _ Hrun) as (H1 & H2 & H3 & H4).
  split_and!; try done.
  intros i n Hi. apply H4 in Hi as [Hi|(Hi & Hl & client & Hc & Hmk)];
    [by left|right].
  split_and!; [done|done|]. exists client. split; [done|].
  destruct (cy_date date_ok (client !! "registration_date")) as [d|];
    cbn [mbind option_bind] in Hmk; [|done].
  apply (inj Some) in Hmk. rewrite <- Hmk. apply props_of_head. vm_compute.
  intros H. repeat (apply elem_of_cons in H as [H|H]; [discriminate|]).
  by inv H.
Qed.

Lemma create_clients_adds_witness :
  ∃ g', create_clients constraints accept_all (clients scenario) empty_graph
        = Some g'
        ∧ node_count g' = 4.
Proof.
  destruct (create_clients constraints accept_all (clients scenario)
              empty_graph)
    as [g'|] eqn:E; [|vm_compute in E; discriminate].
  exists g'. split; [done|].
  destruct (create_clients_adds constraints accept_all _ _ _ E) as (H1 & _).
  rewrite H1. reflexivity.
Defined.

(** ** STEP 4: the uniqueness constraints *)

Lemma Qeq_bool_sym x y : Qeq_bool x y = Qeq_bool y x.
Proof. unfold Qeq_bool. apply Z.eqb_sym. Qed.

Lemma value_eqb_sym a b : value_eqb a b = value_eqb b a.
Proof.
  destruct a, b; simpl; try done;
    first [apply Z.eqb_sym | apply Qeq_bool_sym | apply String.eqb_sym].
Qed.

Lemma Zeqb_Qeq x y : (x =? y)%Z = true ↔ (inject_Z x == inject_Z y)%Q.
Proof.
  rewrite Z.eqb_eq. split; [by intros ->|apply inject_Z_injective].
Qed.

Lemma value_eqb_trans a b c :
  value_eqb a b = true → value_eqb b c = true → value_eqb a c = true.
Proof.
  destruct a, b, c; simpl; try discriminate;
    rewrite ?Zeqb_Qeq, ?Qeq_bool_iff, ?String.eqb_eq;
    try congruence; intros H1 H2; by rewrite H1.
Qed.

Lemma cy_eqb_sym a b : cy_eqb a b = cy_eqb b a.
Proof. destruct a, b; simpl; try done. apply value_eqb_sym. Qed.

Lemma cy_eqb_trans a b c :
  cy_eqb a b = true → cy_eqb b c = true → cy_eqb a c = true.
Proof. destruct a, b, c; simpl; try done. apply value_eqb_trans. Qed.

(** Within every label no two nodes have equal [id]s: a MATCH on a label
    and an [id] finds at most one node. *)
Definition ids_unique (g : Graph) : Prop :=
  ∀ l v, length (match_nodes g l "id" v) ≤ 1.

Definition node_matches (g : Graph) (l : label) (k : string)
    (v : option value) (i : nat) : bool :=
  has_label g l i && prop_is g k v i.

Lemma match_nodes_filter g l k v :
  match_nodes g l k v
  = filter (λ i, node_matches g l k v i) (map_to_list (nodes g)).*1.
Proof.
  unfold match_nodes, nodes_labelled. rewrite list_filter_filter.
  apply list_filter_iff. intros i. unfold node_matches.
  rewrite andb_True. tauto.
Qed.

Lemma match_nodes_insert g g' l k v i n :
  nodes g !! i = None → nodes g' = <[i := n]> (nodes g) →
  match_nodes g' l k v
  ≡ₚ (if node_matches g' l k v i then [i] else []) ++ match_nodes g l k v.
Proof.
  intros Hi Hn. rewrite !match_nodes_filter, Hn.
  rewrite (fmap_Permutation fst _ _ (map_to_list_insert _ i n Hi)).
  rewrite fmap_cons, filter_cons. simpl.
  assert (Hsame : filter (λ j, node_matches g' l k v j)
                         (map_to_list (nodes g)).*1
                  = filter (λ j, node_matches g l k v j)
                           (map_to_list (nodes g)).*1).
  { apply filter_ext_elem. intros j Hj.
    assert (Hne : i ≠ j).
    { intros <-. apply list_elem_of_fmap in Hj as ([j' n'] & -> & Hj).
      apply elem_of_map_to_list in Hj. simpl in Hi. congruence. }
    unfold node_matches, has_label, label_of, prop_is.
    by rewrite Hn, lookup_insert_ne. }
  rewrite Hsame.
  destruct (decide _) as [Hd|Hd].
  - apply Is_true_true in Hd. by rewrite Hd.
  - apply Is_true_false in Hd. by rewrite Hd.
Qed.

Lemma elem_of_match_nodes g l k v i :
  i ∈ match_nodes g l k v
  ↔ ∃ n, nodes g !! i = Some n ∧ nlabel n = l
         ∧ cy_eqb (nprops n !! k) v = true.
Proof.
  rewrite match_nodes_filter, list_elem_of_filter.
  unfold node_matches, has_label, label_of, prop_is.
  rewrite andb_True, bool_decide_spec. split.
  - intros [[Hl Hp] _]. destruct (nodes g !! i) as [n|]; [|done].
    exists n. simpl in Hl. split_and!; [done|congruence|by apply Is_true_true].
  - intros (n & Hn & Hl & Hp). rewrite Hn. simpl. split_and!.
    + congruence.
    + by apply Is_true_true.
    + apply list_elem_of_fmap. exists (i, n). split; [done|].
      by apply elem_of_map_to_list.
Qed.

Lemma elem_of_constraints l : l ∈ constraints.
Proof. destruct l; unfold constraints; set_solver. Qed.

Lemma elem_of_create_constraints ok l :
  l ∈ create_constraints ok ↔ ok l = true.
Proof.
  unfold create_constraints. rewrite list_elem_of_filter, Is_true_true.
  pose proof (elem_of_constraints l). tauto.
Qed.

(** A node created under the constraint of its label leaves the [id]s of
    the label unique; a node of another label has no part in them. *)
Lemma create_node_unique_in sc g l p g' l' :
  l' ∈ sc →
  (∀ v, length (match_nodes g l' "id" v) ≤ 1) →
  create_node sc g l p = Some g' →
  ∀ v, length (match_nodes g' l' "id" v) ≤ 1.
Proof.
  intros Hsc Hu Hc v.
  apply create_node_nodes in Hc as [Hn Htaken].
  rewrite (match_nodes_insert g g' l' "id" v _ _ (fresh_node_absent g) Hn).
  destruct (node_matches g' l' "id" v _) eqn:Hm; [|apply Hu].
  simpl. destruct (match_nodes g l' "id" v) as [|j rest] eqn:Hold;
    [simpl; lia|].
  exfalso.
  assert (Hj : j ∈ match_nodes g l' "id" v) by (rewrite Hold; by left).
  apply elem_of_match_nodes in Hj as (nj & Hnj & Hlj & Hpj).
  unfold node_matches, has_label, label_of, prop_is in Hm.
  rewrite Hn, lookup_insert_eq in Hm. simpl in Hm.
  apply andb_true_iff in Hm as [Hl Hp]. apply bool_decide_eq_true in Hl.
  injection Hl as <-.
  specialize (Htaken Hsc). unfold id_taken in Htaken.
  assert (Hin : j ∈ match_nodes g l "id" (p !! "id")).
  { apply elem_of_match_nodes. exists nj. split_and!; [done|done|].
    eapply cy_eqb_trans; [exact Hpj|]. by rewrite cy_eqb_sym. }
  destruct (match_nodes g l "id" (p !! "id")); [by inv Hin|done].
Qed.

Lemma unwind_create_unique_in sc lb mk rows g g' l :
  l ∈ sc →
  (∀ v, length (match_nodes g l "id" v) ≤ 1) →
  unwind_create sc lb mk rows g = Some g' →
  ∀ v, length (match_nodes g' l "id" v) ≤ 1.
Proof.
  intros Hsc. revert g. induction rows as [|r rows IH]; intros g Hu; simpl.
  - by intros [= <-].
  - destruct (mk r) as [p|]; simpl; [|done].
    destruct (create_node sc g lb p) as [g1|] eqn:Hc; simpl; [|done].
    apply IH. by eapply create_node_unique_in.
Qed.

Lemma import_batches_unique_in sc dt pf bs g g' l :
  l ∈ sc →
  (∀ v, length (match_nodes g l "id" v) ≤ 1) →
  import_batches sc dt pf bs g = Some g' →
  ∀ v, length (match_nodes g' l "id" v) ≤ 1.
Proof.
  intros Hsc. revert g. induction bs as [|b bs IH]; intros g Hu; simpl.
  - by intros [= <-].
  - destruct (create_transactions_batch sc dt pf b g) as [g1|] eqn:Hc;
      simpl; [|done].
    apply IH. by eapply unwind_create_unique_in.
Qed.

(** With every constraint of STEP 4 in the schema, a table of nodes keeps
    the [id]s of every label unique. *)
Lemma unwind_create_ids_unique lb mk rows g g' :
  ids_unique g → unwind_create constraints lb mk rows g = Some g' →
  ids_unique g'.
Proof.
  intros Hu Hrun l. eapply unwind_create_unique_in; [|by apply Hu|done].
  apply elem_of_constraints.
Qed.

Lemma ids_unique_ext g g' :
  nodes g' = nodes g → ids_unique g → ids_unique g'.
Proof.
  intros Hn Hu l v. rewrite (match_nodes_ext g g' l "id" v Hn). apply Hu.
Qed.

Lemma annotate_degrees_match_id g l v :
  match_nodes (annotate_degrees g) l "id" v ≡ₚ match_nodes g l "id" v.
Proof.
  apply NoDup_Permutation.
  - rewrite match_nodes_filter. apply NoDup_filter, NoDup_fst_map_to_list.
  - rewrite match_nodes_filter. apply NoDup_filter, NoDup_fst_map_to_list.
  - intros i. rewrite !elem_of_match_nodes, annotate_degrees_lookup. split.
    + intros (n' & Hn' & Hl & Hp).
      destruct (nodes g !! i) as [n|]; [|done]. simpl in Hn'. inv Hn'.
      exists n. split_and!; [done|done|].
      by rewrite set_degrees_other in Hp.
    + intros (n & -> & Hl & Hp). exists (set_degrees g i n).
      split_and!; [done|done|]. by rewrite set_degrees_other.
Qed.

Lemma empty_graph_ids_unique : ids_unique empty_graph.
Proof. intros l v. vm_compute. lia. Qed.

Lemma before_degrees_unique_in ok dk dtk pf g0 response data g l :
  ok l = true →
  store_ok g0 →
  before_degrees ok dk dtk pf g0 response data = Some g →
  ∀ v, length (match_nodes g l "id" v) ≤ 1.
Proof.
  unfold before_degrees. intros Hl Hok H.
  apply elem_of_create_constraints in Hl.
  destruct (check_existing g0 response) as [g1|] eqn:H1; simpl in H; [|done].
  destruct (create_banks _ _ g1) as [g2|] eqn:H2; simpl in H; [|done].
  destruct (create_clients _ _ _ g2) as [g3|] eqn:H3; simpl in H; [|done].
  destruct (create_ssns _ _ g3) as [g4|] eqn:H4; simpl in H; [|done].
  destruct (create_phones _ _ g4) as [g5|] eqn:H5; simpl in H; [|done].
  destruct (create_emails _ _ g5) as [g6|] eqn:H6; simpl in H; [|done].
  destruct (create_merchants _ _ g6) as [g7|] eqn:H7; simpl in H; [|done].
  destruct (create_mules _ _ _ _ g7) as [g8|] eqn:H8; simpl in H; [|done].
  destruct (import_transactions _ _ _ _ g8) as [g9|] eqn:H9; simpl in H;
    [|done].
  inv H. intros v.
  assert (H9u : ∀ v, length (match_nodes g9 l "id" v) ≤ 1).
  { eapply import_batches_unique_in; [done| |exact H9].
    eapply unwind_create_unique_in; [done| |exact H8].
    eapply unwind_create_unique_in; [done| |exact H7].
    eapply unwind_create_unique_in; [done| |exact H6].
    eapply unwind_create_unique_in; [done| |exact H5].
    eapply unwind_create_unique_in; [done| |exact H4].
    eapply unwind_create_unique_in; [done| |exact H3].
    eapply unwind_create_unique_in; [done| |exact H2].
    rewrite (check_existing_empty g0 response g1 Hok H1).
    intros v'. apply empty_graph_ids_unique. }
  rewrite (match_nodes_ext g9 _ l "id" v); [apply H9u|].
  etrans; [exact (proj1 (link_by_client_id_grows FLAGGED_AS Mule _))|].
  etrans; [exact (proj1 (link_by_client_id_grows PERFORMED Transaction _))|].
  etrans; [exact (proj1 (create_has_email_grows _ _))|].
  etrans; [exact (proj1 (create_has_phone_grows _ _))|].
  exact (proj1 (create_has_ssn_grows _ _)).
Qed.

(** In the graph an import leaves, no two nodes of a label whose
    constraint STEP 4 put in force have equal [id]s: a MATCH on that label
    and an [id], as STEPS 14 to 18 do for every row, finds at most one
    node.  For a label whose CREATE CONSTRAINT the database refused, the
    import goes on without this guarantee. *)
Theorem full_import_ids_unique
    (constraint_ok : label → bool) (date_ok datetime_ok : string → bool)
    (parse_float : string → option Q)
    (g0 : Graph) (response : string) (data : Data) (g : Graph)
    (l : label) (v : option value) :
  constraint_ok l = true →
  store_ok g0 →
  full_import constraint_ok date_ok datetime_ok parse_float g0 response data
  = Some g →
  length (match_nodes g l "id" v) ≤ 1.
Proof.
  intros Hl Hok Hrun. rewrite full_import_unfold in Hrun.
  destruct (before_degrees _ _ _ _ _ _ _) as [g1|] eqn:Hb; [|done].
  simpl in Hrun. inv Hrun.
  destruct (build_identity_links_grows (annotate_degrees g1)) as [Hn _].
  rewrite (match_nodes_ext _ _ l "id" v Hn).
  rewrite (Permutation_length (annotate_degrees_match_id g1 l v)).
  by eapply before_degrees_unique_in.
Qed.

Lemma full_import_ids_unique_witness :
  let g := default empty_graph scenario_graph in
  every_label Client = true
  ∧ store_ok empty_graph
  ∧ full_import every_label accept_all accept_all no_number empty_graph ""
      scenario
    = Some g
  ∧ match_nodes g Client "id" (Some (VInt 3)) = [2].
Proof.
  intros g.
  assert (H0 : every_label Client = true) by reflexivity.
  assert (H1 : store_ok empty_graph) by constructor.
  assert (H2 : full_import every_label accept_all accept_all no_number
                 empty_graph "" scenario = Some g)
    by (vm_compute; reflexivity).
  split; [exact H0|]. split; [exact H1|]. split; [exact H2|].
  pose proof (full_import_ids_unique _ _ _ _ _ _ _ _ Client (Some (VInt 3))
                H0 H1 H2) as Hle.
  destruct (match_nodes g Client "id" (Some (VInt 3))) as [|i [|j rest]] eqn:E.
  - vm_compute in E. discriminate.
  - vm_compute in E. symmetry. exact E.
  - simpl in Hle. lia.
Defined.

(** ** A table with a repeated [id] *)

Lemma cy_eqb_refl_l a b : cy_eqb a b = true → cy_eqb a a = true.
Proof. destruct a, b; simpl; try done. intros _. apply value_eqb_refl. Qed.

Lemma unwind_create_keeps sc lb mk rows g g' l v i :
  unwind_create sc lb mk rows g = Some g' →
  i ∈ match_nodes g l "id" v → i ∈ match_nodes g' l "id" v.
Proof.
  intros Hrun (n & Hn & Hl & Hp)%elem_of_match_nodes.
  destruct (unwind_create_adds _ _ _ _ _ _ Hrun) as (_ & _ & Hkeep & _).
  apply elem_of_match_nodes. exists n. split_and!; [by apply Hkeep|done..].
Qed.

(** The node a row gives, once the row is through. *)
Lemma unwind_create_row sc lb mk r g g' p :
  mk r = Some p → unwind_create sc lb mk [r] g = Some g' →
  nodes g !! fresh (dom (nodes g)) = None
  ∧ nodes g' !! fresh (dom (nodes g)) = Some {| nlabel := lb; nprops := p |}
  ∧ (lb ∈ sc → id_taken g lb (p !! "id") = false).
Proof.
  intros Hmk H. cbn [unwind_create] in H. rewrite Hmk in H.
  cbn [mbind option_bind] in H.
  destruct (create_node sc g lb p) as [g1|] eqn:Hc; [|done].
  cbn [mbind option_bind] in H. inv H.
  apply create_node_nodes in Hc as [Hn Ht].
  split_and!; [apply fresh_node_absent| |done].
  by rewrite Hn, lookup_insert_eq.
Qed.

(** Under the constraint of the label, a table in which two rows give
    equal [id]s is refused. *)
Lemma unwind_create_duplicate sc lb mk (idof : row → option value)
    rows1 r1 rows2 r2 rows3 g :
  lb ∈ sc →
  (∀ r p, mk r = Some p → p !! "id" = idof r) →
  cy_eqb (idof r1) (idof r2) = true →
  unwind_create sc lb mk (rows1 ++ r1 :: rows2 ++ r2 :: rows3) g = None.
Proof.
  intros Hsc Hid Heq. rewrite unwind_create_app.
  destruct (unwind_create sc lb mk rows1 g) as [g1|]; [|done].
  cbn [mbind option_bind].
  change (r1 :: rows2 ++ r2 :: rows3) with ([r1] ++ rows2 ++ r2 :: rows3).
  rewrite unwind_create_app.
  destruct (unwind_create sc lb mk [r1] g1) as [g2|] eqn:H1; [|done].
  cbn [mbind option_bind]. rewrite unwind_create_app.
  destruct (unwind_create sc lb mk rows2 g2) as [g3|] eqn:H2; [|done].
  cbn [mbind option_bind]. cbn [unwind_create].
  destruct (mk r2) as [p2|] eqn:Hm2; [|done].
  cbn [mbind option_bind].
  assert (Htaken : id_taken g3 lb (p2 !! "id") = true).
  { unfold id_taken.
    assert (Hin : fresh (dom (nodes g1))
                  ∈ match_nodes g3 lb "id" (p2 !! "id")).
    { eapply unwind_create_keeps; [exact H2|].
      destruct (mk r1) as [p1|] eqn:Hm1;
        [|cbn [unwind_create] in H1; by rewrite Hm1 in H1].
      destruct (unwind_create_row _ _ _ _ _ _ _ Hm1 H1) as (_ & Hn & _).
      apply elem_of_match_nodes. eexists. split_and!; [exact Hn|done|].
      simpl. by rewrite (Hid _ _ Hm1), (Hid _ _ Hm2). }
    destruct (match_nodes g3 lb "id" (p2 !! "id")); [by inv Hin|done]. }
  unfold create_node. by rewrite Htaken, bool_decide_eq_true_2.
Qed.

(** Without the constraint of the label nothing but a row's own
    expressions can fail a table. *)
Lemma unwind_create_unconstrained sc lb mk rows g :
  lb ∉ sc → Forall (λ r, is_Some (mk r)) rows →
  is_Some (unwind_create sc lb mk rows g).
Proof.
  intros Hsc Hrows. revert g.
  induction Hrows as [|r rows [p Hp] _ IH]; intros g; [done|].
  cbn [unwind_create]. rewrite Hp. cbn [mbind option_bind].
  unfold create_node. rewrite bool_decide_eq_false_2 by done.
  cbn [andb mbind option_bind]. apply IH.
Qed.

(** Without the constraint, two rows that give equal [id]s leave two nodes
    with that [id]. *)
Lemma unwind_create_stores_both sc lb mk (idof : row → option value)
    rows1 r1 rows2 r2 rows3 g g' :
  (∀ r p, mk r = Some p → p !! "id" = idof r) →
  cy_eqb (idof r1) (idof r2) = true →
  unwind_create sc lb mk (rows1 ++ r1 :: rows2 ++ r2 :: rows3) g = Some g' →
  2 ≤ length (match_nodes g' lb "id" (idof r1)).
Proof.
  intros Hid Heq. rewrite unwind_create_app.
  destruct (unwind_create sc lb mk rows1 g) as [g1|]; [|done].
  cbn [mbind option_bind].
  change (r1 :: rows2 ++ r2 :: rows3) with ([r1] ++ rows2 ++ r2 :: rows3).
  rewrite unwind_create_app.
  destruct (unwind_create sc lb mk [r1] g1) as [g2|] eqn:H1; [|done].
  cbn [mbind option_bind]. rewrite unwind_create_app.
  destruct (unwind_create sc lb mk rows2 g2) as [g3|] eqn:H2; [|done].
  cbn [mbind option_bind].
  change (r2 :: rows3) with ([r2] ++ rows3). rewrite unwind_create_app.
  destruct (unwind_create sc lb mk [r2] g3) as [g4|] eqn:H3; [|done].
  cbn [mbind option_bind]. intros H4.
  destruct (mk r1) as [p1|] eqn:Hm1;
    [|cbn [unwind_create] in H1; by rewrite Hm1 in H1].
  destruct (mk r2) as [p2|] eqn:Hm2;
    [|cbn [unwind_create] in H3; by rewrite Hm2 in H3].
  destruct (unwind_create_row _ _ _ _ _ _ _ Hm1 H1) as (_ & Hn1 & _).
  destruct (unwind_create_row _ _ _ _ _ _ _ Hm2 H3) as (Hf2 & Hn2 & _).
  set (i1 := fresh (dom (nodes g1))) in *.
  set (i2 := fresh (dom (nodes g3))) in *.
  assert (Hi1 : i1 ∈ match_nodes g2 lb "id" (idof r1)).
  { apply elem_of_match_nodes. eexists. split_and!; [exact Hn1|done|].
    simpl. rewrite (Hid _ _ Hm1). by eapply cy_eqb_refl_l. }
  assert (Hi2 : i2 ∈ match_nodes g4 lb "id" (idof r1)).
  { apply elem_of_match_nodes. eexists. split_and!; [exact Hn2|done|].
    simpl. rewrite (Hid _ _ Hm2). by rewrite cy_eqb_sym. }
  apply (unwind_create_keeps _ _ _ _ _ _ _ _ _ H2) in Hi1.
  assert (Hne : i1 ≠ i2).
  { intros Heq12.
    apply elem_of_match_nodes in Hi1 as (n & Hn & _). congruence. }
  apply (unwind_create_keeps _ _ _ _ _ _ _ _ _ H3) in Hi1.
  apply (unwind_create_keeps _ _ _ _ _ _ _ _ _ H4) in Hi1.
  apply (unwind_create_keeps _ _ _ _ _ _ _ _ _ H4) in Hi2.
  assert (Hnd : NoDup (match_nodes g' lb "id" (idof r1))).
  { rewrite match_nodes_filter. apply NoDup_filter, NoDup_fst_map_to_list. }
  destruct (match_nodes g' lb "id" (idof r1)) as [|a [|b rest]].
  - by inv Hi1.
  - apply list_elem_of_singleton in Hi1, Hi2. congruence.
  - simpl. lia.
Qed.

Lemma create_clients_id dk (r : row) p :
  (d ← cy_date dk (r !! "registration_date");
   Some (props_of [("id", r !! "client_id");
                   ("name", r !! "name");
                   ("accountNumber", r !! "account_number");
                   ("bankId", r !! "bank_id");
                   ("registrationDate", d)])) = Some p →
  p !! "id" = r !! "client_id".
Proof.
  intros Hmk.
  destruct (cy_date dk (r !! "registration_date")) as [d|];
    cbn [mbind option_bind] in Hmk; [|done].
  apply (inj Some) in Hmk. rewrite <- Hmk. apply props_of_head. vm_compute.
  intros H. repeat (apply elem_of_cons in H as [H|H]; [discriminate|]).
  by inv H.
Qed.

(** A table of clients in which two rows carry equal [client_id]s.  When
    STEP 4 put the constraint on Client in force, the table is refused as
    a whole: the CREATE of the second row fails and the script ends without
    any client of the table.  When the database refused that constraint,
    STEP 4 went on regardless, and the table is stored as long as its dates
    are accepted: the graph then holds two Client nodes with that [id]. *)
Theorem create_clients_duplicate_id (constraint_ok : label → bool)
    (date_ok : string → bool)
    (rows1 rows2 rows3 : list row) (r1 r2 : row) (g : Graph) :
  cy_eqb (r1 !! "client_id") (r2 !! "client_id") = true →
  let table := rows1 ++ r1 :: rows2 ++ r2 :: rows3 in
  let schema := create_constraints constraint_ok in
  (constraint_ok Client = true →
   create_clients schema date_ok table g = None)
  ∧ (constraint_ok Client = false →
     Forall (λ r, is_Some (cy_date date_ok (r !! "registration_date")))
            table →
     ∃ g', create_clients schema date_ok table g = Some g'
           ∧ 2 ≤ length (match_nodes g' Client "id" (r1 !! "client_id"))).
Proof.
  intros Heq table schema. split.
  - intros Hok. unfold create_clients.
    apply (unwind_create_duplicate _ _ _ (λ r, r !! "client_id"));
      [by apply elem_of_create_constraints| |done].
    intros r p. apply create_clients_id.
  - intros Hno Hdates.
    destruct (create_clients schema date_ok table g) as [g'|] eqn:Hrun.
    + exists g'. split; [done|]. unfold create_clients in Hrun.
      eapply (unwind_create_stores_both _ _ _ (λ r, r !! "client_id"));
        [|exact Heq|exact Hrun].
      intros r p. apply create_clients_id.
    + exfalso. unfold create_clients in Hrun.
      eapply is_Some_None. rewrite <- Hrun.
      apply unwind_create_unconstrained.
      * unfold schema. rewrite elem_of_create_constraints. congruence.
      * eapply Forall_impl; [exact Hdates|]. intros r [d Hd].
        rewrite Hd. by eexists.
Qed.

(** The table with the ids 7, 8, 7: refused under the constraint, stored
    with two clients 7 without it. *)
Lemma create_clients_duplicate_id_witness :
  let c7 := {[ "client_id" := VInt 7 ]} : row in
  let c8 := {[ "client_id" := VInt 8 ]} : row in
  cy_eqb (c7 !! "client_id") (c7 !! "client_id") = true
  ∧ create_clients (create_constraints every_label) accept_all [c7; c8; c7]
      empty_graph
    = None
  ∧ ∃ g', create_clients (create_constraints (λ _, false)) accept_all
            [c7; c8; c7] empty_graph
          = Some g'
          ∧ 2 ≤ length (match_nodes g' Client "id" (c7 !! "client_id")).
Proof.
  intros c7 c8.
  assert (Heq : cy_eqb (c7 !! "client_id") (c7 !! "client_id") = true)
    by (vm_compute; reflexivity).
  split; [exact Heq|]. split.
  - destruct (create_clients_duplicate_id every_label accept_all
                [] [c8] [] c7 c7 empty_graph Heq) as [Hon _].
    apply Hon. reflexivity.
  - destruct (create_clients_duplicate_id (λ _, false) accept_all
                [] [c8] [] c7 c7 empty_graph Heq) as [_ Hoff].
    apply Hoff; [reflexivity|].
    repeat constructor; by eexists.
Defined.

(** ** STEPS 14 to 18: merging again *)

(** A sequence of [MERGE (c)-[:t]->(d)] on bound nodes. *)
Definition merge_pairs (t : reltype) (g : Graph) (ps : list (nat * nat))
    : Graph :=
  foldl (λ g p, merge_rel g p.1 t p.2 []) g ps.

Definition rel_present (t : reltype) (g : Graph) (p : nat * nat) : bool :=
  existsb (rel_matches p.1 t p.2 []) (rels g).

Lemma merge_pairs_grows t g ps :
  grows_by (λ r, rtype r = t) g (merge_pairs t g ps).
Proof.
  apply foldl_grows. intros g1 p.
  eapply grows_by_weaken; [|apply merge_rel_grows]. by intros r (_ & ? & _).
Qed.

Lemma merge_pairs_app t g ps qs :
  merge_pairs t g (ps ++ qs) = merge_pairs t (merge_pairs t g ps) qs.
Proof. apply foldl_app. Qed.

Lemma link_row_pairs t g cs ss :
  link_row t g cs ss = merge_pairs t g (c ← cs; s ← ss; [(c, s)]).
Proof.
  unfold link_row. revert g. induction cs as [|c cs IH]; intros g; [done|].
  rewrite bind_cons, merge_pairs_app. simpl foldl. rewrite IH. f_equal.
  clear IH. revert g. induction ss as [|s ss IH]; intros g; [done|].
  rewrite bind_cons. simpl. apply IH.
Qed.

Lemma rel_present_grows P t g g' p :
  grows_by P g g' → rel_present t g p = true → rel_present t g' p = true.
Proof.
  intros [_ (new & Hr & _)]. unfold rel_present. rewrite Hr, existsb_app.
  by intros ->.
Qed.

Lemma merge_rel_present t g p :
  rel_present t (merge_rel g p.1 t p.2 []) p = true.
Proof.
  unfold merge_rel. fold (rel_present t g p).
  destruct (rel_present t g p) eqn:H; [done|].
  unfold rel_present. cbn [rels]. rewrite existsb_app. cbn [existsb].
  unfold rel_matches at 2. cbn [rsrc rtype rtgt rprops props_match forallb].
  rewrite !bool_decide_eq_true_2 by done. by rewrite orb_true_r.
Qed.

Lemma merge_pairs_present t g ps p :
  p ∈ ps → rel_present t (merge_pairs t g ps) p = true.
Proof.
  revert g. induction ps as [|a ps IH]; intros g Hp; [by inv Hp|].
  simpl. apply elem_of_cons in Hp as [->|Hp]; [|by apply IH].
  eapply rel_present_grows; [apply merge_pairs_grows|].
  apply merge_rel_present.
Qed.

Lemma merge_pairs_id t g ps :
  (∀ p, p ∈ ps → rel_present t g p = true) → merge_pairs t g ps = g.
Proof.
  induction ps as [|a ps IH]; intros H; [done|]. simpl.
  unfold merge_rel. fold (rel_present t g a).
  rewrite (H a) by apply list_elem_of_here.
  apply IH. intros p Hp. apply H. by right.
Qed.

Lemma merge_pairs_twice t g ps :
  merge_pairs t (merge_pairs t g ps) ps = merge_pairs t g ps.
Proof. apply merge_pairs_id. intros p Hp. by apply merge_pairs_present. Qed.

(** The pairs a row of a relationship table merges. *)
Definition has_pairs (g : Graph) (lbl : label) (col : string) (rel : row)
    : list (nat * nat) :=
  c ← match_nodes g Client "id" (rel !! "client_id");
  s ← match_nodes g lbl "id" (rel !! col);
  [(c, s)].

Lemma has_pairs_ext g g' lbl col rel :
  nodes g' = nodes g → has_pairs g' lbl col rel = has_pairs g lbl col rel.
Proof.
  intros H. unfold has_pairs. by rewrite !(match_nodes_ext g g' _ _ _ H).
Qed.

Lemma create_has_flat t lbl (col : string) g0 (rows : list row) g :
  nodes g = nodes g0 →
  foldl (λ g rel,
           link_row t g (match_nodes g Client "id" (rel !! "client_id"))
                        (match_nodes g lbl "id" (rel !! col)))
        g rows
  = merge_pairs t g (rows ≫= has_pairs g0 lbl col).
Proof.
  revert g. induction rows as [|rel rows IH]; intros g Hn; [done|].
  rewrite bind_cons, merge_pairs_app. simpl foldl.
  rewrite link_row_pairs. fold (has_pairs g lbl col rel).
  rewrite (has_pairs_ext g0 g lbl col rel Hn).
  apply IH. destruct (merge_pairs_grows t g (has_pairs g0 lbl col rel))
    as [-> _]. done.
Qed.

Lemma create_has_twice t lbl (col : string) g (rows : list row) :
  let run g :=
    foldl (λ g rel,
             link_row t g (match_nodes g Client "id" (rel !! "client_id"))
                          (match_nodes g lbl "id" (rel !! col)))
          g rows in
  run (run g) = run g.
Proof.
  intros run. unfold run.
  rewrite (create_has_flat t lbl col g rows g eq_refl).
  rewrite (create_has_flat t lbl col g rows (merge_pairs _ _ _)).
  - apply merge_pairs_twice.
  - apply merge_pairs_grows.
Qed.

Definition client_pairs (g : Graph) (tn : nat) : list (nat * nat) :=
  c ← match_nodes g Client "id" (node_prop g tn "clientId"); [(c, tn)].

Lemma client_pairs_ext g g' tn :
  nodes g' = nodes g → client_pairs g' tn = client_pairs g tn.
Proof.
  intros H. unfold client_pairs, node_prop.
  by rewrite (match_nodes_ext g g' _ _ _ H), H.
Qed.

Lemma link_by_client_id_flat ty g0 (xs : list nat) g :
  nodes g = nodes g0 →
  foldl (λ g t,
           foldl (λ g c, merge_rel g c ty t []) g
                 (match_nodes g Client "id" (node_prop g t "clientId")))
        g xs
  = merge_pairs ty g (xs ≫= client_pairs g0).
Proof.
  revert g. induction xs as [|tn xs IH]; intros g Hn; [done|].
  rewrite bind_cons, merge_pairs_app. simpl foldl.
  rewrite (client_pairs_ext g g0 tn) by done.
  assert (Hin : ∀ cs g1,
            foldl (λ g c, merge_rel g c ty tn []) g1 cs
            = merge_pairs ty g1 (c ← cs; [(c, tn)])).
  { clear. induction cs as [|c cs IH]; intros g1; [done|].
    rewrite bind_cons. simpl. apply IH. }
  rewrite Hin. fold (client_pairs g tn).
  apply IH. destruct (merge_pairs_grows ty g (client_pairs g tn)) as [-> _].
  done.
Qed.

Lemma link_by_client_id_twice ty l g :
  link_by_client_id ty l (link_by_client_id ty l g)
  = link_by_client_id ty l g.
Proof.
  unfold link_by_client_id at 1.
  destruct (link_by_client_id_grows ty l g) as [Hn _].
  rewrite (nodes_labelled_ext g _ l Hn).
  rewrite (link_by_client_id_flat ty g _ _ Hn).
  unfold link_by_client_id.
  rewrite (link_by_client_id_flat ty g _ g eq_refl).
  apply merge_pairs_twice.
Qed.

(** Each of the five relationship steps can be run again on its own
    result, with the same table, without any effect: every MERGE then
    finds its relationship, and no duplicate is created. *)
Theorem relationship_steps_idempotent (g : Graph) (rels_list : list row) :
  create_has_ssn (create_has_ssn g rels_list) rels_list
  = create_has_ssn g rels_list
  ∧ create_has_phone (create_has_phone g rels_list) rels_list
    = create_has_phone g rels_list
  ∧ create_has_email (create_has_email g rels_list) rels_list
    = create_has_email g rels_list
  ∧ create_performed (create_performed g) = create_performed g
  ∧ create_flagged_as (create_flagged_as g) = create_flagged_as g.
Proof.
  split_and!.
  - apply (create_has_twice HAS_SSN SSN "ssn_id").
  - apply (create_has_twice HAS_PHONE Phone "phone_id").
  - apply (create_has_twice HAS_EMAIL Email "email_id").
  - apply link_by_client_id_twice.
  - apply link_by_client_id_twice.
Qed.

(** ** STEPS 14 to 16: who holds what *)

Definition target_label (t : reltype) : label :=
  match t with
  | HAS_SSN => SSN
  | HAS_PHONE => Phone
  | HAS_EMAIL => Email
  | _ => Client
  end.

(** Every identifier relationship goes from a client to an identifier node
    of its own kind, and no client holds one identifier node twice. *)
Definition typed_holdings (g : Graph) : Prop :=
  simple_holdings g
  ∧ Forall (λ r, label_of g (rsrc r) = Some Client
                 ∧ label_of g (rtgt r) = Some (target_label (rtype r)))
           (identifier_rels g).

Lemma target_label_inj t t' :
  is_identifier_rel t = true → is_identifier_rel t' = true →
  target_label t = target_label t' → t = t'.
Proof. by destruct t, t'. Qed.

Lemma identifier_rels_app g new :
  filter (λ r, is_identifier_rel (rtype r)) (rels g ++ new)
  = identifier_rels g ++ filter (λ r, is_identifier_rel (rtype r)) new.
Proof. apply filter_app. Qed.

Lemma label_of_ext g g' i : nodes g' = nodes g → label_of g' i = label_of g i.
Proof. intros H. unfold label_of. by rewrite H. Qed.

Lemma typed_holdings_grows t g g' :
  is_identifier_rel t = false →
  grows_by (λ r, rtype r = t) g g' → typed_holdings g → typed_holdings g'.
Proof.
  intros Ht [Hn (new & Hr & Hnew)] [Hs Hty].
  assert (Hid : identifier_rels g' = identifier_rels g).
  { unfold identifier_rels at 1. rewrite Hr, identifier_rels_app.
    rewrite (filter_none _ new), app_nil_r; [done|].
    eapply Forall_impl; [exact Hnew|]. intros r Hrt.
    apply Is_true_false. by rewrite Hrt. }
  split.
  - unfold simple_holdings. by rewrite Hid.
  - rewrite Hid. eapply Forall_impl; [exact Hty|]. intros r.
    by rewrite !(label_of_ext g g' _ Hn).
Qed.

Lemma merge_rel_typed g c t s :
  is_identifier_rel t = true →
  label_of g c = Some Client → label_of g s = Some (target_label t) →
  typed_holdings g → typed_holdings (merge_rel g c t s []).
Proof.
  intros Ht Hc Hs [Hsimple Hty]. unfold merge_rel.
  destruct (existsb _ _) eqn:Hex; [done|].
  set (r := {| rsrc := c; rtype := t; rtgt := s; rprops := list_to_map [] |}).
  assert (Hid : identifier_rels {| nodes := nodes g; rels := rels g ++ [r] |}
                = identifier_rels g ++ [r]).
  { unfold identifier_rels at 1. cbn [rels]. rewrite identifier_rels_app.
    f_equal. rewrite filter_cons, decide_True; [done|].
    simpl. by rewrite Ht. }
  split.
  - unfold simple_holdings. rewrite Hid, fmap_app.
    apply NoDup_app. split_and!; [done| |apply NoDup_singleton].
    intros k Hk Hk'. apply list_elem_of_singleton in Hk'. subst k.
    apply list_elem_of_fmap in Hk as (r' & Hkey & Hr').
    rewrite Forall_forall in Hty. destruct (Hty r' Hr') as [_ Hl'].
    apply elem_of_identifier_rels in Hr' as [Hin Hid'].
    unfold rel_key in Hkey. simpl in Hkey. injection Hkey as Hsrc Htgt.
    assert (Htt : rtype r' = t).
    { apply target_label_inj; [done|done|]. rewrite <- Htgt in Hl'.
      congruence. }
    assert (Hm : existsb (rel_matches c t s []) (rels g) = true).
    { apply existsb_exists. exists r'. split; [by apply list_elem_of_In|].
      unfold rel_matches. simpl.
      by rewrite !bool_decide_eq_true_2. }
    congruence.
  - rewrite Hid. apply Forall_app. split.
    + eapply Forall_impl; [exact Hty|]. by intros r'.
    + constructor; [|constructor]. by split.
Qed.

Lemma merge_pairs_typed t g ps :
  is_identifier_rel t = true →
  Forall (λ p, label_of g p.1 = Some Client
               ∧ label_of g p.2 = Some (target_label t)) ps →
  typed_holdings g → typed_holdings (merge_pairs t g ps).
Proof.
  intros Ht. revert g. induction ps as [|p ps IH]; intros g Hps Hg; [done|].
  apply Forall_cons_1 in Hps as [[Hp1 Hp2] Hps]. simpl. apply IH.
  - destruct (merge_rel_grows g p.1 t p.2 []) as [Hn _].
    eapply Forall_impl; [exact Hps|]. intros q.
    by rewrite !(label_of_ext g _ _ Hn).
  - by apply merge_rel_typed.
Qed.

Lemma match_nodes_label g l k v i :
  i ∈ match_nodes g l k v → label_of g i = Some l.
Proof.
  intros (n & Hn & Hl & _)%elem_of_match_nodes.
  unfold label_of. rewrite Hn. simpl. by rewrite Hl.
Qed.

Lemma create_has_typed t lbl (col : string) g (rows : list row) :
  is_identifier_rel t = true → target_label t = lbl →
  typed_holdings g →
  typed_holdings
    (foldl (λ g rel,
              link_row t g (match_nodes g Client "id" (rel !! "client_id"))
                           (match_nodes g lbl "id" (rel !! col)))
           g rows).
Proof.
  intros Ht Hl Hg.
  rewrite (create_has_flat t lbl col g rows g eq_refl).
  apply merge_pairs_typed; [done| |done].
  apply Forall_forall. intros p (rel & Hp & _)%list_elem_of_bind.
  unfold has_pairs in Hp.
  apply list_elem_of_bind in Hp as (c & Hp & Hc).
  apply list_elem_of_bind in Hp as (s & Hp & Hs).
  apply list_elem_of_singleton in Hp. subst p. simpl.
  rewrite Hl. split; by eapply match_nodes_label.
Qed.

Lemma annotate_degrees_typed g :
  typed_holdings g → typed_holdings (annotate_degrees g).
Proof.
  intros [Hs Hty]. split; [done|].
  change (identifier_rels (annotate_degrees g)) with (identifier_rels g).
  eapply Forall_impl; [exact Hty|]. intros r.
  unfold label_of. rewrite !annotate_degrees_lookup.
  by destruct (nodes g !! rsrc r), (nodes g !! rtgt r).
Qed.

Lemma before_degrees_rels_after_nodes ok dk dtk pf g0 response data g :
  store_ok g0 →
  before_degrees ok dk dtk pf g0 response data = Some g →
  ∃ g9, rels g9 = []
        ∧ g = create_flagged_as
                (create_performed
                   (create_has_email
                      (create_has_phone
                         (create_has_ssn g9 (client_has_ssn data))
                         (client_has_phone data))
                      (client_has_email data))).
Proof.
  unfold before_degrees. intros Hok H.
  destruct (check_existing g0 response) as [g1|] eqn:H1; simpl in H; [|done].
  destruct (create_banks _ _ g1) as [g2|] eqn:H2; simpl in H; [|done].
  destruct (create_clients _ _ _ g2) as [g3|] eqn:H3; simpl in H; [|done].
  destruct (create_ssns _ _ g3) as [g4|] eqn:H4; simpl in H; [|done].
  destruct (create_phones _ _ g4) as [g5|] eqn:H5; simpl in H; [|done].
  destruct (create_emails _ _ g5) as [g6|] eqn:H6; simpl in H; [|done].
  destruct (create_merchants _ _ g6) as [g7|] eqn:H7; simpl in H; [|done].
  destruct (create_mules _ _ _ _ g7) as [g8|] eqn:H8; simpl in H; [|done].
  destruct (import_transactions _ _ _ _ g8) as [g9|] eqn:H9; simpl in H;
    [|done].
  inv H. exists g9. split; [|done].
  rewrite (import_batches_rels _ _ _ _ _ _ H9).
  rewrite (unwind_create_rels _ _ _ _ _ _ H8).
  rewrite (unwind_create_rels _ _ _ _ _ _ H7).
  rewrite (unwind_create_rels _ _ _ _ _ _ H6).
  rewrite (unwind_create_rels _ _ _ _ _ _ H5).
  rewrite (unwind_create_rels _ _ _ _ _ _ H4).
  rewrite (unwind_create_rels _ _ _ _ _ _ H3).
  rewrite (unwind_create_rels _ _ _ _ _ _ H2).
  by eapply check_existing_rels.
Qed.

(** The graph STEP 21 reads in a run of the import. *)
Lemma before_degrees_typed ok dk dtk pf g0 response data g19 :
  store_ok g0 →
  before_degrees ok dk dtk pf g0 response data = Some g19 →
  typed_holdings (annotate_degrees g19).
Proof.
  intros Hok Hb.
  destruct (before_degrees_rels_after_nodes _ _ _ _ _ _ _ _ Hok Hb)
    as (g9 & Hr9 & ->).
  assert (H9 : typed_holdings g9).
  { unfold typed_holdings, simple_holdings, identifier_rels.
    rewrite Hr9. split; constructor. }
  apply annotate_degrees_typed.
  eapply (typed_holdings_grows FLAGGED_AS);
    [done|apply link_by_client_id_grows|].
  eapply (typed_holdings_grows PERFORMED);
    [done|apply link_by_client_id_grows|].
  apply (create_has_typed HAS_EMAIL Email "email_id"); [done|done|].
  apply (create_has_typed HAS_PHONE Phone "phone_id"); [done|done|].
  by apply (create_has_typed HAS_SSN SSN "ssn_id").
Qed.

(** In the graph an import leaves, and in the graph STEP 21 reads, every
    HAS_SSN, HAS_PHONE and HAS_EMAIL relationship goes from a Client node
    to a node of its own kind (SSN, Phone, Email), and no client holds an
    identifier node by two relationships. *)
Theorem full_import_typed_holdings
    (constraint_ok : label → bool) (date_ok datetime_ok : string → bool)
    (parse_float : string → option Q)
    (g0 : Graph) (response : string) (data : Data) (g : Graph) :
  store_ok g0 →
  full_import constraint_ok date_ok datetime_ok parse_float g0 response data
  = Some g →
  simple_holdings g
  ∧ Forall (λ r, label_of g (rsrc r) = Some Client
                 ∧ label_of g (rtgt r) = Some (target_label (rtype r)))
           (identifier_rels g)
  ∧ ∃ g1, g = build_identity_links g1 ∧ simple_holdings g1.
Proof.
  intros Hok Hrun. rewrite full_import_unfold in Hrun.
  destruct (before_degrees _ _ _ _ _ _ _) as [g1|] eqn:Hb; [|done].
  simpl in Hrun. inv Hrun.
  pose proof (before_degrees_typed _ _ _ _ _ _ _ _ Hok Hb) as Hstage.
  pose proof (typed_holdings_grows SHARED_IDENTIFIERS _ _ eq_refl
                (build_identity_links_grows _) Hstage) as [Hs Hty].
  split_and!; [done|done|]. eexists. split; [done|]. apply Hstage.
Qed.

Lemma full_import_typed_holdings_witness :
  let g := default empty_graph scenario_graph in
  store_ok empty_graph
  ∧ full_import every_label accept_all accept_all no_number empty_graph ""
      scenario
    = Some g
  ∧ simple_holdings g.
Proof.
  intros g.
  assert (H1 : store_ok empty_graph) by constructor.
  assert (H2 : full_import every_label accept_all accept_all no_number
                 empty_graph "" scenario = Some g)
    by (vm_compute; reflexivity).
  split; [exact H1|]. split; [exact H2|].
  exact (proj1 (full_import_typed_holdings _ _ _ _ _ _ _ _ H1 H2)).
Defined.

(** ** STEP 19: the counts printed *)

Lemma sum_list_with_fmap {A B} (f : B → nat) (h : A → B) (l : list A) :
  sum_list_with f (h <$> l) = sum_list_with (f ∘ h) l.
Proof.
  induction l as [|x l IH]; [done|].
  rewrite fmap_cons. cbn [sum_list_with]. unfold compose at 1.
  f_equal. exact IH.
Qed.

Lemma sum_list_with_add {A} (f h : A → nat) (l : list A) :
  sum_list_with (λ x, f x + h x) l = sum_list_with f l + sum_list_with h l.
Proof. induction l as [|x l IH]; [done|]. simpl. rewrite IH. lia. Qed.

Lemma sum_list_with_ext {A} (f h : A → nat) (l : list A) :
  (∀ x, x ∈ l → f x = h x) → sum_list_with f l = sum_list_with h l.
Proof.
  induction l as [|x l IH]; intros H; [done|]. simpl.
  rewrite (H x) by (by left). rewrite IH; [done|].
  intros y Hy. apply H. by right.
Qed.

Lemma sum_indicator {K} `{EqDecision K} (L : list K) (x : K) :
  NoDup L → x ∈ L →
  sum_list_with (λ k, if decide (x = k) then 1 else 0) L = 1.
Proof.
  induction 1 as [|k L Hk HL IH]; [by inversion 1|].
  intros Hx. simpl. destruct (decide (x = k)) as [->|Hne].
  - rewrite (sum_list_with_ext _ (λ _, 0)).
    + clear. induction L; simpl; lia.
    + intros y Hy. destruct (decide (k = y)); [by subst|done].
  - apply elem_of_cons in Hx as [?|Hx]; [done|]. by rewrite IH.
Qed.

Lemma sum_filter_sizes {A K} `{EqDecision K} (key : A → K) (L : list K)
    (rows : list A) :
  NoDup L → (∀ a, a ∈ rows → key a ∈ L) →
  sum_list_with (λ k, length (filter (λ a, key a = k) rows)) L
  = length rows.
Proof.
  intros HL. induction rows as [|a rows IH]; intros Hin.
  - simpl. clear. induction L; simpl; lia.
  - rewrite (sum_list_with_ext _
               (λ k, (if decide (key a = k) then 1 else 0)
                     + length (filter (λ a0, key a0 = k) rows))).
    + rewrite sum_list_with_add, sum_indicator, IH; [done| |done|].
      * intros b Hb. apply Hin. by right.
      * apply Hin. by left.
    + intros k _. rewrite filter_cons. by destruct (decide (key a = k)).
Qed.

(** The sizes of the groups of a grouping add up to the number of rows. *)
Lemma group_by_sizes {A K} `{EqDecision K} (key : A → K) (rows : list A) :
  sum_list_with (λ kr : K * list A, length kr.2) (group_by key rows)
  = length rows.
Proof.
  unfold group_by. rewrite sum_list_with_fmap.
  apply (sum_filter_sizes key).
  - apply NoDup_remove_dups.
  - intros a Ha. rewrite elem_of_remove_dups. by apply list_elem_of_fmap_2.
Qed.

(** [ORDER BY Count DESC]. *)
Definition count_desc {A} (x y : A * nat) : Prop := y.2 ≤ x.2.

#[global] Instance count_desc_dec {A} (x y : A * nat) :
  Decision (count_desc x y).
Proof. unfold count_desc. apply _. Defined.

#[global] Instance count_desc_total {A} : Total (@count_desc A).
Proof. intros x y. unfold count_desc. lia. Qed.

#[global] Instance count_desc_trans {A} : Transitive (@count_desc A).
Proof. intros x y z. unfold count_desc. lia. Qed.

(** [MATCH (n) RETURN labels(n)[0] AS NodeType, count(n) AS Count
    ORDER BY Count DESC]. *)
Definition node_type_counts (g : Graph) : list (label * nat) :=
  merge_sort count_desc
    ((λ kr : label * list (nat * Node), (kr.1, length kr.2))
       <$> group_by (λ kn : nat * Node, nlabel kn.2)
             (map_to_list (nodes g))).

(** [MATCH ()-[r]->() RETURN type(r) AS RelType, count(r) AS Count
    ORDER BY Count DESC]. *)
Definition rel_type_counts (g : Graph) : list (reltype * nat) :=
  merge_sort count_desc
    ((λ kr : reltype * list Rel, (kr.1, length kr.2))
       <$> group_by rtype (rels g)).

(** The totals the loops of STEP 19 add up. *)
Definition total_nodes (g : Graph) : nat :=
  sum_list_with snd (node_type_counts g).

Definition total_rels (g : Graph) : nat :=
  sum_list_with snd (rel_type_counts g).

Lemma type_counts_props {A K} `{EqDecision K} (key : A → K)
    (rows : list A) :
  let counts := merge_sort count_desc
                  ((λ kr : K * list A, (kr.1, length kr.2))
                     <$> group_by key rows) in
  sum_list_with snd counts = length rows
  ∧ NoDup counts.*1
  ∧ StronglySorted count_desc counts
  ∧ ∀ k n, (k, n) ∈ counts
           ↔ 0 < n ∧ n = length (filter (λ a, key a = k) rows).
Proof.
  intros counts.
  assert (Hperm : counts ≡ₚ (λ kr : K * list A, (kr.1, length kr.2))
                              <$> group_by key rows)
    by apply merge_sort_Permutation.
  split_and!.
  - rewrite Hperm, sum_list_with_fmap. apply group_by_sizes.
  - rewrite Hperm, <- list_fmap_compose.
    rewrite (list_fmap_ext _ fst (group_by key rows)) by done.
    rewrite group_by_fst. apply NoDup_remove_dups.
  - apply StronglySorted_merge_sort; apply _.
  - intros k n. rewrite Hperm, list_elem_of_fmap. split.
    + intros ([k' rs] & [= -> ->] & Hin). simpl.
      pose proof (group_by_nonempty _ _ _ _ Hin) as Hne.
      apply elem_of_group_by in Hin as [_ ->]. split; [|done].
      destruct (filter _ rows); [done|simpl; lia].
    + intros [Hpos ->]. eexists (k, _). split; [done|].
      apply elem_of_group_by. split; [|done].
      destruct (filter (λ a, key a = k) rows) as [|a l] eqn:E;
        [simpl in Hpos; lia|].
      assert (Ha : a ∈ filter (λ a, key a = k) rows) by (rewrite E; by left).
      apply list_elem_of_filter in Ha as [<- Ha].
      by apply list_elem_of_fmap_2.
Qed.

Lemma total_rels_length g : total_rels g = length (rels g).
Proof. apply (type_counts_props rtype (rels g)). Qed.

(** What STEP 19 prints: one line for every label that has nodes and one
    for every relationship type that has relationships, each with the
    number of its nodes or relationships, the larger counts first; the
    totals are the number of nodes and of relationships of the graph. *)
Theorem verify_import_counts (g : Graph) :
  total_nodes g = node_count g
  ∧ total_rels g = length (rels g)
  ∧ NoDup (node_type_counts g).*1 ∧ NoDup (rel_type_counts g).*1
  ∧ StronglySorted count_desc (node_type_counts g)
  ∧ StronglySorted count_desc (rel_type_counts g)
  ∧ (∀ l n, (l, n) ∈ node_type_counts g
            ↔ 0 < n ∧ n = length (nodes_labelled g l))
  ∧ (∀ t n, (t, n) ∈ rel_type_counts g
            ↔ 0 < n ∧ n = length (filter (λ r, rtype r = t) (rels g))).
Proof.
  destruct (type_counts_props (λ kn : nat * Node, nlabel kn.2)
              (map_to_list (nodes g))) as (N1 & N2 & N3 & N4).
  destruct (type_counts_props rtype (rels g)) as (R1 & R2 & R3 & R4).
  split_and!; try done.
  - unfold total_nodes, node_type_counts. rewrite N1.
    unfold node_count. by rewrite length_map_to_list.
  - intros l n. unfold node_type_counts. rewrite N4.
    assert (Hlen : length (filter (λ a : nat * Node, nlabel a.2 = l)
                             (map_to_list (nodes g)))
                   = length (nodes_labelled g l)); [|by rewrite Hlen].
    unfold nodes_labelled. rewrite filter_fmap, length_fmap. f_equal.
    apply filter_ext_elem. intros [i nd] Hin.
    apply elem_of_map_to_list in Hin. unfold has_label, label_of. simpl.
    rewrite Hin. simpl. rewrite bool_decide_spec. split; congruence.
Qed.

(** ** STEPS 21 and 22: the connections counted *)

(** What STEP 21 reports as created and what STEP 22 counts agree: the
    fraud connections after a run are those before it and the ones the run
    created, one for every matched pair without a relationship of its
    count and weight, so at most one for every matched pair. *)
Theorem fraud_connections_created (g : Graph) :
  fraud_connections (build_identity_links g)
  = fraud_connections g + relationships_created g
  ∧ relationships_created g
    = length (filter (λ l, link_present g l = false) (identity_links g))
  ∧ relationships_created g ≤ length (identity_links g).
Proof.
  destruct (build_identity_links_rels g) as [_ Hr].
  assert (Hc : relationships_created g
               = length (filter (λ l, link_present g l = false)
                           (identity_links g))).
  { unfold relationships_created. rewrite Hr, length_app, length_fmap. lia. }
  split_and!.
  - unfold fraud_connections, shared_rels at 1. rewrite Hr, filter_app.
    rewrite length_app. fold (shared_rels g). rewrite Hc. f_equal.
    rewrite filter_all; [by rewrite length_fmap|].
    apply Forall_fmap, Forall_true. done.
  - done.
  - rewrite Hc. apply length_filter.
Qed.

Lemma direct_not_shared t : is_direct t = true ↔ t ≠ SHARED_IDENTIFIERS.
Proof. by destruct t. Qed.

(** The total of relationships that the final summary prints is the one
    STEP 19 added up, before STEP 21: in the graph a run leaves it is the
    number of direct relationships, and it falls short of the number of
    all relationships by the SHARED_IDENTIFIERS relationships, which STEP
    22 counts as fraud connections. *)
Theorem summary_total_without_shared
    (constraint_ok : label → bool) (date_ok datetime_ok : string → bool)
    (parse_float : string → option Q)
    (g0 : Graph) (response : string) (data : Data) (g : Graph) :
  store_ok g0 →
  full_import constraint_ok date_ok datetime_ok parse_float g0 response data
  = Some g →
  ∃ g19,
    before_degrees constraint_ok date_ok datetime_ok parse_float g0 response
      data
    = Some g19
    ∧ g = build_identity_links (annotate_degrees g19)
    ∧ total_rels g19 + fraud_connections g = length (rels g)
    ∧ total_rels g19
      = length (filter (λ r, is_direct (rtype r) = true) (rels g)).
Proof.
  intros Hok Hrun. rewrite full_import_unfold in Hrun.
  destruct (before_degrees _ _ _ _ _ _ _) as [g19|] eqn:Hb; [|done].
  simpl in Hrun. inv Hrun. exists g19. split; [done|]. split; [done|].
  pose proof (before_degrees_direct _ _ _ _ _ _ _ _ Hok Hb) as Hdirect.
  pose proof (total_rels_length g19) as Htot.
  destruct (build_identity_links_grows (annotate_degrees g19))
    as [_ (new & Hr & Hnew)].
  cbn [annotate_degrees rels] in Hr.
  assert (Hold : filter (λ r, rtype r = SHARED_IDENTIFIERS) (rels g19) = []).
  { apply filter_none. eapply Forall_impl; [exact Hdirect|].
    intros r Hd. by apply direct_not_shared. }
  assert (Hnew' : filter (λ r, rtype r = SHARED_IDENTIFIERS) new = new)
    by by apply filter_all.
  split.
  - unfold fraud_connections, shared_rels.
    rewrite Hr, filter_app, Hold, Hnew', Htot, !length_app. simpl. lia.
  - rewrite Htot, Hr, filter_app, length_app.
    rewrite (filter_all _ (rels g19)) by done.
    rewrite (filter_none _ new); [simpl; lia|].
    eapply Forall_impl; [exact Hnew|]. intros r ->. done.
Qed.

Lemma summary_total_without_shared_witness :
  let g := default empty_graph scenario_graph in
  store_ok empty_graph
  ∧ full_import every_label accept_all accept_all no_number empty_graph ""
      scenario
    = Some g
  ∧ ∃ g19, total_rels g19 = 5 ∧ fraud_connections g = 4
           ∧ length (rels g) = 9.
Proof.
  intros g.
  assert (H1 : store_ok empty_graph) by constructor.
  assert (H2 : full_import every_label accept_all accept_all no_number
                 empty_graph "" scenario = Some g)
    by (vm_compute; reflexivity).
  split; [exact H1|]. split; [exact H2|].
  destruct (summary_total_without_shared _ _ _ _ _ _ _ _ H1 H2)
    as (g19 & _ & _ & Hsum & _).
  assert (Hf : fraud_connections g = 4) by (vm_compute; reflexivity).
  assert (Hl : length (rels g) = 9) by (vm_compute; reflexivity).
  exists g19. split; [|split; [exact Hf|exact Hl]].
  rewrite Hf, Hl in Hsum. lia.
Defined.

(** ** STEP 22: what a fraud ring holds *)

(** One relationship of [es] joins [a] and [b], in either direction. *)
Definition adjacent (es : list Rel) (a b : nat) : Prop :=
  ∃ r, r ∈ es ∧ touches r a = true ∧ other_end r a = b.

Lemma adjacent_mono es es' a b :
  (∀ r, r ∈ es → r ∈ es') → adjacent es a b → adjacent es' a b.
Proof. intros H (r & Hr & Ht & Ho). exists r. auto. Qed.

Lemma tc_adjacent_mono es es' a b :
  (∀ r, r ∈ es → r ∈ es') →
  tc (adjacent es) a b → tc (adjacent es') a b.
Proof.
  intros H. induction 1 as [a b Hab|a b c Hab _ IH].
  - apply tc_once. by eapply adjacent_mono.
  - eapply tc_l; [|exact IH]. by eapply adjacent_mono.
Qed.

Lemma picks_rest {A} (l : list A) (p : A * list A) (x : A) :
  p ∈ picks l → x ∈ p.2 → x ∈ l.
Proof.
  revert p. induction l as [|y l IH]; intros p; simpl; [by inversion 1|].
  intros [->|Hp]%elem_of_cons; [by right|].
  apply list_elem_of_fmap in Hp as (q & -> & Hq). simpl.
  intros [->|Hx]%elem_of_cons; [by left|]. right. by eapply IH.
Qed.

Lemma picks_other {A} (l : list A) (p : A * list A) (x : A) :
  p ∈ picks l → x ∈ l → x ≠ p.1 → x ∈ p.2.
Proof.
  revert p. induction l as [|y l IH]; intros p; simpl; [by inversion 1|].
  intros [->|Hp]%elem_of_cons Hx Hne; simpl in *.
  - apply elem_of_cons in Hx as [?|?]; [done|done].
  - apply list_elem_of_fmap in Hp as (q & -> & Hq). simpl in *.
    apply elem_of_cons in Hx as [->|Hx]; [by left|].
    right. by apply IH.
Qed.

Lemma picks_complete {A} (l : list A) (x : A) :
  x ∈ l → ∃ p, p ∈ picks l ∧ p.1 = x.
Proof.
  induction l as [|y l IH]; [by inversion 1|].
  intros [->|Hx]%elem_of_cons.
  - exists (y, l). split; [by left|done].
  - destruct (IH Hx) as (p & Hp & <-).
    exists (p.1, y :: p.2). split; [|done]. simpl. right.
    apply list_elem_of_fmap. by exists p.
Qed.

Lemma elem_of_trail_ends fuel avail cur x :
  x ∈ trail_ends (S fuel) avail cur
  ↔ ∃ p, p ∈ picks avail ∧ touches p.1 cur = true
         ∧ (x = other_end p.1 cur
            ∨ x ∈ trail_ends fuel p.2 (other_end p.1 cur)).
Proof.
  cbn [trail_ends]. rewrite list_elem_of_bind. split.
  - intros (p & Hx & Hp). exists p. split; [done|].
    destruct (touches p.1 cur); [|by inv Hx].
    split; [done|]. by apply elem_of_cons in Hx.
  - intros (p & Hp & Ht & Hx). exists p. split; [|done].
    rewrite Ht. by apply elem_of_cons.
Qed.

(** Whatever a path search ends in is joined to its start by a chain of
    the relationships at hand. *)
Lemma trail_ends_sound fuel avail cur x :
  x ∈ trail_ends fuel avail cur → tc (adjacent avail) cur x.
Proof.
  revert avail cur. induction fuel as [|fuel IH]; intros avail cur;
    [by inversion 1|].
  intros (p & Hp & Ht & Hx)%elem_of_trail_ends.
  assert (Hadj : adjacent avail cur (other_end p.1 cur)).
  { exists p.1. split; [by apply picks_elem|done]. }
  destruct Hx as [->|Hx]; [by apply tc_once|].
  eapply tc_l; [exact Hadj|].
  eapply tc_adjacent_mono; [|by apply IH].
  intros r Hr. by eapply picks_rest.
Qed.

Definition avoiding (a : nat) (es : list Rel) : list Rel :=
  filter (λ r, touches r a = false) es.

Lemma touches_ends r a :
  touches r a = true → a = rsrc r ∨ a = rtgt r.
Proof.
  unfold touches. rewrite orb_true_iff, !bool_decide_eq_true.
  intros [?|?]; [by left|by right].
Qed.

Lemma other_end_ends r y :
  touches r y = true →
  (rsrc r = y ∧ rtgt r = other_end r y)
  ∨ (rtgt r = y ∧ rsrc r = other_end r y).
Proof.
  unfold touches, other_end. rewrite orb_true_iff, !bool_decide_eq_true.
  destruct (bool_decide (rsrc r = y)) eqn:E.
  - apply bool_decide_eq_true in E. by left.
  - apply bool_decide_eq_false in E. intros [?|?]; [done|by right].
Qed.

Lemma adjacent_avoiding es a y z :
  adjacent es y z → y ≠ a → z ≠ a → adjacent (avoiding a es) y z.
Proof.
  intros (r & Hr & Ht & Ho) Hy Hz. exists r. split; [|done].
  apply list_elem_of_filter. split; [|done].
  apply not_true_is_false. intros Ha.
  apply touches_ends in Ha. apply other_end_ends in Ht. subst z.
  destruct Ha as [Ha|Ha], Ht as [[H1 H2]|[H1 H2]]; congruence.
Qed.

(** A chain from [y] to [x] either never comes to [a], or leaves [a] a
    last time and does not come back. *)
Lemma chain_last_visit es y x a :
  tc (adjacent es) y x → x ≠ a →
  (y ≠ a ∧ tc (adjacent (avoiding a es)) y x)
  ∨ ∃ r, r ∈ es ∧ touches r a = true
         ∧ (other_end r a = x
            ∨ (other_end r a ≠ a
               ∧ tc (adjacent (avoiding a es)) (other_end r a) x)).
Proof.
  intros Htc Hx. induction Htc as [y x Hyx|y z x Hyz _ IH].
  - destruct (decide (y = a)) as [->|Hy].
    + right. destruct Hyx as (r & Hr & Ht & Ho). exists r. auto.
    + left. split; [done|]. apply tc_once. by apply adjacent_avoiding.
  - destruct (IH Hx) as [[Hz Hrest]|Hlater]; [|by right].
    destruct (decide (y = a)) as [->|Hy].
    + right. destruct Hyz as (r & Hr & Ht & Ho). exists r.
      split_and!; [done|done|]. right. by rewrite Ho.
    + left. split; [done|]. eapply tc_l; [|exact Hrest].
      by apply adjacent_avoiding.
Qed.

(** Every node other than the start that a chain of the relationships at
    hand reaches is the end of a path that uses no relationship twice. *)
Lemma trail_ends_complete n avail cur x :
  length avail ≤ n → x ≠ cur →
  tc (adjacent avail) cur x → x ∈ trail_ends (length avail) avail cur.
Proof.
  revert avail cur x. induction n as [|n IH]; intros avail cur x Hlen Hx Htc.
  - destruct avail; [|simpl in Hlen; lia].
    exfalso. clear -Htc. induction Htc as [? ? (r & Hr & _)|]; [by inv Hr|done].
  - destruct (chain_last_visit avail cur x cur Htc Hx)
      as [[? _]|(r & Hr & Ht & Hrest)]; [done|].
    destruct (picks_complete avail r Hr) as (p & Hp & <-).
    pose proof (picks_length avail p Hp) as Hpl.
    rewrite <- Hpl. apply elem_of_trail_ends. exists p.
    split_and!; [done|done|].
    destruct (decide (x = other_end p.1 cur)) as [->|Hne]; [by left|].
    right. destruct Hrest as [?|[Hy Hav]]; [done|].
    apply (IH p.2); [lia|done|].
    eapply tc_adjacent_mono; [|exact Hav].
    intros e [He Hin]%list_elem_of_filter.
    eapply picks_other; [done|done|]. intros ->. congruence.
Qed.

Lemma elem_of_nodes_labelled g l i :
  i ∈ nodes_labelled g l ↔ has_label g l i = true.
Proof.
  unfold nodes_labelled. rewrite list_elem_of_filter, Is_true_true.
  split; [by intros [? _]|]. intros Hl. split; [done|].
  unfold has_label, label_of in Hl. apply bool_decide_eq_true in Hl.
  destruct (nodes g !! i) as [n|] eqn:Hn; [|done].
  apply list_elem_of_fmap. exists (i, n). split; [done|].
  by apply elem_of_map_to_list.
Qed.

Lemma elem_of_ring_rows g c x :
  (c, x) ∈ ring_rows g
  ↔ has_label g Client c = true ∧ has_label g Client x = true
    ∧ x ∈ trail_ends (length (shared_rels g)) (shared_rels g) c.
Proof.
  unfold ring_rows. rewrite list_elem_of_bind. split.
  - intros (c' & Hx & Hc). apply list_elem_of_bind in Hx as (x' & Hx & Hx').
    apply list_elem_of_singleton in Hx. injection Hx as -> ->.
    apply elem_of_nodes_labelled in Hc.
    apply list_elem_of_filter in Hx' as [Hl Hx']. apply Is_true_true in Hl.
    done.
  - intros (Hc & Hx & Hin). exists c. split; [|by apply elem_of_nodes_labelled].
    apply list_elem_of_bind. exists x. split; [by left|].
    apply list_elem_of_filter. split; [by apply Is_true_true|done].
Qed.

(** The ring the query collects for a client [c]: its entries but the
    last are distinct clients, the last is [c]; every client other than [c]
    is among them exactly when a chain of SHARED_IDENTIFIERS relationships
    joins it to [c], so they are the rest of [c]'s connected component;
    [c] itself can be among them, and is counted a second time then; the
    size is at most the number of clients and one. *)
Theorem fraud_ring_members (g : Graph) (ring : list nat) :
  ring ∈ fraud_rings g →
  ∃ c members,
    ring = members ++ [c]
    ∧ has_label g Client c = true
    ∧ NoDup members ∧ members ≠ []
    ∧ (∀ x, x ≠ c →
            (x ∈ members
             ↔ has_label g Client x = true
               ∧ tc (adjacent (shared_rels g)) c x))
    ∧ (c ∈ members → tc (adjacent (shared_rels g)) c c)
    ∧ length ring ≤ length (nodes_labelled g Client) + 1.
Proof.
  unfold fraud_rings. intros ([c rs] & -> & Hin)%list_elem_of_fmap.
  pose proof (group_by_nonempty _ _ _ _ Hin) as Hne.
  apply elem_of_group_by in Hin as [Hc ->]. simpl.
  set (rs := filter (λ a : nat * nat, a.1 = c) (ring_rows g)) in *.
  assert (Hmem : ∀ x, x ∈ remove_dups rs.*2 ↔ (c, x) ∈ ring_rows g).
  { intros x. rewrite elem_of_remove_dups, list_elem_of_fmap. split.
    - intros ([c' x'] & -> & [Hk Hq]%list_elem_of_filter). simpl in *.
      by subst c'.
    - intros Hq. exists (c, x). split; [done|].
      by apply list_elem_of_filter. }
  apply list_elem_of_fmap in Hc as ([c' x0] & -> & Hrow). simpl in *.
  pose proof Hrow as (Hlc & _ & _)%elem_of_ring_rows.
  exists c', (remove_dups rs.*2). split_and!; try done.
  - apply NoDup_remove_dups.
  - intros Hnil. destruct rs as [|q rs'] eqn:E; [done|].
    assert (Hq : q.2 ∈ remove_dups (q :: rs').*2)
      by (rewrite elem_of_remove_dups, fmap_cons; by left).
    rewrite Hnil in Hq. by inv Hq.
  - intros x Hx. rewrite Hmem, elem_of_ring_rows. split.
    + intros (_ & Hlx & Htr). split; [done|]. by eapply trail_ends_sound.
    + intros [Hlx Htc]. split_and!; [done|done|].
      by apply (trail_ends_complete (length (shared_rels g))).
  - rewrite Hmem, elem_of_ring_rows. intros (_ & _ & Htr).
    by eapply trail_ends_sound.
  - rewrite length_app. simpl.
    assert (Hsub : remove_dups rs.*2 ⊆+ nodes_labelled g Client).
    { apply NoDup_submseteq; [apply NoDup_remove_dups|].
      intros x Hx. apply Hmem, elem_of_ring_rows in Hx as (_ & Hlx & _).
      by apply elem_of_nodes_labelled. }
    apply submseteq_length in Hsub. lia.
Qed.

Lemma fraud_ring_members_witness :
  let g := default empty_graph scenario_graph in
  [2; 1; 0; 3; 0] ∈ fraud_rings g
  ∧ ∃ c members, [2; 1; 0; 3; 0] = members ++ [c] ∧ NoDup members
                 ∧ (c ∈ members → tc (adjacent (shared_rels g)) c c).
Proof.
  intros g.
  assert (Hin : [2; 1; 0; 3; 0] ∈ fraud_rings g).
  { apply list_elem_of_In. vm_compute. do 3 right. left. reflexivity. }
  split; [exact Hin|].
  destruct (fraud_ring_members g _ Hin) as (c & members & H1 & _ & H2 & _ & _ & H3 & _).
  exists c, members. split; [exact H1|]. split; [exact H2|exact H3].
Defined.

(** ** STEP 20: the degrees add up *)

(** In a store where every relationship starts and ends at a node, the
    out-degrees of all nodes add up to the number of relationships, and so
    do the in-degrees. *)
Theorem degree_sums (g : Graph) :
  store_ok g →
  sum_list_with (out_degree g) (map_to_list (nodes g)).*1 = length (rels g)
  ∧ sum_list_with (in_degree g) (map_to_list (nodes g)).*1
    = length (rels g).
Proof.
  intros Hok. unfold store_ok in Hok. rewrite Forall_forall in Hok.
  assert (Hkey : ∀ i, is_Some (nodes g !! i) → i ∈ (map_to_list (nodes g)).*1).
  { intros i [n Hn]. apply list_elem_of_fmap. exists (i, n).
    split; [done|]. by apply elem_of_map_to_list. }
  split.
  - apply (sum_filter_sizes rsrc); [apply NoDup_fst_map_to_list|].
    intros r Hr. apply Hkey. by apply Hok.
  - apply (sum_filter_sizes rtgt); [apply NoDup_fst_map_to_list|].
    intros r Hr. apply Hkey. by apply Hok.
Qed.

Lemma degree_sums_witness :
  let g := default empty_graph scenario_graph in
  store_ok g
  ∧ sum_list_with (out_degree g) (map_to_list (nodes g)).*1 = 9.
Proof.
  intros g.
  assert (Hok : store_ok g).
  { unfold store_ok. apply Forall_forall. intros r Hr.
    apply list_elem_of_In in Hr. vm_compute in Hr.
    repeat (destruct Hr as [<-|Hr]; [split; vm_compute; eauto|]).
    destruct Hr. }
  split; [exact Hok|].
  rewrite (proj1 (degree_sums g Hok)). vm_compute. reflexivity.
Defined.

(** ** STEPS 14 to 18: what the merges create *)

Lemma merge_rel_new g s t d :
  nodes (merge_rel g s t d []) = nodes g
  ∧ ∃ new, rels (merge_rel g s t d []) = rels g ++ new
           ∧ Forall (λ r, rtype r = t ∧ rel_key r = (s, d) ∧ rprops r = ∅)
                    new
           ∧ length new ≤ 1.
Proof.
  unfold merge_rel. destruct (existsb _ (rels g)).
  - split; [done|]. exists []. rewrite app_nil_r. split_and!; [done|done|].
    simpl. lia.
  - split; [done|]. eexists [_]. split_and!; [done| |done].
    by repeat constructor.
Qed.

Lemma merge_pairs_new t g ps :
  nodes (merge_pairs t g ps) = nodes g
  ∧ ∃ new, rels (merge_pairs t g ps) = rels g ++ new
           ∧ Forall (λ r, rtype r = t ∧ rel_key r ∈ ps ∧ rprops r = ∅) new
           ∧ length new ≤ length ps.
Proof.
  revert g. induction ps as [|p ps IH]; intros g.
  - split; [done|]. exists []. by rewrite app_nil_r.
  - change (merge_pairs t g (p :: ps))
      with (merge_pairs t (merge_rel g p.1 t p.2 []) ps).
    destruct (IH (merge_rel g p.1 t p.2 []))
      as (IHn & new & IHr & IHf & IHl).
    destruct (merge_rel_new g p.1 t p.2) as (Hn & n1 & Hr & Hf & Hl).
    split; [congruence|]. exists (n1 ++ new). split_and!.
    + by rewrite IHr, Hr, app_assoc.
    + apply Forall_app. split.
      * eapply Forall_impl; [exact Hf|]. intros r (? & Hk & ?).
        split_and!; [done| |done]. rewrite Hk. destruct p as [a b].
        simpl. by left.
      * eapply Forall_impl; [exact IHf|]. intros r (? & ? & ?).
        split_and!; [done|by right|done].
    + rewrite length_app. simpl. lia.
Qed.

Lemma has_label_node_prop g l i :
  has_label g l i = true ↔ ∃ n, nodes g !! i = Some n ∧ nlabel n = l.
Proof.
  unfold has_label, label_of. rewrite bool_decide_eq_true.
  destruct (nodes g !! i) as [n|]; simpl.
  - split; [intros [= <-]; by exists n|]. by intros (n' & [= <-] & ->).
  - split; [done|]. by intros (n' & ? & _).
Qed.

Lemma elem_of_client_pairs g tn p :
  p ∈ client_pairs g tn
  ↔ p.2 = tn ∧ has_label g Client p.1 = true
    ∧ cy_eqb (node_prop g p.1 "id") (node_prop g tn "clientId") = true.
Proof.
  unfold client_pairs. rewrite list_elem_of_bind. split.
  - intros (c & Hp & Hc). apply list_elem_of_singleton in Hp. subst p.
    apply elem_of_match_nodes in Hc as (n & Hn & Hl & Heq). simpl.
    split_and!; [done| |].
    + apply has_label_node_prop. by exists n.
    + unfold node_prop at 1. by rewrite Hn.
  - destruct p as [c tn']. simpl. intros (-> & Hl & Heq).
    exists c. split; [by left|].
    apply has_label_node_prop in Hl as (n & Hn & Hl).
    apply elem_of_match_nodes. exists n. split_and!; [done|done|].
    unfold node_prop at 1 in Heq. by rewrite Hn in Heq.
Qed.

(** What a step of the form
    [MATCH (t:l) MATCH (c:Client {id: t.clientId}) MERGE (c)-[:ty]->(t)]
    makes of [g]: the nodes stay, relationships are only added, each added
    one is of type [ty] and goes from a client to a node labelled [l]
    whose [clientId] equals the client's [id], and afterwards every such
    pair of nodes is joined. *)
Definition joined_by_client_id (ty : reltype) (l : label) (g g' : Graph)
    : Prop :=
  nodes g' = nodes g
  ∧ (∃ new, rels g' = rels g ++ new
            ∧ Forall (λ r, rtype r = ty
                           ∧ has_label g Client (rsrc r) = true
                           ∧ has_label g l (rtgt r) = true
                           ∧ cy_eqb (node_prop g (rsrc r) "id")
                                    (node_prop g (rtgt r) "clientId")
                             = true)
                     new)
  ∧ ∀ c tn, has_label g Client c = true → has_label g l tn = true →
            cy_eqb (node_prop g c "id") (node_prop g tn "clientId") = true →
            rel_present ty g' (c, tn) = true.

Lemma link_by_client_id_joined ty l g :
  joined_by_client_id ty l g (link_by_client_id ty l g).
Proof.
  unfold link_by_client_id.
  rewrite (link_by_client_id_flat ty g _ g eq_refl).
  destruct (merge_pairs_new ty g (nodes_labelled g l ≫= client_pairs g))
    as (Hn & new & Hr & Hf & _).
  split_and!; [done| |].
  - exists new. split; [done|]. eapply Forall_impl; [exact Hf|].
    intros r (Ht & Hk & _).
    apply list_elem_of_bind in Hk as (tn & Hk & Htn).
    apply elem_of_client_pairs in Hk as (Hk & Hl & Heq). simpl in *.
    apply elem_of_nodes_labelled in Htn. subst tn. done.
  - intros c tn Hc Htn Heq. apply merge_pairs_present.
    apply list_elem_of_bind. exists tn.
    split; [by apply elem_of_client_pairs|by apply elem_of_nodes_labelled].
Qed.

(** STEPS 17 and 18 join every transaction and every mule to the client
    whose [id] is its [clientId], and create nothing else: a transaction or
    a mule whose [clientId] is no client's [id] gets no relationship. *)
Theorem performed_and_flagged_as (g : Graph) :
  joined_by_client_id PERFORMED Transaction g (create_performed g)
  ∧ joined_by_client_id FLAGGED_AS Mule g (create_flagged_as g).
Proof. split; apply link_by_client_id_joined. Qed.

Lemma has_pairs_length g lbl (col : string) (rel : row) :
  ids_unique g → length (has_pairs g lbl col rel) ≤ 1.
Proof.
  intros Hu. unfold has_pairs.
  pose proof (Hu Client (rel !! "client_id")) as H1.
  pose proof (Hu lbl (rel !! col)) as H2.
  destruct (match_nodes g Client "id" _) as [|c [|c' cs]];
    [simpl; lia| |simpl in H1; lia].
  rewrite bind_singleton.
  destruct (match_nodes g lbl "id" _) as [|s [|s' ss]];
    [simpl; lia|simpl; lia|simpl in H2; lia].
Qed.

Lemma has_pairs_dangling g (rel : row) :
  dangling g rel = true → has_pairs g SSN "ssn_id" rel = [].
Proof.
  intros [H|H]%dangling_no_match; unfold has_pairs; rewrite H; [done|].
  apply bind_nil, Forall_true. done.
Qed.

(** What STEP 14 makes of the graph: it adds HAS_SSN relationships only,
    each from a client matched by a row's [client_id] to an SSN node
    matched by the same row's [ssn_id]; afterwards the nodes a row matches
    are joined; and where [id]s are unique it creates at most one
    relationship for every row that is not dangling, so never more than
    the number of rows it reports. *)
Theorem create_has_ssn_links (g : Graph) (rels_list : list row) :
  nodes (create_has_ssn g rels_list) = nodes g
  ∧ (∃ new,
       rels (create_has_ssn g rels_list) = rels g ++ new
       ∧ Forall (λ r, rtype r = HAS_SSN
                      ∧ ∃ rel, rel ∈ rels_list
                          ∧ rsrc r ∈ match_nodes g Client "id"
                                       (rel !! "client_id")
                          ∧ rtgt r ∈ match_nodes g SSN "id"
                                       (rel !! "ssn_id"))
                new
       ∧ (ids_unique g →
          length new
          ≤ length (filter (λ rel, dangling g rel = false) rels_list)))
  ∧ ∀ rel c s, rel ∈ rels_list →
               c ∈ match_nodes g Client "id" (rel !! "client_id") →
               s ∈ match_nodes g SSN "id" (rel !! "ssn_id") →
               rel_present HAS_SSN (create_has_ssn g rels_list) (c, s)
               = true.
Proof.
  unfold create_has_ssn.
  rewrite (create_has_flat HAS_SSN SSN "ssn_id" g rels_list g eq_refl).
  destruct (merge_pairs_new HAS_SSN g (rels_list ≫= has_pairs g SSN "ssn_id"))
    as (Hn & new & Hr & Hf & Hlen).
  split_and!; [done| |].
  - exists new. split_and!; [done| |].
    + eapply Forall_impl; [exact Hf|]. intros r (Ht & Hk & _).
      split; [done|].
      apply list_elem_of_bind in Hk as (rel & Hk & Hrel).
      exists rel. split; [done|]. unfold has_pairs in Hk.
      apply list_elem_of_bind in Hk as (c & Hk & Hc).
      apply list_elem_of_bind in Hk as (s & Hk & Hs).
      apply list_elem_of_singleton in Hk. unfold rel_key in Hk.
      injection Hk as -> ->. done.
    + intros Hu. etrans; [exact Hlen|]. clear -Hu.
      induction rels_list as [|rel rows IH]; [done|].
      rewrite bind_cons, length_app, filter_cons.
      pose proof (has_pairs_length g SSN "ssn_id" rel Hu) as Hp.
      destruct (dangling g rel) eqn:Hd.
      * rewrite (has_pairs_dangling g rel Hd), decide_False by done.
        simpl. lia.
      * rewrite decide_True by done. simpl. lia.
  - intros rel c s Hrel Hc Hs. apply merge_pairs_present.
    apply list_elem_of_bind. exists rel. split; [|done].
    unfold has_pairs. apply list_elem_of_bind. exists c. split; [|done].
    apply list_elem_of_bind. exists s. split; [by left|done].
Qed.

Lemma create_has_ssn_links_witness :
  let g := default empty_graph
             (create_clients constraints accept_all
                [{[ "client_id" := VInt 1 ]}] empty_graph
              ≫= create_ssns constraints [{[ "ssn_id" := VStr "S1" ]}]) in
  let table := [has_ssn_row 9 "S1"; has_ssn_row 1 "S1"; has_ssn_row 1 "S1"] in
  ids_unique g
  ∧ length (rels (create_has_ssn g table)) ≤ 2.
Proof.
  intros g table.
  assert (Hu : ids_unique g).
  { set (g1 := default empty_graph
                 (create_clients constraints accept_all
                    [{[ "client_id" := VInt 1 ]}]
                    empty_graph)).
    assert (E1 : create_clients constraints accept_all
                   [{[ "client_id" := VInt 1 ]}]
                   empty_graph = Some g1) by (vm_compute; reflexivity).
    assert (E2 : create_ssns constraints [{[ "ssn_id" := VStr "S1" ]}] g1
                 = Some g)
      by (vm_compute; reflexivity).
    eapply unwind_create_ids_unique; [|exact E2].
    eapply unwind_create_ids_unique; [|exact E1].
    apply empty_graph_ids_unique. }
  split; [exact Hu|].
  destruct (create_has_ssn_links g table) as (_ & (new & Hr & _ & Hlen) & _).
  rewrite Hr, length_app. specialize (Hlen Hu).
  etrans; [apply Nat.add_le_mono_l, Hlen|].
  vm_compute. lia.
Defined.

(** ** The store after an import *)

Lemma store_ok_extend g g' new :
  (∀ i, is_Some (nodes g !! i) → is_Some (nodes g' !! i)) →
  rels g' = rels g ++ new →
  Forall (λ r, is_Some (nodes g' !! rsrc r) ∧ is_Some (nodes g' !! rtgt r))
         new →
  store_ok g → store_ok g'.
Proof.
  intros Hn Hr Hnew Hok. unfold store_ok. rewrite Hr.
  apply Forall_app. split; [|done].
  eapply Forall_impl; [exact Hok|]. intros r [H1 H2]. split; by apply Hn.
Qed.

Lemma has_label_is_Some g l i :
  has_label g l i = true → is_Some (nodes g !! i).
Proof. intros (n & Hn & _)%has_label_node_prop. by exists n. Qed.

Lemma match_nodes_is_Some g l k v i :
  i ∈ match_nodes g l k v → is_Some (nodes g !! i).
Proof. intros (n & Hn & _)%elem_of_match_nodes. by exists n. Qed.

Lemma create_has_store_ok t lbl (col : string) g (rows : list row) :
  store_ok g →
  store_ok
    (foldl (λ g rel,
              link_row t g (match_nodes g Client "id" (rel !! "client_id"))
                           (match_nodes g lbl "id" (rel !! col)))
           g rows).
Proof.
  intros Hok. rewrite (create_has_flat t lbl col g rows g eq_refl).
  destruct (merge_pairs_new t g (rows ≫= has_pairs g lbl col))
    as (Hn & new & Hr & Hf & _).
  apply (store_ok_extend g _ new); [by rewrite Hn|done| |done].
  rewrite Hn. eapply Forall_impl; [exact Hf|]. intros r (_ & Hk & _).
  apply list_elem_of_bind in Hk as (rel & Hk & _). unfold has_pairs in Hk.
  apply list_elem_of_bind in Hk as (c & Hk & Hc).
  apply list_elem_of_bind in Hk as (s & Hk & Hs).
  apply list_elem_of_singleton in Hk. unfold rel_key in Hk.
  injection Hk as -> ->. split; by eapply match_nodes_is_Some.
Qed.

Lemma link_by_client_id_store_ok ty l g :
  store_ok g → store_ok (link_by_client_id ty l g).
Proof.
  intros Hok.
  destruct (link_by_client_id_joined ty l g) as (Hn & (new & Hr & Hf) & _).
  apply (store_ok_extend g _ new); [by rewrite Hn|done| |done].
  rewrite Hn. eapply Forall_impl; [exact Hf|]. intros r (_ & H1 & H2 & _).
  split; by eapply has_label_is_Some.
Qed.

Lemma annotate_degrees_store_ok g :
  store_ok g → store_ok (annotate_degrees g).
Proof.
  intros Hok. unfold store_ok. cbn [annotate_degrees rels].
  eapply Forall_impl; [exact Hok|]. intros r.
  rewrite !annotate_degrees_lookup, !fmap_is_Some. done.
Qed.

Lemma build_identity_links_store_ok g :
  store_ok g → store_ok (build_identity_links g).
Proof.
  intros Hok. destruct (build_identity_links_rels g) as [Hn Hr].
  eapply (store_ok_extend g); [by rewrite Hn|exact Hr| |done].
  rewrite Hn. apply Forall_fmap, Forall_forall.
  intros l [_ Hl]%list_elem_of_filter.
  apply identity_link_sound in Hl as (_ & H1 & H2 & _).
  split; by eapply has_label_is_Some.
Qed.

(** An import leaves a store in which every relationship starts and ends
    at a node: no step creates a relationship without both its nodes. *)
Theorem full_import_store_ok
    (constraint_ok : label → bool) (date_ok datetime_ok : string → bool)
    (parse_float : string → option Q)
    (g0 : Graph) (response : string) (data : Data) (g : Graph) :
  store_ok g0 →
  full_import constraint_ok date_ok datetime_ok parse_float g0 response data
  = Some g →
  store_ok g.
Proof.
  intros Hok Hrun. rewrite full_import_unfold in Hrun.
  destruct (before_degrees _ _ _ _ _ _ _) as [g1|] eqn:Hb; [|done].
  simpl in Hrun. inv Hrun.
  destruct (before_degrees_rels_after_nodes _ _ _ _ _ _ _ _ Hok Hb)
    as (g9 & Hr9 & ->).
  assert (H9 : store_ok g9) by (unfold store_ok; rewrite Hr9; constructor).
  assert (Hfinal : store_ok (build_identity_links (annotate_degrees
            (create_flagged_as
               (create_performed
                  (create_has_email
                     (create_has_phone
                        (create_has_ssn g9 (client_has_ssn data))
                        (client_has_phone data))
                     (client_has_email data))))))).
  { apply build_identity_links_store_ok, annotate_degrees_store_ok.
    apply link_by_client_id_store_ok, link_by_client_id_store_ok.
    apply (create_has_store_ok HAS_EMAIL Email "email_id").
    apply (create_has_store_ok HAS_PHONE Phone "phone_id").
    by apply (create_has_store_ok HAS_SSN SSN "ssn_id"). }
  done.
Qed.

Lemma full_import_store_ok_witness :
  let g := default empty_graph scenario_graph in
  store_ok empty_graph
  ∧ full_import every_label accept_all accept_all no_number empty_graph ""
      scenario
    = Some g
  ∧ store_ok g.
Proof.
  intros g.
  assert (H1 : store_ok empty_graph) by constructor.
  assert (H2 : full_import every_label accept_all accept_all no_number
                 empty_graph "" scenario = Some g)
    by (vm_compute; reflexivity).
  split; [exact H1|]. split; [exact H2|].
  exact (full_import_store_ok _ _ _ _ _ _ _ _ H1 H2).
Defined.

(** ** STEPS 15 and 16: rows that refer to no node *)

Lemma create_has_skip t lbl (col : string) g (before after : list row)
    (rel : row) :
  let run g rows :=
    foldl (λ g rel,
             link_row t g (match_nodes g Client "id" (rel !! "client_id"))
                          (match_nodes g lbl "id" (rel !! col)))
          g rows in
  match_nodes g Client "id" (rel !! "client_id") = []
  ∨ match_nodes g lbl "id" (rel !! col) = [] →
  run g (before ++ rel :: after) = run g (before ++ after).
Proof.
  intros run Hd. unfold run.
  rewrite !(create_has_flat t lbl col g _ g eq_refl).
  rewrite !bind_app, bind_cons.
  replace (has_pairs g lbl col rel) with (@nil (nat * nat)); [done|].
  unfold has_pairs. destruct Hd as [-> | ->]; [done|].
  symmetry. apply bind_nil, Forall_true. done.
Qed.

(** STEPS 15 and 16 skip, as STEP 14 does, a row whose client or whose
    phone or email is no node: the table without the row gives the same
    graph. *)
Theorem create_has_phone_email_skip (g : Graph)
    (before after : list row) (rel : row) :
  (match_nodes g Client "id" (rel !! "client_id") = []
   ∨ match_nodes g Phone "id" (rel !! "phone_id") = [] →
   create_has_phone g (before ++ rel :: after)
   = create_has_phone g (before ++ after))
  ∧ (match_nodes g Client "id" (rel !! "client_id") = []
     ∨ match_nodes g Email "id" (rel !! "email_id") = [] →
     create_has_email g (before ++ rel :: after)
     = create_has_email g (before ++ after)).
Proof.
  split; intros Hd.
  - by apply (create_has_skip HAS_PHONE Phone "phone_id").
  - by apply (create_has_skip HAS_EMAIL Email "email_id").
Qed.

Lemma create_has_phone_email_skip_witness :
  let g := client_and_ssn in
  let rel : row := {[ "client_id" := VInt 1; "phone_id" := VStr "P1" ]} in
  match_nodes g Phone "id" (rel !! "phone_id") = []
  ∧ create_has_phone g [rel] = g.
Proof.
  intros g rel.
  assert (H : match_nodes g Phone "id" (rel !! "phone_id") = [])
    by (vm_compute; reflexivity).
  split; [exact H|].
  exact (proj1 (create_has_phone_email_skip g [] [] rel) (or_intror H)).
Defined.

(** ** STEP 21: who gets linked *)

(** After STEP 21 two clients are joined by a SHARED_IDENTIFIERS
    relationship, from the one with the lower internal identifier to the
    other, whenever they hold a common identifier node; and every
    relationship the step creates joins two clients that hold one. *)
Theorem shared_identifiers_complete (g : Graph) :
  (∀ a b n, has_label g Client a = true → has_label g Client b = true →
            a < b →
            0 < length (holdings g a n) → 0 < length (holdings g b n) →
            ∃ r, r ∈ shared_rels (build_identity_links g)
                 ∧ rsrc r = a ∧ rtgt r = b)
  ∧ Forall (λ r, ∃ n, 0 < length (holdings g (rsrc r) n)
                      ∧ 0 < length (holdings g (rtgt r) n))
           (created g).
Proof.
  split.
  - intros a b n Ha Hb Hab [r Hr]%holdings_nonempty [r2 Hr2]%holdings_nonempty.
    apply elem_of_holdings in Hr as (Hr1 & Hr3 & <- & <-).
    apply elem_of_holdings in Hr2 as (Hr21 & Hr23 & <- & Ht).
    assert (Hp : (r, r2) ∈ co_ownerships g).
    { apply elem_of_co_ownerships. simpl. by split_and!. }
    set (l := link_of_group
                (pair_key (r, r2),
                 filter (λ q, pair_key q = pair_key (r, r2))
                        (co_ownerships g))).
    assert (Hl : l ∈ identity_links g)
      by (apply elem_of_identity_links; by exists (r, r2)).
    pose proof (foldl_merge_link_present (identity_links g) g l Hl) as Hpres.
    fold (build_identity_links g) in Hpres. unfold link_present in Hpres.
    apply existsb_exists in Hpres as (e & He & Hm).
    apply rel_matches_key in Hm as [Hty Hk].
    exists e. split_and!.
    + apply list_elem_of_filter. split; [done|by apply list_elem_of_In].
    + unfold rel_key in Hk. by injection Hk as -> _.
    + unfold rel_key in Hk. by injection Hk as _ ->.
  - rewrite created_links. apply Forall_fmap, Forall_forall.
    intros l [_ Hl]%list_elem_of_filter.
    apply elem_of_identity_links in Hl as ([r r2] & Hp & ->).
    apply elem_of_co_ownerships in Hp as (H1 & H2 & H3 & H4 & H5 & _).
    simpl in *. exists (rtgt r). split; apply holdings_nonempty.
    + exists r. by apply elem_of_holdings.
    + exists r2. by apply elem_of_holdings.
Qed.

Lemma shared_identifiers_complete_witness :
  let g := base_graph shared_ssn_and_phone in
  has_label g Client 0 = true ∧ has_label g Client 1 = true ∧ 0 < 1
  ∧ 0 < length (holdings g 0 2) ∧ 0 < length (holdings g 1 2)
  ∧ ∃ r, r ∈ shared_rels (build_identity_links g) ∧ rsrc r = 0 ∧ rtgt r = 1.
Proof.
  intros g.
  assert (Ha : has_label g Client 0 = true) by (vm_compute; reflexivity).
  assert (Hb : has_label g Client 1 = true) by (vm_compute; reflexivity).
  assert (Hab : 0 < 1) by (apply Nat.lt_0_1).
  assert (H0 : 0 < length (holdings g 0 2)) by (vm_compute; lia).
  assert (H1 : 0 < length (holdings g 1 2)) by (vm_compute; lia).
  split; [exact Ha|]. split; [exact Hb|]. split; [exact Hab|].
  split; [exact H0|]. split; [exact H1|].
  exact (proj1 (shared_identifiers_complete g) 0 1 2 Ha Hb Hab H0 H1).
Defined.

(** A client, a transaction of that client, and a transaction of nobody. *)
Definition two_transactions : Graph :=
  {| nodes :=
       {[ 0 := {| nlabel := Client; nprops := {[ "id" := VInt 1 ]} |};
          1 := {| nlabel := Transaction;
                  nprops := {[ "id" := VInt 10; "clientId" := VInt 1 ]} |};
          2 := {| nlabel := Transaction;
                  nprops := {[ "id" := VInt 11; "clientId" := VInt 5 ]} |} ]};
     rels := [] |}.

Lemma performed_and_flagged_as_witness :
  has_label two_transactions Client 0 = true
  ∧ has_label two_transactions Transaction 1 = true
  ∧ cy_eqb (node_prop two_transactions 0 "id")
           (node_prop two_transactions 1 "clientId") = true
  ∧ rel_present PERFORMED (create_performed two_transactions) (0, 1) = true
  ∧ rel_key <$> rels (create_performed two_transactions) = [(0, 1)].
Proof.
  assert (H0 : has_label two_transactions Client 0 = true)
    by (vm_compute; reflexivity).
  assert (H1 : has_label two_transactions Transaction 1 = true)
    by (vm_compute; reflexivity).
  assert (H2 : cy_eqb (node_prop two_transactions 0 "id")
                 (node_prop two_transactions 1 "clientId") = true)
    by (vm_compute; reflexivity).
  split; [exact H0|]. split; [exact H1|]. split; [exact H2|].
  split; [|vm_compute; reflexivity].
  destruct (performed_and_flagged_as two_transactions) as [(_ & _ & H) _].
  exact (H 0 1 H0 H1 H2).
Defined.

Lemma verify_import_counts_witness :
  let g := default empty_graph scenario_graph in
  (Client, 4) ∈ node_type_counts g
  ∧ total_nodes g = 6 ∧ total_rels g = 9.
Proof.
  intros g.
  destruct (verify_import_counts g) as (Hn & Hr & _ & _ & _ & _ & Hl & _).
  split; [|split].
  - apply Hl. split; [lia|]. vm_compute. reflexivity.
  - rewrite Hn. vm_compute. reflexivity.
  - rewrite Hr. vm_compute. reflexivity.
Defined.

(** ** STEP 21 in a run of the import *)

(** Whatever the database held, a run that goes on goes on from an empty
    graph, and so ends in the graph a run on an empty database gives. *)
Lemma full_import_from_empty ok dk dtk pf g0 response data g :
  store_ok g0 →
  full_import ok dk dtk pf g0 response data = Some g →
  full_import ok dk dtk pf empty_graph "" data = Some g.
Proof.
  intros Hok. unfold full_import.
  destruct (check_existing g0 response) as [g1|] eqn:H1; [|done].
  rewrite (check_existing_empty g0 response g1 Hok H1).
  change (check_existing empty_graph "") with (Some empty_graph). done.
Qed.

(** STEP 21 reads a graph of typed holdings without any SHARED_IDENTIFIERS
    relationship. *)
Lemma full_import_step21 ok dk dtk pf g0 response data g :
  store_ok g0 →
  full_import ok dk dtk pf g0 response data = Some g →
  ∃ g20, g = build_identity_links g20 ∧ shared_rels g20 = []
         ∧ typed_holdings g20.
Proof.
  intros Hok Hrun. rewrite full_import_unfold in Hrun.
  destruct (before_degrees _ _ _ _ _ _ _) as [g19|] eqn:Hb; [|done].
  simpl in Hrun. inv Hrun.
  exists (annotate_degrees g19). split_and!; [done| |].
  - pose proof (before_degrees_direct _ _ _ _ _ _ _ _ Hok Hb) as Hdirect.
    unfold shared_rels. cbn [annotate_degrees rels].
    apply filter_none. eapply Forall_impl; [exact Hdirect|].
    intros r Hr Ht. simpl in Hr. by rewrite Ht in Hr.
  - by eapply before_degrees_typed.
Qed.

(** From there STEP 21 leaves one relationship for every row of its WITH,
    and the rows are those the graph it leaves would give again. *)
Lemma build_identity_links_first g20 :
  shared_rels g20 = [] →
  identity_links (build_identity_links g20) = identity_links g20
  ∧ shared_rels (build_identity_links g20)
    = link_rel <$> identity_links (build_identity_links g20).
Proof.
  intros Hnone.
  assert (Hlinks : identity_links (build_identity_links g20)
                   = identity_links g20).
  { apply identity_links_grows.
    eapply grows_by_weaken; [|apply build_identity_links_grows].
    apply shared_not_identifier. }
  split; [done|]. rewrite Hlinks. by apply build_identity_links_fresh.
Qed.

Lemma link_rel_props l :
  rprops (link_rel l) !! "count" = Some (VInt (cnt l))
  ∧ rprops (link_rel l) !! "weight" = Some (VFloat (weight l)).
Proof.
  unfold link_rel, link_props; simpl.
  by rewrite lookup_insert_eq, lookup_insert_ne, lookup_insert_eq.
Qed.

(** Among the relationships of the rows, the pair of a row has the
    relationship of the row and no other, in either direction. *)
Lemma link_rels_of_pair g l :
  l ∈ identity_links g →
  filter (λ r, rel_key r = (c1 l, c2 l) ∨ rel_key r = (c2 l, c1 l))
         (link_rel <$> identity_links g)
  = [link_rel l].
Proof.
  intros Hl. rewrite filter_fmap.
  rewrite (filter_ext_elem _ (λ l', link_key l' = link_key l)).
  - by rewrite (filter_key_NoDup link_key _ l (identity_links_NoDup g) Hl).
  - intros l' [Hlt' _]%identity_link_sound.
    pose proof (identity_link_sound g l Hl) as [Hlt _].
    unfold rel_key, link_rel, link_key; simpl. split.
    + intros [[= <- <-]|[= H1 H2]]; [done|lia].
    + intros [= -> ->]. by left.
Qed.

(** C3.  Whatever the database held before, a run of the import leaves,
    for every pair of clients that STEP 21 matches, exactly one
    SHARED_IDENTIFIERS relationship between the two, in either direction,
    and it carries the count and the weight STEP 21 aggregated in this run.
    No relationship of an earlier run is left beside it and nothing is
    added to one: STEP 3 has cleared the database or ended the script,
    STEP 21 finds no SHARED_IDENTIFIERS relationship where it starts, and
    the run ends in the graph that a run on an empty database gives. *)
Theorem full_import_one_edge_per_pair
    (constraint_ok : label → bool) (date_ok datetime_ok : string → bool)
    (parse_float : string → option Q)
    (g0 : Graph) (response : string) (data : Data) (g : Graph) :
  store_ok g0 →
  full_import constraint_ok date_ok datetime_ok parse_float g0 response data
  = Some g →
  full_import constraint_ok date_ok datetime_ok parse_float empty_graph ""
    data
  = Some g
  ∧ (∃ g20, g = build_identity_links g20 ∧ shared_rels g20 = []
            ∧ identity_links g = identity_links g20)
  ∧ length (shared_rels g) = length (identity_links g)
  ∧ ∀ l, l ∈ identity_links g →
      ∃ r, filter (λ r, rel_key r = (c1 l, c2 l) ∨ rel_key r = (c2 l, c1 l))
                  (shared_rels g)
           = [r]
           ∧ rsrc r = c1 l ∧ rtgt r = c2 l
           ∧ rprops r !! "count" = Some (VInt (cnt l))
           ∧ rprops r !! "weight" = Some (VFloat (weight l)).
Proof.
  intros Hok Hrun.
  destruct (full_import_step21 _ _ _ _ _ _ _ _ Hok Hrun)
    as (g20 & -> & Hnone & _).
  destruct (build_identity_links_first g20 Hnone) as [Hlinks Hshared].
  split_and!.
  - by eapply full_import_from_empty.
  - by exists g20.
  - by rewrite Hshared, length_fmap.
  - intros l Hl. exists (link_rel l). rewrite Hshared.
    split_and!; [by apply link_rels_of_pair|done|done|apply link_rel_props..].
Qed.

(** C5.  In the graph a run of the import leaves, every SHARED_IDENTIFIERS
    relationship joins two distinct Client nodes, from the one with the
    lower internal identifier to the other, so that none joins a client to
    itself; its count is at least 1 and its weight above 0; and no
    unordered pair of clients has more than one. *)
Theorem full_import_shared_edges
    (constraint_ok : label → bool) (date_ok datetime_ok : string → bool)
    (parse_float : string → option Q)
    (g0 : Graph) (response : string) (data : Data) (g : Graph) :
  store_ok g0 →
  full_import constraint_ok date_ok datetime_ok parse_float g0 response data
  = Some g →
  Forall (sound_edge g) (shared_rels g)
  ∧ (∀ r, r ∈ shared_rels g → rsrc r ≠ rtgt r)
  ∧ ∀ a b,
      length (filter (λ r, rel_key r = (a, b) ∨ rel_key r = (b, a))
                     (shared_rels g)) ≤ 1.
Proof.
  intros Hok Hrun.
  destruct (full_import_step21 _ _ _ _ _ _ _ _ Hok Hrun)
    as (g20 & -> & Hnone & _).
  destruct (build_identity_links_first g20 Hnone) as [_ Hshared].
  set (g := build_identity_links g20) in *.
  assert (Hsound : Forall (sound_edge g) (shared_rels g)).
  { rewrite Hshared. apply Forall_fmap, Forall_forall.
    intros l Hl. by apply link_rel_sound. }
  split_and!; [done| |].
  - intros r Hr. rewrite Forall_forall in Hsound.
    destruct (Hsound r Hr) as (_ & Hlt & _). lia.
  - intros a b. rewrite Hshared, filter_fmap.
    rewrite (filter_ext_elem _
               (λ l, link_key l = (Nat.min a b, Nat.max a b))).
    + rewrite length_fmap. apply filter_key_length, identity_links_NoDup.
    + intros l [Hlt _]%identity_link_sound.
      unfold rel_key, link_rel, link_key; simpl. split.
      * intros [[= <- <-]|[= <- <-]]; f_equal; lia.
      * intros [= H1 H2].
        destruct (decide (a ≤ b)); [left|right]; f_equal; lia.
Qed.

(** The database an earlier run on [shared_ssn_and_phone] left: clients 1
    and 2 (nodes 0 and 1) joined with count 2 and weight 6.5. *)
Definition earlier_run : Graph :=
  default empty_graph
    (full_import every_label accept_all accept_all no_number empty_graph ""
       shared_ssn_and_phone).

(** A run of the scenario on that database, the operator answering yes:
    clients 1 and 2 now share one SSN, and the pair is left one
    relationship, with count 1 and weight 5.0. *)
Lemma full_import_one_edge_per_pair_witness :
  let g := default empty_graph
             (full_import every_label accept_all accept_all no_number
                earlier_run "yes" scenario) in
  let l := {| c1 := 0; c2 := 1; cnt := 1; weight := 5 |} in
  store_ok earlier_run
  ∧ edge_summary <$> shared_rels earlier_run
    = [(0, 1, Some (VInt 2), Some (VFloat (13 # 2)))]
  ∧ full_import every_label accept_all accept_all no_number
      earlier_run "yes" scenario
    = Some g
  ∧ l ∈ identity_links g
  ∧ edge_summary
      <$> filter (λ r, rel_key r = (0, 1) ∨ rel_key r = (1, 0))
                 (shared_rels g)
    = [(0, 1, Some (VInt 1), Some (VFloat 5))].
Proof.
  intros g l.
  assert (H1 : store_ok earlier_run).
  { unfold store_ok. apply Forall_forall. intros r Hr.
    apply list_elem_of_In in Hr. vm_compute in Hr.
    repeat (destruct Hr as [<-|Hr]; [split; vm_compute; eauto|]).
    destruct Hr. }
  assert (H2 : full_import every_label accept_all accept_all no_number
                 earlier_run "yes" scenario = Some g)
    by (vm_compute; reflexivity).
  assert (Hl : l ∈ identity_links g).
  { apply list_elem_of_In. vm_compute. left. reflexivity. }
  destruct (full_import_one_edge_per_pair _ _ _ _ _ _ _ _ H1 H2)
    as (_ & _ & _ & Hpair).
  destruct (Hpair l Hl) as (r & Hf & Hs & Ht & Hc & Hw).
  split; [exact H1|]. split; [vm_compute; reflexivity|].
  split; [exact H2|]. split; [exact Hl|].
  change (c1 l) with 0 in Hf, Hs. change (c2 l) with 1 in Hf, Ht.
  rewrite Hf. unfold edge_summary. cbn [fmap list_fmap].
  rewrite Hs, Ht, Hc, Hw. reflexivity.
Defined.

(** The run on [shared_emails]: clients 1 and 2 hold two emails in common
    and get one relationship, from node 0 to node 1, with count 2 and
    weight 2.0. *)
Lemma full_import_shared_edges_witness :
  let g := default empty_graph
             (full_import every_label accept_all accept_all no_number
                empty_graph "" shared_emails) in
  store_ok empty_graph
  ∧ full_import every_label accept_all accept_all no_number
      empty_graph "" shared_emails
    = Some g
  ∧ edge_summary <$> shared_rels g
    = [(0, 1, Some (VInt 2), Some (VFloat 2))]
  ∧ length (filter (λ r, rel_key r = (0, 1) ∨ rel_key r = (1, 0))
                   (shared_rels g)) ≤ 1.
Proof.
  intros g.
  assert (H1 : store_ok empty_graph) by constructor.
  assert (H2 : full_import every_label accept_all accept_all no_number
                 empty_graph "" shared_emails = Some g)
    by (vm_compute; reflexivity).
  split; [exact H1|]. split; [exact H2|].
  split; [vm_compute; reflexivity|].
  exact (proj2 (proj2 (full_import_shared_edges _ _ _ _ _ _ _ _ H1 H2)) 0 1).
Defined.

(** ** STEP 21 in a run: count and weight *)

(** The weight of the table, by the kind of the identifier node. *)
Definition label_weight (l : option label) : Q :=
  match l with
  | Some Email => 1
  | Some Phone => 3 # 2
  | Some SSN => 5
  | _ => 0
  end.

(** Where no client holds one identifier node by two relationships, a row
    of STEP 21 counts the identifier nodes its two clients both hold and
    adds up the weights of the first client's holdings of them. *)
Lemma identity_link_count_weight g l :
  simple_holdings g → l ∈ identity_links g →
  0 < length (held_by_both g (c1 l) (c2 l))
  ∧ cnt l = Z.of_nat (length (held_by_both g (c1 l) (c2 l)))
  ∧ (weight l
     == Qsum (contribution g (c1 l) <$> held_by_both g (c1 l) (c2 l)))%Q.
Proof.
  intros Hs Hl.
  pose proof (identity_link_sound g l Hl) as (Hlt & Ha & Hb & Hcnt & _).
  apply elem_of_identity_links in Hl as (p & Hp & Hl).
  destruct (pair_key p) as [a b] eqn:Hk. subst l.
  unfold link_of_group in *. cbn [c1 c2 cnt weight fst snd] in *.
  pose proof (pair_rows_targets g a b Hs Ha Hb Hlt) as Hperm.
  set (rs := filter (λ q, pair_key q = (a, b)) (co_ownerships g)) in *.
  assert (Hlen : length (held_by_both g a b) = length rs).
  { by rewrite <- (Permutation_length Hperm), length_fmap. }
  split_and!.
  - lia.
  - by rewrite Hlen.
  - rewrite <- (Qsum_perm _ _ (fmap_Permutation (contribution g a) _ _ Hperm)).
    rewrite <- list_fmap_compose.
    rewrite (list_fmap_ext (λ q : Rel * Rel, type_weight (rtype q.1))
               (contribution g a ∘ (λ q : Rel * Rel, rtgt q.1)) rs);
      [reflexivity|].
    intros i q Hq%list_elem_of_lookup_2. simpl.
    apply list_elem_of_filter in Hq as [Hkq Hq].
    apply elem_of_co_ownerships in Hq as (H1 & _ & H3 & _).
    unfold pair_key in Hkq. injection Hkq as Hq1 _.
    symmetry. apply contribution_single; [done|].
    by apply elem_of_holdings.
Qed.

(** C6.  In the graph a run of the import leaves, every SHARED_IDENTIFIERS
    relationship joins two clients that hold at least one identifier node
    in common.  Its count is the number of identifier nodes both hold, each
    physical co-ownership counting once, so that two shared SSNs count
    twice; its weight is the sum, over these nodes, of the table's weight
    for the holding: 1.0 for HAS_EMAIL, an Email node, 1.5 for HAS_PHONE, a
    Phone node, 5.0 for HAS_SSN, an SSN node.  Two clients whose common
    identifier nodes are one SSN and one phone get count 2 and weight
    6.5. *)
Theorem full_import_count_weight
    (constraint_ok : label → bool) (date_ok datetime_ok : string → bool)
    (parse_float : string → option Q)
    (g0 : Graph) (response : string) (data : Data) (g : Graph) (r : Rel) :
  store_ok g0 →
  full_import constraint_ok date_ok datetime_ok parse_float g0 response data
  = Some g →
  r ∈ shared_rels g →
  let both := held_by_both g (rsrc r) (rtgt r) in
  0 < length both
  ∧ rprops r !! "count" = Some (VInt (Z.of_nat (length both)))
  ∧ (∃ w, rprops r !! "weight" = Some (VFloat w)
          ∧ (w == Qsum (contribution g (rsrc r) <$> both))%Q)
  ∧ (∀ n, n ∈ both →
          (∃ h, h ∈ holdings g (rsrc r) n
                ∧ contribution g (rsrc r) n = type_weight (rtype h))
          ∧ contribution g (rsrc r) n = label_weight (label_of g n))
  ∧ (∀ s p, both ≡ₚ [s; p] →
            label_of g s = Some SSN → label_of g p = Some Phone →
            rprops r !! "count" = Some (VInt 2)
            ∧ ∃ w, rprops r !! "weight" = Some (VFloat w)
                   ∧ (w == 13 # 2)%Q).
Proof.
  intros Hok Hrun Hr both.
  destruct (full_import_step21 _ _ _ _ _ _ _ _ Hok Hrun)
    as (g20 & -> & Hnone & Hty20).
  destruct (build_identity_links_first g20 Hnone) as [_ Hshared].
  pose proof (typed_holdings_grows SHARED_IDENTIFIERS _ _ eq_refl
                (build_identity_links_grows g20) Hty20) as [Hs Hty].
  set (g := build_identity_links g20) in *.
  rewrite Hshared in Hr. apply list_elem_of_fmap in Hr as (l & -> & Hl).
  destruct (identity_link_count_weight g l Hs Hl) as (Hpos & Hcnt & Hw).
  destruct (link_rel_props l) as [Hpc Hpw].
  change (rsrc (link_rel l)) with (c1 l) in *.
  change (rtgt (link_rel l)) with (c2 l) in *.
  assert (Hkind : ∀ n, n ∈ both →
            (∃ h, h ∈ holdings g (c1 l) n
                  ∧ contribution g (c1 l) n = type_weight (rtype h))
            ∧ contribution g (c1 l) n = label_weight (label_of g n)).
  { intros n Hn. unfold both, held_by_both in Hn.
    apply list_elem_of_filter in Hn as [[Hh _] _].
    apply holdings_nonempty in Hh as [h Hh].
    pose proof (contribution_single g _ _ h Hs Hh) as Hc.
    split; [by exists h|]. rewrite Hc.
    apply elem_of_holdings in Hh as (Hin & Hid & _ & Htg).
    rewrite Forall_forall in Hty.
    destruct (Hty h) as [_ Hlab]; [by apply elem_of_identifier_rels|].
    rewrite Htg in Hlab. rewrite Hlab. by destruct (rtype h). }
  split_and!.
  - done.
  - by rewrite Hpc, Hcnt.
  - by exists (weight l).
  - done.
  - intros s p Hperm Hss Hpp. split.
    + rewrite Hpc, Hcnt. unfold both in Hperm.
      by rewrite (Permutation_length Hperm).
    + exists (weight l). split; [done|].
      eapply Qeq_trans; [exact Hw|].
      eapply Qeq_trans;
        [apply Qsum_perm, (fmap_Permutation _ _ _ Hperm)|].
      cbn [fmap list_fmap Qsum foldr].
      assert (Hsin : s ∈ both) by (rewrite Hperm; apply list_elem_of_here).
      assert (Hpin : p ∈ both).
      { rewrite Hperm. apply list_elem_of_further, list_elem_of_here. }
      rewrite (proj2 (Hkind s Hsin)), (proj2 (Hkind p Hpin)).
      rewrite Hss, Hpp. reflexivity.
Qed.

(** The run on [shared_ssn_and_phone]: clients 1 and 2 hold SSN S1 (node
    2) and phone P1 (node 3), and their relationship has count 2 and
    weight 5.0 + 1.5 = 6.5. *)
Lemma full_import_count_weight_witness :
  let g := earlier_run in
  let r := link_rel {| c1 := 0; c2 := 1; cnt := 2; weight := 13 # 2 |} in
  store_ok empty_graph
  ∧ full_import every_label accept_all accept_all no_number
      empty_graph "" shared_ssn_and_phone
    = Some g
  ∧ r ∈ shared_rels g
  ∧ held_by_both g 0 1 = [2; 3]
  ∧ label_of g 2 = Some SSN ∧ label_of g 3 = Some Phone
  ∧ rprops r !! "count" = Some (VInt 2)
  ∧ ∃ w, rprops r !! "weight" = Some (VFloat w) ∧ (w == 13 # 2)%Q.
Proof.
  intros g r.
  assert (H1 : store_ok empty_graph) by constructor.
  assert (H2 : full_import every_label accept_all accept_all no_number
                 empty_graph "" shared_ssn_and_phone = Some g)
    by (vm_compute; reflexivity).
  assert (H3 : r ∈ shared_rels g).
  { apply list_elem_of_In. vm_compute. left. reflexivity. }
  assert (Hboth : held_by_both g 0 1 = [2; 3]) by (vm_compute; reflexivity).
  assert (Hs : label_of g 2 = Some SSN) by (vm_compute; reflexivity).
  assert (Hp : label_of g 3 = Some Phone) by (vm_compute; reflexivity).
  destruct (full_import_count_weight _ _ _ _ _ _ _ _ r H1 H2 H3)
    as (_ & _ & _ & _ & Hpair).
  assert (Hperm : held_by_both g 0 1 ≡ₚ [2; 3]) by (by rewrite Hboth).
  destruct (Hpair 2 3 Hperm Hs Hp) as [Hc Hw].
  split; [exact H1|]. split; [exact H2|]. split; [exact H3|].
  split; [exact Hboth|]. split; [exact Hs|]. split; [exact Hp|].
  split; [exact Hc|exact Hw].
Defined.
